(** * D-MPNN featurizer: a shallow embedding of
      [deepchem/feat/molecule_featurizers/dmpnn_featurizer.py]

    The development follows the source file top to bottom:
    - [Py]: the few pieces of Python and numpy semantics the code relies on
      (exceptions, [range], list indexing, 2-D arrays);
    - [GraphConvConstants]: the featurization constants;
    - [Encoders]: [get_atomic_num_one_hot], [atom_features], [bond_features];
    - [Reaction]: [map_reac_to_prod];
    - [Mapper]: the class [_MapperDMPNN].

    The chemistry toolkit (atoms, bonds, molecules) is opaque to the code; it
    is kept abstract here as well, behind the interface [RDKit].  The second
    half of the file states and proves the properties of these functions. *)

From Stdlib Require Import ZArith Lia.
From stdpp Require Import base option list sorting gmap strings.

Set Default Proof Using "Type".

(** * Python semantics used by the featurizer *)
Module Py.

(** The exceptions the modelled operations can raise. *)
Inductive exn : Set := IndexError | KeyError | ValueError.

(** A computation either returns a value or raises. *)
Inductive result (A : Type) : Type :=
| Ok (a : A)
| Raise (e : exn).
Global Arguments Ok {A} a.
Global Arguments Raise {A} e.

Global Instance result_ret : MRet result := λ A a, Ok a.
Global Instance result_bind : MBind result := λ A B f m,
  match m with
  | Ok a => f a
  | Raise e => Raise e
  end.

(** [for x in xs: s = body(s, x)], stopping at the first exception. *)
Fixpoint for_each {S A : Type} (body : S → A → result S)
    (xs : list A) (s : S) : result S :=
  match xs with
  | [] => Ok s
  | x :: xs' => s' ← body s x; for_each body xs' s'
  end.

(** [range(lo, hi)] over non-negative bounds. *)
Definition range (lo hi : nat) : list nat := seq lo (hi - lo).

(** [l[i]] on a list, for a non-negative index. *)
Definition getitem {A : Type} (l : list A) (i : nat) : result A :=
  match l !! i with
  | Some x => Ok x
  | None => Raise IndexError
  end.

(** [d[k]] on a dict. *)
Definition dict_getitem `{Countable K} {V : Type}
    (d : gmap K V) (k : K) : result V :=
  match d !! k with
  | Some v => Ok v
  | None => Raise KeyError
  end.

(** [try: body except KeyError: handler]. *)
Definition try_except_KeyError {A : Type}
    (body : result A) (handler : result A) : result A :=
  match body with
  | Raise KeyError => handler
  | r => r
  end.

(** [[f(x) for x in xs]], stopping at the first exception. *)
Fixpoint list_comp {A B : Type} (f : A → result B) (xs : list A)
    : result (list B) :=
  match xs with
  | [] => Ok []
  | x :: xs' => y ← f x; ys ← list_comp f xs'; Ok (y :: ys)
  end.

(** [[v] * n] *)
Definition times {A : Type} (v : A) (n : nat) : list A := replicate n v.

(** [enumerate(l)]. *)
Definition enumerate {A : Type} (l : list A) : list (nat * A) :=
  imap (λ i x, (i, x)) l.

(** [max(l)] of a sequence; raises on an empty one. *)
Definition max_of (l : list nat) : result nat :=
  match l with
  | [] => Raise ValueError
  | x :: l' => Ok (foldl Nat.max x l')
  end.

(** [l.index(v)]: position of the first element equal to [v]. *)
Fixpoint index `{EqDecision A} (v : A) (l : list A) : option nat :=
  match l with
  | [] => None
  | x :: l' => if decide (x = v) then Some 0 else S <$> index v l'
  end.

(** ** numpy arrays of two dimensions

    An array owns one buffer, laid out row by row; [a[r]] is a view of the
    [shape1] cells that start at offset [r * shape1], and writing through
    the view writes the buffer. *)
Record ndarray (A : Type) : Type := NdArray {
  shape0 : nat;
  shape1 : nat;
  data : list A
}.
Global Arguments NdArray {A} shape0 shape1 data.
Global Arguments shape0 {A} n.
Global Arguments shape1 {A} n.
Global Arguments data {A} n.

(** [np.empty(0)] *)
Definition nd_empty {A : Type} : ndarray A := NdArray 0 0 [].

(** [np.asarray(rows)] of a list of rows; rows of different lengths have
    no array shape. *)
Definition nd_asarray {A : Type} (rows : list (list A))
    : result (ndarray A) :=
  match rows with
  | [] => Ok nd_empty
  | r :: _ =>
      if decide (Forall (λ r', length r' = length r) rows)
      then Ok (NdArray (length rows) (length r) (mjoin rows))
      else Raise ValueError
  end.

(** [a[r]] read as a row. *)
Definition nd_row {A : Type} (a : ndarray A) (r : nat) : result (list A) :=
  if decide (r < shape0 a)
  then Ok (take (shape1 a) (drop (r * shape1 a) (data a)))
  else Raise IndexError.

(** [a[idxs]] for a list of row indices: a new array whose rows are
    copies of the selected rows. *)
Definition nd_take {A : Type} (a : ndarray A) (idxs : list nat)
    : result (ndarray A) :=
  rows ← list_comp (nd_row a) idxs;
  Ok (NdArray (length idxs) (shape1 a) (mjoin rows)).

(** [v.reshape([1, n])] of a one-dimensional [v]. *)
Definition nd_reshape_row {A : Type} (v : list A) (n : nat)
    : result (ndarray A) :=
  if decide (length v = n) then Ok (NdArray 1 n v) else Raise ValueError.

(** [np.concatenate((a, b), axis=0)] *)
Definition nd_concatenate0 {A : Type} (a b : ndarray A)
    : result (ndarray A) :=
  if decide (shape1 a = shape1 b)
  then Ok (NdArray (shape0 a + shape0 b) (shape1 a) (data a ++ data b))
  else Raise ValueError.

(** [np.where(v == i)] on a one-dimensional [v]: the positions that hold
    [i], in increasing order. *)
Definition np_where_eq `{EqDecision A} (v : list A) (i : A) : list nat :=
  (enumerate v ≫= λ jx, if decide (jx.2 = i) then [jx.1] else []).

(** Writing [v] in cell [j] of a view of [width] cells that starts at
    offset [off] of the buffer [d]. *)
Definition assign_cell {A : Type} (off width : nat) (v : A)
    (d : list A) (j : nat) : result (list A) :=
  if decide (j < width) then Ok (<[off + j := v]> d)
  else Raise IndexError.

(** [a[r][idxs] = v]: writes [v] through the view of row [r]. *)
Definition nd_row_assign {A : Type} (a : ndarray A) (r : nat)
    (idxs : list nat) (v : A) : result (ndarray A) :=
  if decide (r < shape0 a) then
    d ← for_each (assign_cell (r * shape1 a) (shape1 a) v) idxs (data a);
    Ok (NdArray (shape0 a) (shape1 a) d)
  else Raise IndexError.

End Py.
Import Py.

(** * Featurization parameters (class [GraphConvConstants]) *)
Module GraphConvConstants.

Definition MAX_ATOMIC_NUM : nat := 100.

Definition ATOM_FEATURES : gmap string (list Z) :=
  list_to_map
    [ ("atomic_num", Z.of_nat <$> range 0 MAX_ATOMIC_NUM);
      ("degree", [0; 1; 2; 3; 4; 5]%Z);
      ("formal_charge", [-1; -2; 1; 2; 0]%Z);
      ("chiral_tag", [0; 1; 2; 3]%Z);
      ("num_Hs", [0; 1; 2; 3; 4]%Z) ].

Definition ATOM_FEATURES_HYBRIDIZATION : list string :=
  ["SP"; "SP2"; "SP3"; "SP3D"; "SP3D2"].

(** [sum(len(choices) + 1 for choices in ATOM_FEATURES.values())
     + len(ATOM_FEATURES_HYBRIDIZATION) + 1 + 2] *)
Definition ATOM_FDIM : nat :=
  sum_list ((λ kv : string * list Z, length kv.2 + 1)
              <$> map_to_list ATOM_FEATURES)
  + length ATOM_FEATURES_HYBRIDIZATION + 1 + 2.

Definition BOND_FDIM : nat := 14.

End GraphConvConstants.
Import GraphConvConstants.


(** * The collaborators of the featurizer *)

(** Python floats: the featurizer multiplies by the literal [0.01], truncates
    with [int(x)], and converts integers with [dtype=float]; it never
    inspects the result. *)
Class PyFloat : Type := {
  float : Type;
  fmul : float → float → float;
  float_0_01 : float;
  float_trunc : float → Z;
  float_of_int : Z → float
}.

(** The chemistry toolkit.  Atoms of a molecule are addressed from 0,
    [GetBondBetweenAtoms] answers [None] when the two atoms are not bonded. *)
Class RDKit `{PyFloat} : Type := {
  RDKitAtom : Type;
  RDKitBond : Type;
  RDKitMol : Type;
  GetAtomicNum : RDKitAtom → Z;
  GetChiralTag : RDKitAtom → Z;
  GetMass : RDKitAtom → float;
  GetAtomMapNum : RDKitAtom → Z;
  GetIdx : RDKitAtom → nat;
  GetAtoms : RDKitMol → list RDKitAtom;
  GetBondBetweenAtoms : RDKitMol → nat → nat → option RDKitBond
}.

(** Entries of a feature list: Python ints (booleans included) and floats. *)
Inductive pynum `{PyFloat} : Type :=
| PInt (z : Z)
| PFloat (x : float).

(** The helpers imported from [deepchem.utils.molecule_feature_utils] and
    [deepchem.feat.graph_features] whose results the encoders only
    concatenate. *)
Class FeatureUtils `{RDKit} : Type := {
  get_atom_total_degree_one_hot : RDKitAtom → list Z → list pynum;
  get_atom_formal_charge_one_hot : RDKitAtom → list Z → list pynum;
  get_atom_total_num_Hs_one_hot : RDKitAtom → list Z → list pynum;
  get_atom_hybridization_one_hot :
    RDKitAtom → list string → bool → list pynum;
  get_atom_is_in_aromatic_one_hot : RDKitAtom → list pynum;
  (** [b_Feats(bond, use_extended_chirality)] *)
  b_Feats : RDKitBond → bool → list pynum
}.

(** * Atom and bond encoders *)
Module Encoders.
Section encoders.
Context {F : PyFloat} {R : RDKit} {U : FeatureUtils}.

(** Modelled from the spec: [one_hot_encode] of
    [deepchem.utils.molecule_feature_utils], which is not part of the
    sources at hand.  "Given a value and an allowed ordered set of
    categories, produce a vector of length |set| (+1 if unknown bucket
    enabled); set the slot matching the value to 1; if no match and
    unknown bucket enabled, set the extra trailing slot to 1; if no match
    and unknown bucket disabled, vector is all zero." *)
Definition one_hot_encode `{EqDecision A}
    (val : A) (allowable_set : list A) (include_unknown_set : bool)
    : list pynum :=
  let one_hot_length :=
    if include_unknown_set then length allowable_set + 1
    else length allowable_set in
  let one_hot := times (PInt 0) one_hot_length in
  match index val allowable_set with
  | Some k => <[k := PInt 1]> one_hot
  | None =>
      if include_unknown_set
      then <[one_hot_length - 1 := PInt 1]> one_hot
      else one_hot
  end.

(** [int(feature)] *)
Definition py_int (x : pynum) : pynum :=
  match x with
  | PInt z => PInt z
  | PFloat f => PInt (float_trunc f)
  end.

Definition get_atomic_num_one_hot (atom : RDKitAtom)
    (allowable_set : list Z) (include_unknown_set : bool)
    : list pynum :=
  one_hot_encode (GetAtomicNum atom - 1)%Z allowable_set
    include_unknown_set.

Definition get_atom_chiral_tag_one_hot (atom : RDKitAtom)
    (allowable_set : list Z) (include_unknown_set : bool)
    : list pynum :=
  one_hot_encode (GetChiralTag atom) allowable_set include_unknown_set.

Definition get_atom_mass (atom : RDKitAtom) : list pynum :=
  [PFloat (fmul (GetMass atom) float_0_01)].

Definition atom_features (atom : option RDKitAtom)
    (functional_groups : option (list pynum))
    (only_atom_num : bool) : result (list pynum) :=
  match atom with
  | None => Ok (times (PInt 0) ATOM_FDIM)
  | Some atom =>
      if only_atom_num then
        let features := [] in
        atomic_num ← dict_getitem ATOM_FEATURES "atomic_num";
        let features :=
          features ++ get_atomic_num_one_hot atom atomic_num true in
        let features :=
          features
          ++ times (PInt 0) (ATOM_FDIM - MAX_ATOMIC_NUM - 1) in
        Ok features
      else
        let features := [] in
        atomic_num ← dict_getitem ATOM_FEATURES "atomic_num";
        let features :=
          features ++ get_atomic_num_one_hot atom atomic_num true in
        degree ← dict_getitem ATOM_FEATURES "degree";
        let features :=
          features ++ get_atom_total_degree_one_hot atom degree in
        formal_charge ← dict_getitem ATOM_FEATURES "formal_charge";
        let features :=
          features ++ get_atom_formal_charge_one_hot atom formal_charge in
        chiral_tag ← dict_getitem ATOM_FEATURES "chiral_tag";
        let features :=
          features ++ get_atom_chiral_tag_one_hot atom chiral_tag true in
        num_Hs ← dict_getitem ATOM_FEATURES "num_Hs";
        let features :=
          features ++ get_atom_total_num_Hs_one_hot atom num_Hs in
        let features :=
          features
          ++ get_atom_hybridization_one_hot atom
               ATOM_FEATURES_HYBRIDIZATION true in
        let features :=
          features ++ get_atom_is_in_aromatic_one_hot atom in
        let features := py_int <$> features in
        let features := features ++ get_atom_mass atom in
        match functional_groups with
        | Some fg => Ok (features ++ fg)
        | None => Ok features
        end
  end.

Definition bond_features (bond : option RDKitBond) : list pynum :=
  match bond with
  | None => [PInt 1] ++ times (PInt 0) (BOND_FDIM - 1)
  | Some bond => [PInt 0] ++ b_Feats bond true
  end.

End encoders.
End Encoders.

(** * Reactant/product atom alignment *)
Module Reaction.
Section reaction.
Context {F : PyFloat} {R : RDKit}.

(** The first loop of [map_reac_to_prod]: one product atom. *)
Definition scan_prod_atom (mapnos_reac : gset Z)
    (acc : gmap Z nat * list nat) (atom : RDKitAtom)
    : result (gmap Z nat * list nat) :=
  let '(prod_map_to_id, only_prod_ids) := acc in
  let mapno := GetAtomMapNum atom in
  if decide (0 < mapno)%Z then
    let prod_map_to_id := <[mapno := GetIdx atom]> prod_map_to_id in
    if decide (mapno ∉ mapnos_reac)
    then Ok (prod_map_to_id, only_prod_ids ++ [GetIdx atom])
    else Ok (prod_map_to_id, only_prod_ids)
  else Ok (prod_map_to_id, only_prod_ids ++ [GetIdx atom]).

(** The second loop: one reactant atom. *)
Definition scan_reac_atom (prod_map_to_id : gmap Z nat)
    (acc : gmap nat nat * list nat) (atom : RDKitAtom)
    : result (gmap nat nat * list nat) :=
  let '(reac_id_to_prod_id, only_reac_ids) := acc in
  let mapno := GetAtomMapNum atom in
  if decide (0 < mapno)%Z then
    try_except_KeyError
      (p ← dict_getitem prod_map_to_id mapno;
       Ok (<[GetIdx atom := p]> reac_id_to_prod_id, only_reac_ids))
      (Ok (reac_id_to_prod_id, only_reac_ids ++ [GetIdx atom]))
  else Ok (reac_id_to_prod_id, only_reac_ids ++ [GetIdx atom]).

Definition map_reac_to_prod (mol_reac mol_prod : RDKitMol)
    : result (gmap nat nat * list nat * list nat) :=
  let only_prod_ids : list nat := [] in
  let prod_map_to_id : gmap Z nat := ∅ in
  let mapnos_reac : gset Z :=
    list_to_set (GetAtomMapNum <$> GetAtoms mol_reac) in
  '(prod_map_to_id, only_prod_ids) ←
    for_each (scan_prod_atom mapnos_reac) (GetAtoms mol_prod)
      (prod_map_to_id, only_prod_ids);
  let only_reac_ids : list nat := [] in
  let reac_id_to_prod_id : gmap nat nat := ∅ in
  '(reac_id_to_prod_id, only_reac_ids) ←
    for_each (scan_reac_atom prod_map_to_id) (GetAtoms mol_reac)
      (reac_id_to_prod_id, only_reac_ids);
  Ok (reac_id_to_prod_id, only_prod_ids, only_reac_ids).

End reaction.
End Reaction.

(** * The directed-bond indexer (class [_MapperDMPNN]) *)
Module Mapper.
Section mapper.
Context {F : PyFloat} {R : RDKit} {U : FeatureUtils}.

(** The attributes of a [_MapperDMPNN] object.  The rows of
    [atom_to_incoming_bonds] are separate Python lists (the constructor
    builds one per atom), so the table is a list of lists by value;
    [mapping] and the feature tables are numpy arrays. *)
Record MapperDMPNN : Type := {
  datapoint : RDKitMol;
  concat_fdim : nat;
  f_atoms_zero_padded : ndarray float;
  num_atoms : Z;
  num_bonds : nat;
  f_ini_atoms_bonds_zero_padded : ndarray float;
  atom_to_incoming_bonds : list (list nat);
  bond_to_ini_atom : list nat;
  b2revb : list nat;
  mapping : ndarray nat
}.

Definition set_num_bonds (self : MapperDMPNN) (v : nat) : MapperDMPNN :=
  {| datapoint := datapoint self;
     concat_fdim := concat_fdim self;
     f_atoms_zero_padded := f_atoms_zero_padded self;
     num_atoms := num_atoms self;
     num_bonds := v;
     f_ini_atoms_bonds_zero_padded := f_ini_atoms_bonds_zero_padded self;
     atom_to_incoming_bonds := atom_to_incoming_bonds self;
     bond_to_ini_atom := bond_to_ini_atom self;
     b2revb := b2revb self;
     mapping := mapping self |}.

Definition set_f_ini_atoms_bonds_zero_padded (self : MapperDMPNN)
    (v : ndarray float) : MapperDMPNN :=
  {| datapoint := datapoint self;
     concat_fdim := concat_fdim self;
     f_atoms_zero_padded := f_atoms_zero_padded self;
     num_atoms := num_atoms self;
     num_bonds := num_bonds self;
     f_ini_atoms_bonds_zero_padded := v;
     atom_to_incoming_bonds := atom_to_incoming_bonds self;
     bond_to_ini_atom := bond_to_ini_atom self;
     b2revb := b2revb self;
     mapping := mapping self |}.

Definition set_atom_to_incoming_bonds (self : MapperDMPNN)
    (v : list (list nat)) : MapperDMPNN :=
  {| datapoint := datapoint self;
     concat_fdim := concat_fdim self;
     f_atoms_zero_padded := f_atoms_zero_padded self;
     num_atoms := num_atoms self;
     num_bonds := num_bonds self;
     f_ini_atoms_bonds_zero_padded := f_ini_atoms_bonds_zero_padded self;
     atom_to_incoming_bonds := v;
     bond_to_ini_atom := bond_to_ini_atom self;
     b2revb := b2revb self;
     mapping := mapping self |}.

Definition set_bond_to_ini_atom (self : MapperDMPNN)
    (v : list nat) : MapperDMPNN :=
  {| datapoint := datapoint self;
     concat_fdim := concat_fdim self;
     f_atoms_zero_padded := f_atoms_zero_padded self;
     num_atoms := num_atoms self;
     num_bonds := num_bonds self;
     f_ini_atoms_bonds_zero_padded := f_ini_atoms_bonds_zero_padded self;
     atom_to_incoming_bonds := atom_to_incoming_bonds self;
     bond_to_ini_atom := v;
     b2revb := b2revb self;
     mapping := mapping self |}.

Definition set_b2revb (self : MapperDMPNN) (v : list nat) : MapperDMPNN :=
  {| datapoint := datapoint self;
     concat_fdim := concat_fdim self;
     f_atoms_zero_padded := f_atoms_zero_padded self;
     num_atoms := num_atoms self;
     num_bonds := num_bonds self;
     f_ini_atoms_bonds_zero_padded := f_ini_atoms_bonds_zero_padded self;
     atom_to_incoming_bonds := atom_to_incoming_bonds self;
     bond_to_ini_atom := bond_to_ini_atom self;
     b2revb := v;
     mapping := mapping self |}.

Definition set_mapping (self : MapperDMPNN) (v : ndarray nat)
    : MapperDMPNN :=
  {| datapoint := datapoint self;
     concat_fdim := concat_fdim self;
     f_atoms_zero_padded := f_atoms_zero_padded self;
     num_atoms := num_atoms self;
     num_bonds := num_bonds self;
     f_ini_atoms_bonds_zero_padded := f_ini_atoms_bonds_zero_padded self;
     atom_to_incoming_bonds := atom_to_incoming_bonds self;
     bond_to_ini_atom := bond_to_ini_atom self;
     b2revb := b2revb self;
     mapping := v |}.

(** [np.asarray(features, dtype=float)] on one entry. *)
Definition to_float (x : pynum) : float :=
  match x with
  | PInt z => float_of_int z
  | PFloat f => f
  end.

(** [self.num_atoms + 1], the exclusive upper end of the atom ranges. *)
Definition atoms_end (self : MapperDMPNN) : nat :=
  Z.to_nat (num_atoms self + 1).

(** [l[a].append(b)] on a list of lists. *)
Definition append_at (l : list (list nat)) (a b : nat)
    : result (list (list nat)) :=
  row ← getitem l a;
  Ok (<[a := row ++ [b]]> l).

Definition _extend_concat_feature (self : MapperDMPNN) (a1 : nat)
    (bond_feature : list float) : result MapperDMPNN :=
  f_atom ← nd_row (f_atoms_zero_padded self) a1;
  concat_input ←
    nd_reshape_row (f_atom ++ bond_feature) (concat_fdim self);
  table ←
    nd_concatenate0 (f_ini_atoms_bonds_zero_padded self) concat_input;
  Ok (set_f_ini_atoms_bonds_zero_padded self table).

Definition _update_concat_vector (self : MapperDMPNN) (a1 a2 : nat)
    : result (nat * MapperDMPNN) :=
  match GetBondBetweenAtoms (datapoint self) (a1 - 1) (a2 - 1) with
  | None => Ok (0, self)
  | Some bond =>
      let f_bond := to_float <$> Encoders.bond_features (Some bond) in
      self ← _extend_concat_feature self a1 f_bond;
      self ← _extend_concat_feature self a2 f_bond;
      Ok (1, self)
  end.

Definition _update_secondary_mappings (self : MapperDMPNN) (a1 a2 : nat)
    : result MapperDMPNN :=
  let b1 := num_bonds self + 1 in
  let b2 := num_bonds self + 2 in
  table ← append_at (atom_to_incoming_bonds self) a2 b1;
  table ← append_at table a1 b2;
  let self := set_atom_to_incoming_bonds self table in
  let self :=
    set_bond_to_ini_atom self ((bond_to_ini_atom self ++ [a1]) ++ [a2]) in
  let self := set_b2revb self ((b2revb self ++ [b2]) ++ [b1]) in
  Ok self.

Definition _modify_based_on_max_bonds (self : MapperDMPNN)
    : result MapperDMPNN :=
  longest ← max_of (length <$> atom_to_incoming_bonds self);
  let max_num_bonds := Nat.max 1 longest in
  table ←
    list_comp
      (λ a,
         row ← getitem (atom_to_incoming_bonds self) a;
         row' ← getitem (atom_to_incoming_bonds self) a;
         Ok (row ++ times 0 (max_num_bonds - length row')))
      (range 0 (atoms_end self));
  Ok (set_atom_to_incoming_bonds self table).

(** The body of the loop of [_replace_rev_bonds]:
    [self.mapping[count][np.where(self.mapping[count] == i)] = 0]. *)
Definition replace_rev_bond (self : MapperDMPNN) (count i : nat)
    : result MapperDMPNN :=
  row ← nd_row (mapping self) count;
  m ← nd_row_assign (mapping self) count (np_where_eq row i) 0;
  Ok (set_mapping self m).

Definition _replace_rev_bonds (self : MapperDMPNN)
    : result MapperDMPNN :=
  for_each (λ self '(count, i), replace_rev_bond self count i)
    (enumerate (b2revb self)) self.

(** The body of the two nested loops of [_generate_mapping]. *)
Definition discover (self : MapperDMPNN) (a1 a2 : nat)
    : result MapperDMPNN :=
  '(found, self) ← _update_concat_vector self a1 a2;
  if decide (found = 0) then Ok self
  else
    self ← _update_secondary_mappings self a1 a2;
    Ok (set_num_bonds self (num_bonds self + 2)).

(** The discovery loops alone. *)
Definition discovery_loops (self : MapperDMPNN) : result MapperDMPNN :=
  for_each
    (λ self a1,
       for_each (λ self a2, discover self a1 a2)
         (range (a1 + 1) (atoms_end self)) self)
    (range 1 (atoms_end self)) self.

Definition _generate_mapping (self : MapperDMPNN) : result MapperDMPNN :=
  self ← discovery_loops self;
  self ← _modify_based_on_max_bonds self;
  table ← nd_asarray (atom_to_incoming_bonds self);
  m ← nd_take table (bond_to_ini_atom self);
  let self := set_mapping self m in
  _replace_rev_bonds self.

(** The attributes set by [__init__] before it calls
    [_generate_mapping]. *)
Definition init_attributes (datapoint : RDKitMol) (concat_fdim : nat)
    (f_atoms_zero_padded : ndarray float) : result MapperDMPNN :=
  let num_atoms := (Z.of_nat (shape0 f_atoms_zero_padded) - 1)%Z in
  f_ini ← nd_asarray [float_of_int <$> times 0%Z concat_fdim];
  Ok {| datapoint := datapoint;
        concat_fdim := concat_fdim;
        f_atoms_zero_padded := f_atoms_zero_padded;
        num_atoms := num_atoms;
        num_bonds := 0;
        f_ini_atoms_bonds_zero_padded := f_ini;
        atom_to_incoming_bonds :=
          (λ _, []) <$> range 0 (Z.to_nat (num_atoms + 1));
        bond_to_ini_atom := [0];
        b2revb := [0];
        mapping := nd_empty |}.

(** [_MapperDMPNN(datapoint, concat_fdim, f_atoms_zero_padded)] *)
Definition __init__ (datapoint : RDKitMol) (concat_fdim : nat)
    (f_atoms_zero_padded : ndarray float) : result MapperDMPNN :=
  self ← init_attributes datapoint concat_fdim f_atoms_zero_padded;
  _generate_mapping self.

End mapper.
End Mapper.

(** * Notions used to state the properties *)

Module ReactionSpec.
Section spec.
Context {F : PyFloat} {R : RDKit}.

(** The product table [prod_map_to_id] once the first loop is over. *)
Definition prod_table (acc : gmap Z nat) (atoms : list RDKitAtom)
    : gmap Z nat :=
  foldl
    (λ m a,
       if decide (0 < GetAtomMapNum a)%Z
       then <[GetAtomMapNum a := GetIdx a]> m else m)
    acc atoms.

(** The dictionary [reac_id_to_prod_id] once the second loop is over. *)
Definition reac_dict (table : gmap Z nat) (acc : gmap nat nat)
    (atoms : list RDKitAtom) : gmap nat nat :=
  foldl
    (λ d a,
       if decide (0 < GetAtomMapNum a)%Z then
         match table !! GetAtomMapNum a with
         | Some p => <[GetIdx a := p]> d
         | None => d
         end
       else d)
    acc atoms.

End spec.
End ReactionSpec.

Module MapperSpec.
Section spec.
Context {F : PyFloat} {R : RDKit} {U : FeatureUtils}.

(** The atom pairs in the order the discovery loops visit them:
    [a1] from 1 up, and for each [a1] the [a2] from [a1 + 1] up, both
    below [stop]. *)
Definition atom_pairs (stop : nat) : list (nat * nat) :=
  a1 ← range 1 stop; a2 ← range (a1 + 1) stop; [(a1, a2)].

(** The toolkit reports a bond between the two atoms of the pair. *)
Definition bonded (mol : RDKitMol) (p : nat * nat) : Prop :=
  is_Some (GetBondBetweenAtoms mol (p.1 - 1) (p.2 - 1)).

Global Instance bonded_dec mol p : Decision (bonded mol p).
Proof. unfold bonded. apply _. Defined.

(** The undirected bonds of a molecule of [stop - 1] atoms, in visiting
    order. *)
Definition real_bonds (mol : RDKitMol) (stop : nat) : list (nat * nat) :=
  filter (bonded mol) (atom_pairs stop).

(** Lexicographic order on pairs. *)
Definition lex_lt (p q : nat * nat) : Prop :=
  p.1 < q.1 ∨ (p.1 = q.1 ∧ p.2 < q.2).

(** The directed bonds that point into atom [a], when the undirected
    bond number [j] (from 0) of [ps] got the ids [2j+1] and [2j+2]. *)
Definition incoming (ps : list (nat * nat)) (a : nat) : list nat :=
  mjoin
    (imap
       (λ j p,
          (if decide (p.2 = a) then [2 * j + 1] else [])
          ++ (if decide (p.1 = a) then [2 * j + 2] else []))
       ps).

(** The number of undirected bonds of [ps] that atom [a] takes part in:
    its in-degree. *)
Definition in_degree (ps : list (nat * nat)) (a : nat) : nat :=
  length (filter (λ p, p.1 = a ∨ p.2 = a) ps).

(** The source atoms of the directed bonds, from id 1. *)
Definition ini_atoms (ps : list (nat * nat)) : list nat :=
  p ← ps; [p.1; p.2].

(** The other direction of a directed bond. *)
Definition rev_id (b : nat) : nat :=
  if Nat.odd b then b + 1 else b - 1.

(** Zeroing the entries of a row equal to [rev]. *)
Definition scrub (rev : nat) (row : list nat) : list nat :=
  (λ x, if decide (x = rev) then 0 else x) <$> row.

(** Right-padding a row with zeros up to [width]. *)
Definition pad (width : nat) (row : list nat) : list nat :=
  row ++ replicate (width - length row) 0.

(** The width of the padded tables. *)
Definition max_width (ps : list (nat * nat)) (stop : nat) : nat :=
  Nat.max 1 (max_list (in_degree ps <$> seq 0 stop)).

(** An array holds exactly [shape0 * shape1] cells. *)
Definition nd_wf {A : Type} (a : ndarray A) : Prop :=
  length (data a) = shape0 a * shape1 a.

(** The inputs for which no reshape of the constructor can fail: for
    every bond the loops find, the atom rows and the bond features add
    up to [concat_fdim]. *)
Definition widths_agree (mol : RDKitMol) (concat_fdim : nat)
    (f_atoms : ndarray float) : Prop :=
  ∀ p bond a row,
    p ∈ atom_pairs (shape0 f_atoms) →
    GetBondBetweenAtoms mol (p.1 - 1) (p.2 - 1) = Some bond →
    nd_row f_atoms a = Ok row →
    length row + length (Encoders.bond_features (Some bond))
    = concat_fdim.

(** The attributes of the object once the undirected bonds [ps] have
    been discovered, in that order. *)
Record discovered (mol : RDKitMol) (concat_fdim : nat)
    (f_atoms : ndarray float) (ps : list (nat * nat))
    (self : Mapper.MapperDMPNN) : Prop := Discovered {
  disc_datapoint : Mapper.datapoint self = mol;
  disc_concat_fdim : Mapper.concat_fdim self = concat_fdim;
  disc_f_atoms : Mapper.f_atoms_zero_padded self = f_atoms;
  disc_num_atoms :
    Mapper.num_atoms self = (Z.of_nat (shape0 f_atoms) - 1)%Z;
  disc_num_bonds : Mapper.num_bonds self = 2 * length ps;
  disc_shape0 :
    shape0 (Mapper.f_ini_atoms_bonds_zero_padded self)
    = 2 * length ps + 1;
  disc_shape1 :
    shape1 (Mapper.f_ini_atoms_bonds_zero_padded self) = concat_fdim;
  disc_data_length :
    length (data (Mapper.f_ini_atoms_bonds_zero_padded self))
    = (2 * length ps + 1) * concat_fdim;
  disc_padding_row :
    take concat_fdim (data (Mapper.f_ini_atoms_bonds_zero_padded self))
    = replicate concat_fdim (float_of_int 0);
  disc_incoming :
    Mapper.atom_to_incoming_bonds self
    = incoming ps <$> seq 0 (shape0 f_atoms);
  disc_ini : Mapper.bond_to_ini_atom self = 0 :: ini_atoms ps;
  disc_rev :
    Mapper.b2revb self = 0 :: (rev_id <$> seq 1 (2 * length ps));
  disc_mapping : Mapper.mapping self = nd_empty
}.

(** The attributes of the object the constructor returns: those of
    the discovery, with the table of incoming bonds padded and the
    mapping built and scrubbed. *)
Record constructed (mol : RDKitMol) (concat_fdim : nat)
    (f_atoms : ndarray float) (self : Mapper.MapperDMPNN)
    : Prop := Constructed {
  cons_atoms : 1 ≤ shape0 f_atoms;
  cons_discovered :
    discovered mol concat_fdim f_atoms
      (real_bonds mol (shape0 f_atoms))
      (Mapper.set_mapping
         (Mapper.set_atom_to_incoming_bonds self
            (incoming (real_bonds mol (shape0 f_atoms))
               <$> seq 0 (shape0 f_atoms)))
         nd_empty);
  cons_table :
    Mapper.atom_to_incoming_bonds self
    = (λ a,
         pad (max_width (real_bonds mol (shape0 f_atoms))
                (shape0 f_atoms))
           (incoming (real_bonds mol (shape0 f_atoms)) a))
        <$> seq 0 (shape0 f_atoms);
  cons_shape0 :
    shape0 (Mapper.mapping self)
    = 2 * length (real_bonds mol (shape0 f_atoms)) + 1;
  cons_shape1 :
    shape1 (Mapper.mapping self)
    = max_width (real_bonds mol (shape0 f_atoms)) (shape0 f_atoms);
  cons_data_length :
    length (data (Mapper.mapping self))
    = (2 * length (real_bonds mol (shape0 f_atoms)) + 1)
      * max_width (real_bonds mol (shape0 f_atoms)) (shape0 f_atoms);
  cons_rows :
    ∀ b a rev,
      Mapper.bond_to_ini_atom self !! b = Some a →
      Mapper.b2revb self !! b = Some rev →
      nd_row (Mapper.mapping self) b
      = Ok (scrub rev
              (pad (max_width (real_bonds mol (shape0 f_atoms))
                      (shape0 f_atoms))
                 (incoming (real_bonds mol (shape0 f_atoms)) a)))
}.

(** The state of the object when the discovery loops are over. *)
Definition after_discovery (datapoint : RDKitMol) (concat_fdim : nat)
    (f_atoms_zero_padded : ndarray float) : result Mapper.MapperDMPNN :=
  self ← Mapper.init_attributes datapoint concat_fdim
            f_atoms_zero_padded;
  Mapper.discovery_loops self.

End spec.
End MapperSpec.

(** * A small toolkit instance and test molecules *)
Module Examples.

(** Integers stand in for floats. *)
Definition toy_float : PyFloat :=
  {| float := Z;
     fmul := Z.mul;
     float_0_01 := 0%Z;
     float_trunc := id;
     float_of_int := id |}.

Record toy_atom : Type := ToyAtom {
  toy_idx : nat;
  toy_atomic_num : Z;
  toy_map_num : Z
}.

(** A molecule: its atoms, and its bonds as pairs of atom indices. *)
Record toy_mol : Type := ToyMol {
  toy_atoms : list toy_atom;
  toy_bonds : list (nat * nat)
}.

Definition toy_bond_between (m : toy_mol) (i j : nat)
    : option (nat * nat) :=
  if decide ((i, j) ∈ toy_bonds m) then Some (i, j)
  else if decide ((j, i) ∈ toy_bonds m) then Some (j, i)
  else None.

Definition toy_rdkit : @RDKit toy_float :=
  {| RDKitAtom := toy_atom;
     RDKitBond := nat * nat;
     RDKitMol := toy_mol;
     GetAtomicNum := toy_atomic_num;
     GetChiralTag := λ _, 0%Z;
     GetMass := λ a, (2 * toy_atomic_num a)%Z : @float toy_float;
     GetAtomMapNum := toy_map_num;
     GetIdx := toy_idx;
     GetAtoms := toy_atoms;
     GetBondBetweenAtoms := toy_bond_between |}.

Definition toy_utils : @FeatureUtils toy_float toy_rdkit :=
  {| get_atom_total_degree_one_hot := λ _ s, times (PInt 0) (length s + 1);
     get_atom_formal_charge_one_hot := λ _ s, times (PInt 0) (length s + 1);
     get_atom_total_num_Hs_one_hot := λ _ s, times (PInt 0) (length s + 1);
     get_atom_hybridization_one_hot :=
       λ _ s _, times (PInt 0) (length s + 1);
     get_atom_is_in_aromatic_one_hot := λ _, [PInt 0];
     b_Feats := λ _ _, times (PInt 0) 13 |}.

Definition carbon (i : nat) (mapno : Z) : toy_atom := ToyAtom i 6 mapno.

(** C-C *)
Definition ethane : toy_mol :=
  ToyMol [carbon 0 0; carbon 1 0] [(0, 1)].

(** C-C-C *)
Definition propane : toy_mol :=
  ToyMol [carbon 0 0; carbon 1 0; carbon 2 0] [(0, 1); (1, 2)].

(** A reactant and a product whose atoms carry map numbers: atom 0 is
    mapped on both sides, atom 1 of the reactant carries a number the
    product lacks, atom 2 carries none. *)
Definition reactant : toy_mol :=
  ToyMol [carbon 0 1; carbon 1 2; carbon 2 0] [(0, 1); (1, 2)].
Definition product : toy_mol :=
  ToyMol [carbon 0 3; carbon 1 1; carbon 2 0] [(0, 1); (1, 2)].

(** A zero-padded atom feature table with [n] atoms, each of width 2. *)
Definition toy_f_atoms (n : nat) : ndarray Z :=
  NdArray (n + 1) 2 (times 0%Z 2 ++ times 1%Z (n * 2)).

(** Three isolated atoms. *)
Definition three_atoms : toy_mol :=
  ToyMol [carbon 0 0; carbon 1 0; carbon 2 0] [].

End Examples.

(** * Notions used to state the further properties of the indexer *)
Module MapperTables.
Section spec.
Context {F : PyFloat} {R : RDKit} {U : FeatureUtils}.

(** Row [a] of the table of atom features, as its buffer holds it. *)
Definition atom_row (f_atoms : ndarray float) (a : nat) : list float :=
  take (shape1 f_atoms) (drop (a * shape1 f_atoms) (data f_atoms)).

(** The two rows that the discovery of the bond [p] appends to the
    concatenated table. *)
Definition rows_of_bond (mol : RDKitMol) (f_atoms : ndarray float)
    (p : nat * nat) : list (list float) :=
  match GetBondBetweenAtoms mol (p.1 - 1) (p.2 - 1) with
  | Some bond =>
      let f_bond :=
        Mapper.to_float <$> Encoders.bond_features (Some bond) in
      [atom_row f_atoms p.1 ++ f_bond; atom_row f_atoms p.2 ++ f_bond]
  | None => []
  end.

(** The rows of the concatenated table once the bonds [ps] have been
    discovered: the padding row, then two rows for each bond. *)
Definition concat_rows (mol : RDKitMol) (concat_fdim : nat)
    (f_atoms : ndarray float) (ps : list (nat * nat)) : list (list float) :=
  replicate concat_fdim (float_of_int 0)
  :: (ps ≫= rows_of_bond mol f_atoms).

(** [self'] holds what [self] holds, with entries appended only: how
    the object after a discovery step relates to the object before. *)
Record extends (self self' : Mapper.MapperDMPNN) : Prop := Extends {
  ext_datapoint : Mapper.datapoint self' = Mapper.datapoint self;
  ext_concat_fdim : Mapper.concat_fdim self' = Mapper.concat_fdim self;
  ext_f_atoms :
    Mapper.f_atoms_zero_padded self' = Mapper.f_atoms_zero_padded self;
  ext_num_atoms : Mapper.num_atoms self' = Mapper.num_atoms self;
  ext_mapping : Mapper.mapping self' = Mapper.mapping self;
  ext_num_bonds : Mapper.num_bonds self ≤ Mapper.num_bonds self';
  ext_f_ini :
    data (Mapper.f_ini_atoms_bonds_zero_padded self)
    `prefix_of` data (Mapper.f_ini_atoms_bonds_zero_padded self');
  ext_ini :
    Mapper.bond_to_ini_atom self `prefix_of` Mapper.bond_to_ini_atom self';
  ext_rev : Mapper.b2revb self `prefix_of` Mapper.b2revb self';
  ext_table :
    Forall2 prefix (Mapper.atom_to_incoming_bonds self)
      (Mapper.atom_to_incoming_bonds self')
}.

End spec.
End MapperTables.

(** * More test molecules *)
Module MoreExamples.
Import Examples.

(** A product in which two atoms carry the map number 1. *)
Definition product_twice : toy_mol :=
  ToyMol [carbon 0 1; carbon 1 1; carbon 2 0] [(0, 1); (1, 2)].

End MoreExamples.

(** * Properties *)

(** ** The error monad and the loops *)
Module PyFacts.

Lemma bind_Ok {A B : Type} (a : A) (f : A → result B) :
  (Ok a ≫= f) = f a.
Proof. reflexivity. Qed.

Lemma bind_Raise {A B : Type} (e : exn) (f : A → result B) :
  (Raise e ≫= f) = Raise e.
Proof. reflexivity. Qed.

Lemma bind_Ok_inv {A B : Type} (m : result A) (f : A → result B) (b : B) :
  (m ≫= f) = Ok b → ∃ a, m = Ok a ∧ f a = Ok b.
Proof. destruct m as [a|e]; [eauto | discriminate]. Qed.

Lemma for_each_nil {S A : Type} (body : S → A → result S) (s : S) :
  for_each body [] s = Ok s.
Proof. reflexivity. Qed.

Lemma for_each_cons {S A : Type} (body : S → A → result S)
    (x : A) (xs : list A) (s : S) :
  for_each body (x :: xs) s = body s x ≫= for_each body xs.
Proof. reflexivity. Qed.

Lemma for_each_app {S A : Type} (body : S → A → result S)
    (xs ys : list A) (s : S) :
  for_each body (xs ++ ys) s = for_each body xs s ≫= for_each body ys.
Proof.
  revert s. induction xs as [|x xs IH]; intros s; [done|].
  cbn [app]. rewrite !for_each_cons.
  destruct (body s x) as [s'|e]; [|done]. rewrite !bind_Ok. apply IH.
Qed.

Lemma for_each_preserves {S A : Type} (body : S → A → result S)
    (P : S → Prop) (xs : list A) (s s' : S) :
  (∀ s x s', P s → body s x = Ok s' → P s') →
  P s → for_each body xs s = Ok s' → P s'.
Proof.
  intros Hbody. revert s. induction xs as [|x xs IH]; intros s Hs Hrun.
  { by injection Hrun as <-. }
  rewrite for_each_cons in Hrun.
  apply bind_Ok_inv in Hrun as (s1 & Hs1 & Hrun). eauto.
Qed.

(** A loop inside a loop is a loop over the pairs, when the inner range
    does not change along the way. *)
Lemma for_each_nested {S A B : Type} (body : S → A → B → result S)
    (inner : S → A → list B) (inner0 : A → list B) (P : S → Prop)
    (xs : list A) (s : S) :
  (∀ s a, P s → inner s a = inner0 a) →
  (∀ s a b s', P s → body s a b = Ok s' → P s') →
  P s →
  for_each (λ s a, for_each (λ s b, body s a b) (inner s a) s) xs s
  = for_each (λ s p, body s p.1 p.2) (a ← xs; b ← inner0 a; [(a, b)]) s.
Proof.
  intros Hinner Hbody. revert s.
  induction xs as [|a xs IH]; intros s Hs; [done|].
  rewrite for_each_cons, bind_cons, for_each_app, Hinner by done.
  assert (Hrow : ∀ l s,
    for_each (λ s p, body s p.1 p.2) (b ← l; [(a, b)]) s
    = for_each (λ s b, body s a b) l s).
  { clear. induction l as [|b l IHl]; intros s; [done|].
    rewrite bind_cons. cbn [app]. rewrite !for_each_cons. cbn [fst snd].
    destruct (body s a b); [|done]. rewrite !bind_Ok. apply IHl. }
  rewrite Hrow.
  destruct (for_each (λ s b, body s a b) (inner0 a) s) as [s1|e] eqn:Hrun;
    [|done].
  rewrite !bind_Ok. apply IH.
  eapply (for_each_preserves (λ s b, body s a b)); [|exact Hs|exact Hrun].
  intros s0 b s0' Hs0 Hb. by eapply Hbody.
Qed.

Lemma list_comp_fmap {A B : Type} (f : A → result B) (g : A → B)
    (xs : list A) :
  (∀ x, x ∈ xs → f x = Ok (g x)) → list_comp f xs = Ok (g <$> xs).
Proof.
  induction xs as [|x xs IH]; intros Hf; [done|].
  cbn [list_comp]. rewrite Hf by apply list_elem_of_here. rewrite bind_Ok.
  rewrite IH; [done|]. intros y Hy. apply Hf. by apply list_elem_of_further.
Qed.

Lemma list_comp_Ok_inv {A B : Type} (f : A → result B)
    (xs : list A) (ys : list B) :
  list_comp f xs = Ok ys → Forall2 (λ x y, f x = Ok y) xs ys.
Proof.
  revert ys. induction xs as [|x xs IH]; intros ys Hrun.
  { injection Hrun as <-. constructor. }
  cbn [list_comp] in Hrun.
  apply bind_Ok_inv in Hrun as (y & Hy & Hrun).
  apply bind_Ok_inv in Hrun as (ys' & Hys' & Hrun).
  injection Hrun as <-. constructor; [done|]. by apply IH.
Qed.

Lemma foldl_max (x : nat) (l : list nat) :
  foldl Nat.max x l = Nat.max x (max_list l).
Proof.
  revert x. induction l as [|y l IH]; intros x; cbn [foldl max_list].
  - cbn. lia.
  - rewrite IH. unfold id. lia.
Qed.

Lemma max_of_Ok (l : list nat) (m : nat) :
  max_of l = Ok m ↔ l ≠ [] ∧ m = max_list l.
Proof.
  destruct l as [|x l]; cbn [max_of].
  - split; [discriminate | by intros []].
  - rewrite foldl_max. split.
    + intros [= <-]. done.
    + intros [_ ->]. done.
Qed.

(** *** Rows of an array *)

Lemma nd_row_Ok {A : Type} (a : ndarray A) (r : nat) (row : list A) :
  nd_row a r = Ok row
  ↔ r < shape0 a ∧ row = take (shape1 a) (drop (r * shape1 a) (data a)).
Proof.
  unfold nd_row. case_decide; split.
  - intros [= <-]. done.
  - intros [_ ->]. done.
  - discriminate.
  - intros [? _]. lia.
Qed.

Lemma nd_row_lookup {A : Type} (a : ndarray A) (r k : nat)
    (row : list A) :
  nd_row a r = Ok row → k < shape1 a →
  row !! k = data a !! (r * shape1 a + k).
Proof.
  intros [_ ->]%nd_row_Ok Hk. by rewrite lookup_take_lt, lookup_drop.
Qed.

Lemma nd_row_length {A : Type} (a : ndarray A) (r : nat) (row : list A) :
  length (data a) = shape0 a * shape1 a →
  nd_row a r = Ok row → length row = shape1 a.
Proof.
  intros Hwf [Hr ->]%nd_row_Ok. rewrite length_take, length_drop. nia.
Qed.

(** Two arrays of the same shape have the same row [r] when they agree
    on the cells of that row. *)
Lemma nd_row_ext {A : Type} (a a' : ndarray A) (r : nat) :
  shape0 a' = shape0 a → shape1 a' = shape1 a →
  (∀ k, k < shape1 a →
        data a' !! (r * shape1 a + k) = data a !! (r * shape1 a + k)) →
  nd_row a' r = nd_row a r.
Proof.
  intros H0 H1 Hcells. unfold nd_row. rewrite H0, H1.
  case_decide; [|done]. f_equal. apply list_eq. intros k.
  destruct (decide (k < shape1 a)).
  - rewrite !lookup_take_lt, !lookup_drop by done. by apply Hcells.
  - by rewrite !lookup_take_ge by lia.
Qed.

(** The row [r] of an array made of equally long rows is the row [r] of
    the list. *)
Lemma nd_row_join {A : Type} (rows : list (list A)) (k M r : nat)
    (row : list A) :
  Forall (λ l, length l = M) rows → length rows = k →
  rows !! r = Some row →
  nd_row (NdArray k M (mjoin rows)) r = Ok row.
Proof.
  intros Hlen Hk Hrow. apply nd_row_Ok. cbn [shape0 shape1 data].
  split. { rewrite <- Hk. by eapply lookup_lt_Some. }
  apply list_eq. intros i.
  assert (length row = M) as Hrowlen.
  { exact (Forall_lookup_1 _ _ _ _ Hlen Hrow). }
  destruct (decide (i < M)) as [Hi|Hi].
  - rewrite lookup_take_lt, lookup_drop by done.
    destruct (row !! i) as [x|] eqn:Hx.
    + symmetry. apply join_lookup_Some_same_length'; eauto.
    + apply lookup_ge_None in Hx. lia.
  - rewrite lookup_take_ge by lia. apply lookup_ge_None. lia.
Qed.

Lemma nd_reshape_row_Ok {A : Type} (v : list A) (n : nat)
    (a : ndarray A) :
  nd_reshape_row v n = Ok a ↔ length v = n ∧ a = NdArray 1 n v.
Proof.
  unfold nd_reshape_row. case_decide; split.
  - intros [= <-]. done.
  - intros [_ ->]. done.
  - discriminate.
  - intros [? _]. done.
Qed.

Lemma nd_concatenate0_Ok {A : Type} (a b c : ndarray A) :
  nd_concatenate0 a b = Ok c
  ↔ shape1 a = shape1 b
    ∧ c = NdArray (shape0 a + shape0 b) (shape1 a) (data a ++ data b).
Proof.
  unfold nd_concatenate0. case_decide; split.
  - intros [= <-]. done.
  - intros [_ ->]. done.
  - discriminate.
  - intros [? _]. done.
Qed.

Lemma getitem_Ok {A : Type} (l : list A) (i : nat) (x : A) :
  getitem l i = Ok x ↔ l !! i = Some x.
Proof.
  unfold getitem. destruct (l !! i); split; congruence.
Qed.

Lemma nd_asarray_uniform {A : Type} (rows : list (list A)) (M : nat) :
  rows ≠ [] → Forall (λ l, length l = M) rows →
  nd_asarray rows = Ok (NdArray (length rows) M (mjoin rows)).
Proof.
  intros Hne Hlen. destruct rows as [|r rows]; [done|].
  unfold nd_asarray.
  assert (length r = M) as Hr by by apply Forall_cons in Hlen as [? _].
  rewrite decide_True; [by rewrite Hr|].
  eapply Forall_impl; [exact Hlen|]. cbn. intros l ->. done.
Qed.

Lemma nd_take_join {A : Type} (rows : list (list A)) (k M : nat)
    (idxs : list nat) (g : nat → list A) :
  Forall (λ l, length l = M) rows → length rows = k →
  (∀ i, i ∈ idxs → rows !! i = Some (g i)) →
  nd_take (NdArray k M (mjoin rows)) idxs
  = Ok (NdArray (length idxs) M (mjoin (g <$> idxs))).
Proof.
  intros Hlen Hk Hg. unfold nd_take.
  rewrite (list_comp_fmap _ g); [done|].
  intros i Hi. apply nd_row_join; auto.
Qed.

(** *** Writing through a row view *)
Section assign.
Context {A : Type} (off width : nat) (v : A).
Implicit Types (d : list A) (idxs : list nat).

Lemma assign_cell_Ok d j d' :
  assign_cell off width v d j = Ok d'
  ↔ j < width ∧ d' = <[off + j := v]> d.
Proof.
  unfold assign_cell. case_decide; split.
  - intros [= <-]. done.
  - intros [_ ->]. done.
  - discriminate.
  - intros [? _]. lia.
Qed.

Lemma assign_cells_length idxs d d' :
  for_each (assign_cell off width v) idxs d = Ok d' →
  length d' = length d.
Proof.
  revert d. induction idxs as [|j idxs IH]; intros d Hrun.
  { by injection Hrun as <-. }
  rewrite for_each_cons in Hrun.
  apply bind_Ok_inv in Hrun as (d1 & [_ ->]%assign_cell_Ok & Hrun).
  apply IH in Hrun. by rewrite length_insert in Hrun.
Qed.

Lemma assign_cells_other idxs d d' p :
  for_each (assign_cell off width v) idxs d = Ok d' →
  (∀ j, j ∈ idxs → p ≠ off + j) → d' !! p = d !! p.
Proof.
  revert d. induction idxs as [|j idxs IH]; intros d Hrun Hp.
  { by injection Hrun as <-. }
  rewrite for_each_cons in Hrun.
  apply bind_Ok_inv in Hrun as (d1 & [_ ->]%assign_cell_Ok & Hrun).
  rewrite (IH _ Hrun).
  - apply list_lookup_insert_ne. intros Heq.
    by apply (Hp j); [apply list_elem_of_here|].
  - intros j' Hj'. by apply Hp, list_elem_of_further.
Qed.

Lemma assign_cells_hit idxs d d' j :
  for_each (assign_cell off width v) idxs d = Ok d' →
  j ∈ idxs → off + j < length d → d' !! (off + j) = Some v.
Proof.
  revert d. induction idxs as [|j0 idxs IH]; intros d Hrun Hj Hlt.
  { by apply elem_of_nil in Hj. }
  rewrite for_each_cons in Hrun.
  apply bind_Ok_inv in Hrun as (d1 & [_ ->]%assign_cell_Ok & Hrun).
  destruct (decide (j ∈ idxs)) as [Hin|Hnotin].
  - apply (IH _ Hrun Hin). by rewrite length_insert.
  - apply elem_of_cons in Hj as [->|Hj]; [|done].
    rewrite (assign_cells_other _ _ _ _ Hrun).
    + by apply list_lookup_insert_eq.
    + intros j' Hj' Heq. assert (j' = j0) as -> by lia. done.
Qed.

Lemma assign_cells_total idxs d :
  (∀ j, j ∈ idxs → j < width) →
  ∃ d', for_each (assign_cell off width v) idxs d = Ok d'.
Proof.
  revert d. induction idxs as [|j idxs IH]; intros d Hj; [by eexists|].
  rewrite for_each_cons.
  assert (assign_cell off width v d j = Ok (<[off + j := v]> d)) as ->.
  { apply assign_cell_Ok. split; [|done]. apply Hj, list_elem_of_here. }
  rewrite bind_Ok. apply IH. intros j' Hj'.
  by apply Hj, list_elem_of_further.
Qed.
End assign.

Lemma elem_of_np_where_eq `{EqDecision A} (v : list A) (i : A) (j : nat) :
  j ∈ np_where_eq v i ↔ v !! j = Some i.
Proof.
  unfold np_where_eq, enumerate. rewrite list_elem_of_bind. split.
  - intros ([j' x] & Hj & Hjx). cbn [fst snd] in Hj.
    apply list_elem_of_lookup in Hjx as [k Hk].
    rewrite list_lookup_imap in Hk.
    destruct (v !! k) as [y|] eqn:Hy; [|done]. injection Hk as <- <-.
    case_decide as Hx; [|by apply elem_of_nil in Hj].
    apply list_elem_of_singleton in Hj as ->. by rewrite Hy, Hx.
  - intros Hj. exists (j, i). cbn [fst snd]. split.
    + rewrite decide_True by done. apply list_elem_of_here.
    + apply list_elem_of_lookup. exists j.
      by rewrite list_lookup_imap, Hj.
Qed.

End PyFacts.
Import PyFacts.

(** ** The encoders *)
Module EncodersFacts.
Import Encoders.
Section facts.
Context {F : PyFloat} {R : RDKit} {U : FeatureUtils}.

Lemma ATOM_FDIM_value : ATOM_FDIM = 133.
Proof. vm_compute. reflexivity. Qed.

Lemma atomic_num_choices :
  ATOM_FEATURES !! "atomic_num" = Some (Z.of_nat <$> range 0 100).
Proof. vm_compute. reflexivity. Qed.

Lemma index_seq (lo k n : nat) :
  k < n → index (Z.of_nat (lo + k)) (Z.of_nat <$> seq lo n) = Some k.
Proof.
  revert lo k. induction n as [|n IH]; intros lo k Hk; [lia|].
  cbn [seq fmap list_fmap index]. destruct k as [|k].
  - rewrite Nat.add_0_r, decide_True; done.
  - rewrite decide_False by lia.
    replace (lo + S k) with (S lo + k) by lia.
    rewrite IH by lia. reflexivity.
Qed.

Lemma index_range (k n : nat) :
  k < n → index (Z.of_nat k) (Z.of_nat <$> range 0 n) = Some k.
Proof.
  intros Hk. unfold range. rewrite Nat.sub_0_r.
  apply (index_seq 0 k n Hk).
Qed.

(** C7.  On a null input both encoders return fixed vectors, whatever
    the other arguments and however often they are called:
    [atom_features(None)] is the all-zero vector of length [ATOM_FDIM]
    (133), [bond_features(None)] is [1] followed by 13 zeros, of length
    [BOND_FDIM] (14). *)
Theorem null_input_sentinels
    (functional_groups : option (list pynum)) (only_atom_num : bool) :
  atom_features None functional_groups only_atom_num
    = Ok (replicate ATOM_FDIM (PInt 0))
  ∧ length (replicate ATOM_FDIM (PInt 0)) = 133
  ∧ bond_features None = PInt 1 :: replicate 13 (PInt 0)
  ∧ length (bond_features None) = BOND_FDIM
  ∧ BOND_FDIM = 14.
Proof.
  split; [reflexivity|]. split.
  { rewrite length_replicate. apply ATOM_FDIM_value. }
  split; [reflexivity|]. split; reflexivity.
Qed.

(** C8.  For an atom of atomic number 6, [get_atomic_num_one_hot] over
    [list(range(100))] with the unknown bucket returns a vector of length
    101 with a 1 at index 5 and 0 everywhere else. *)
Theorem carbon_atomic_num_one_hot (atom : RDKitAtom) :
  GetAtomicNum atom = 6%Z →
  let v := get_atomic_num_one_hot atom (Z.of_nat <$> range 0 100) true in
  length v = 101
  ∧ v !! 5 = Some (PInt 1)
  ∧ (∀ k, k < 101 → k ≠ 5 → v !! k = Some (PInt 0))
  ∧ v = <[5 := PInt 1]> (replicate 101 (PInt 0)).
Proof.
  intros Hnum v.
  assert (Hv : v = <[5 := PInt 1]> (replicate 101 (PInt 0))).
  { subst v. unfold get_atomic_num_one_hot, one_hot_encode.
    rewrite Hnum. change (6 - 1)%Z with (Z.of_nat 5).
    rewrite index_range by lia. reflexivity. }
  rewrite Hv. split; [|split; [|split]].
  - rewrite length_insert, length_replicate. reflexivity.
  - reflexivity.
  - intros k Hk Hne. rewrite list_lookup_insert_ne by done.
    apply lookup_replicate_2. exact Hk.
  - reflexivity.
Qed.

End facts.

Lemma carbon_atomic_num_one_hot_witness :
  let v :=
    get_atomic_num_one_hot (R := Examples.toy_rdkit) (Examples.carbon 0 0)
      (Z.of_nat <$> range 0 100) true in
  length v = 101
  ∧ v !! 5 = Some (PInt 1)
  ∧ (∀ k, k < 101 → k ≠ 5 → v !! k = Some (PInt 0))
  ∧ v = <[5 := PInt 1]> (replicate 101 (PInt 0)).
Proof.
  apply (carbon_atomic_num_one_hot (R := Examples.toy_rdkit)
           (Examples.carbon 0 0)).
  reflexivity.
Defined.

End EncodersFacts.

(** ** Reactant/product alignment *)
Module ReactionFacts.
Import Reaction ReactionSpec.
Section facts.
Context {F : PyFloat} {R : RDKit}.
Implicit Types (a b : RDKitAtom) (atoms : list RDKitAtom).
Implicit Types (table : gmap Z nat) (d : gmap nat nat) (l : list nat).

(** The first loop never raises; it files a product atom under
    [only_prod_ids] unless its map number is positive and carried by a
    reactant atom. *)
Lemma scan_prod_atom_eq (mapnos_reac : gset Z) table l b :
  scan_prod_atom mapnos_reac (table, l) b
  = Ok (if decide (0 < GetAtomMapNum b)%Z
        then <[GetAtomMapNum b := GetIdx b]> table else table,
        if decide (¬ ((0 < GetAtomMapNum b)%Z
                      ∧ GetAtomMapNum b ∈ mapnos_reac))
        then l ++ [GetIdx b] else l).
Proof.
  unfold scan_prod_atom.
  destruct (decide (0 < GetAtomMapNum b)%Z) as [Hpos|Hpos].
  - destruct (decide (GetAtomMapNum b ∉ mapnos_reac)) as [Hin|Hin].
    + by rewrite decide_True by tauto.
    + apply dec_stable in Hin. by rewrite decide_False by tauto.
  - by rewrite decide_True by tauto.
Qed.

Lemma scan_reac_atom_eq table d l a :
  scan_reac_atom table (d, l) a
  = Ok (if decide (0 < GetAtomMapNum a)%Z then
          match table !! GetAtomMapNum a with
          | Some p => <[GetIdx a := p]> d
          | None => d
          end
        else d,
        if decide (¬ ((0 < GetAtomMapNum a)%Z
                      ∧ is_Some (table !! GetAtomMapNum a)))
        then l ++ [GetIdx a] else l).
Proof.
  unfold scan_reac_atom, dict_getitem.
  destruct (decide (0 < GetAtomMapNum a)%Z) as [Hpos|Hpos].
  - destruct (table !! GetAtomMapNum a) as [p|] eqn:Hp; cbn.
    + by rewrite decide_False by (intros []; eauto).
    + by rewrite decide_True by (intros [_ [? ?]]; congruence).
  - by rewrite decide_True by tauto.
Qed.

(** The first loop never raises; it files a product atom under
    [only_prod_ids] unless its map number is positive and carried by a
    reactant atom. *)
Lemma scan_prod_loop (mapnos_reac : gset Z) atoms table l :
  for_each (scan_prod_atom mapnos_reac) atoms (table, l)
  = Ok (prod_table table atoms,
        l ++ (GetIdx <$>
                filter
                  (λ b, ¬ ((0 < GetAtomMapNum b)%Z
                           ∧ GetAtomMapNum b ∈ mapnos_reac))
                  atoms)).
Proof.
  revert table l. induction atoms as [|b atoms IH]; intros table l.
  { cbn. by rewrite app_nil_r. }
  rewrite for_each_cons, scan_prod_atom_eq, bind_Ok, IH.
  cbn [prod_table foldl]. rewrite filter_cons.
  destruct (decide (¬ _)); [|done]. by rewrite fmap_cons, <- app_assoc.
Qed.

(** The second loop never raises either: the [KeyError] of a missing
    map number is caught and files the atom under [only_reac_ids]. *)
Lemma scan_reac_loop table atoms d l :
  for_each (scan_reac_atom table) atoms (d, l)
  = Ok (reac_dict table d atoms,
        l ++ (GetIdx <$>
                filter
                  (λ a, ¬ ((0 < GetAtomMapNum a)%Z
                           ∧ is_Some (table !! GetAtomMapNum a)))
                  atoms)).
Proof.
  revert d l. induction atoms as [|a atoms IH]; intros d l.
  { cbn. by rewrite app_nil_r. }
  rewrite for_each_cons, scan_reac_atom_eq, bind_Ok, IH.
  cbn [reac_dict foldl]. rewrite filter_cons.
  destruct (decide (¬ _)); [|done]. by rewrite fmap_cons, <- app_assoc.
Qed.

(** What the product table holds. *)
Lemma prod_table_lookup_Some atoms table m p :
  prod_table table atoms !! m = Some p →
  table !! m = Some p
  ∨ ((0 < m)%Z ∧ ∃ b, b ∈ atoms ∧ GetAtomMapNum b = m ∧ GetIdx b = p).
Proof.
  revert table. induction atoms as [|b atoms IH]; intros table Hm.
  { by left. }
  cbn [prod_table foldl] in Hm. apply IH in Hm as [Hm|Hm].
  - destruct (decide (0 < GetAtomMapNum b)%Z) as [Hpos|Hpos].
    + destruct (decide (GetAtomMapNum b = m)) as [<-|Hne].
      * rewrite lookup_insert_eq in Hm. injection Hm as <-.
        right. split; [done|]. exists b. by rewrite elem_of_cons; auto.
      * rewrite lookup_insert_ne in Hm by done. by left.
    + by left.
  - right. destruct Hm as (Hpos & b' & Hb' & ? & ?).
    split; [done|]. exists b'. rewrite elem_of_cons. auto.
Qed.

Lemma prod_table_is_Some_acc atoms table m :
  is_Some (table !! m) → is_Some (prod_table table atoms !! m).
Proof.
  revert table. induction atoms as [|b atoms IH]; intros table Hm.
  { done. }
  cbn [prod_table foldl]. apply IH.
  destruct (decide (0 < GetAtomMapNum b)%Z); [|done].
  destruct (decide (GetAtomMapNum b = m)) as [->|Hne].
  - rewrite lookup_insert_eq. eauto.
  - by rewrite lookup_insert_ne.
Qed.

Lemma prod_table_is_Some atoms table b :
  b ∈ atoms → (0 < GetAtomMapNum b)%Z →
  is_Some (prod_table table atoms !! GetAtomMapNum b).
Proof.
  revert table. induction atoms as [|b' atoms IH]; intros table Hb Hpos.
  { by apply elem_of_nil in Hb. }
  cbn [prod_table foldl]. apply elem_of_cons in Hb as [<-|Hb].
  - apply prod_table_is_Some_acc.
    rewrite decide_True by done. rewrite lookup_insert_eq. eauto.
  - by apply IH.
Qed.

(** The keys of the product table are the positive map numbers of the
    product atoms. *)
Lemma prod_table_keys atoms m :
  is_Some (prod_table ∅ atoms !! m)
  ↔ (0 < m)%Z ∧ m ∈ GetAtomMapNum <$> atoms.
Proof.
  split.
  - intros [p Hp]. apply prod_table_lookup_Some in Hp as [Hp|Hp].
    + by rewrite lookup_empty in Hp.
    + destruct Hp as (Hpos & b & Hb & Hm & _). split; [done|].
      apply list_elem_of_fmap. eauto.
  - intros [Hpos Hm]. apply list_elem_of_fmap in Hm as (b & -> & Hb).
    by apply prod_table_is_Some.
Qed.

Lemma reac_dict_cons table d a atoms :
  reac_dict table d (a :: atoms)
  = reac_dict table
      (if decide (0 < GetAtomMapNum a)%Z then
         match table !! GetAtomMapNum a with
         | Some p => <[GetIdx a := p]> d
         | None => d
         end
       else d)
      atoms.
Proof. reflexivity. Qed.

(** What the returned dictionary holds. *)
Lemma reac_dict_other table atoms d i :
  i ∉ GetIdx <$> atoms → reac_dict table d atoms !! i = d !! i.
Proof.
  revert d. induction atoms as [|a atoms IH]; intros d Hi; [done|].
  rewrite fmap_cons, not_elem_of_cons in Hi. destruct Hi as [Hne Hi].
  rewrite reac_dict_cons, IH by done.
  destruct (decide (0 < GetAtomMapNum a)%Z); [|done].
  destruct (table !! GetAtomMapNum a); [|done].
  by rewrite lookup_insert_ne.
Qed.

Lemma reac_dict_lookup table atoms d a p :
  NoDup (GetIdx <$> atoms) → a ∈ atoms →
  (0 < GetAtomMapNum a)%Z → table !! GetAtomMapNum a = Some p →
  reac_dict table d atoms !! GetIdx a = Some p.
Proof.
  revert d. induction atoms as [|a' atoms IH]; intros d Hnd Ha Hpos Hp.
  { by apply elem_of_nil in Ha. }
  rewrite fmap_cons in Hnd. apply NoDup_cons in Hnd as [Hfresh Hnd].
  rewrite reac_dict_cons. apply elem_of_cons in Ha as [<-|Ha].
  - rewrite reac_dict_other by done.
    rewrite decide_True by done. rewrite Hp. apply lookup_insert_eq.
  - by apply IH.
Qed.

Lemma reac_dict_lookup_Some table atoms d i p :
  reac_dict table d atoms !! i = Some p →
  d !! i = Some p
  ∨ ∃ a, a ∈ atoms ∧ GetIdx a = i ∧ (0 < GetAtomMapNum a)%Z
         ∧ table !! GetAtomMapNum a = Some p.
Proof.
  revert d. induction atoms as [|a atoms IH]; intros d Hi.
  { by left. }
  rewrite reac_dict_cons in Hi. apply IH in Hi as [Hi|Hi].
  - destruct (decide (0 < GetAtomMapNum a)%Z) as [Hpos|Hpos];
      [|by left].
    destruct (table !! GetAtomMapNum a) as [q|] eqn:Hq; [|by left].
    destruct (decide (GetIdx a = i)) as [<-|Hne].
    + rewrite lookup_insert_eq in Hi. injection Hi as <-.
      right. exists a. rewrite elem_of_cons. auto.
    + rewrite lookup_insert_ne in Hi by done. by left.
  - right. destruct Hi as (a' & Ha' & ?). exists a'.
    rewrite elem_of_cons. auto.
Qed.

Lemma NoDup_fmap_inj {A B : Type} (f : A → B) (l : list A) (x y : A) :
  NoDup (f <$> l) → x ∈ l → y ∈ l → f x = f y → x = y.
Proof.
  induction l as [|z l IH]; intros Hnd Hx Hy Hf.
  { by apply elem_of_nil in Hx. }
  rewrite fmap_cons in Hnd. apply NoDup_cons in Hnd as [Hz Hnd].
  apply elem_of_cons in Hx as [->|Hx]; apply elem_of_cons in Hy as [->|Hy].
  - done.
  - exfalso. apply Hz. rewrite Hf. by apply list_elem_of_fmap_2.
  - exfalso. apply Hz. rewrite <- Hf. by apply list_elem_of_fmap_2.
  - by apply IH.
Qed.

(** C6.  [map_reac_to_prod] returns for every pair of molecules: no
    lookup miss raises.  A reactant atom whose map number is 0 (or not
    positive), or positive but not a key of the product table, is in the
    only-reactant list; a product atom whose map number is 0 (or not
    positive), or positive but not in the reactant's set of map numbers,
    is in the only-product list; every other reactant atom has its one
    entry reactant index → product index in the dictionary, and the
    dictionary holds nothing else.  The keys of the product table are
    the positive map numbers of the product atoms.  The toolkit numbers
    the atoms of a molecule by position, so the reactant indices are
    pairwise distinct. *)
Theorem map_reac_to_prod_lookup_misses (mol_reac mol_prod : RDKitMol) :
  NoDup (GetIdx <$> GetAtoms mol_reac) →
  let table := prod_table ∅ (GetAtoms mol_prod) in
  let mapnos_reac : gset Z :=
    list_to_set (GetAtomMapNum <$> GetAtoms mol_reac) in
  ∃ reac_id_to_prod_id only_prod_ids only_reac_ids,
    map_reac_to_prod mol_reac mol_prod
      = Ok (reac_id_to_prod_id, only_prod_ids, only_reac_ids)
    ∧ (∀ m, is_Some (table !! m)
            ↔ (0 < m)%Z ∧ m ∈ GetAtomMapNum <$> GetAtoms mol_prod)
    ∧ (∀ a, a ∈ GetAtoms mol_reac →
         ((GetAtomMapNum a ≤ 0)%Z → GetIdx a ∈ only_reac_ids)
         ∧ ((0 < GetAtomMapNum a)%Z →
            table !! GetAtomMapNum a = None →
            GetIdx a ∈ only_reac_ids)
         ∧ (∀ p, (0 < GetAtomMapNum a)%Z →
                 table !! GetAtomMapNum a = Some p →
                 reac_id_to_prod_id !! GetIdx a = Some p
                 ∧ (GetIdx a ∉ only_reac_ids)
                 ∧ ∃ b, b ∈ GetAtoms mol_prod
                        ∧ GetAtomMapNum b = GetAtomMapNum a
                        ∧ GetIdx b = p))
    ∧ (∀ b, b ∈ GetAtoms mol_prod →
         ((GetAtomMapNum b ≤ 0)%Z → GetIdx b ∈ only_prod_ids)
         ∧ ((0 < GetAtomMapNum b)%Z →
            GetAtomMapNum b ∉ mapnos_reac →
            GetIdx b ∈ only_prod_ids))
    ∧ (∀ i p, reac_id_to_prod_id !! i = Some p →
         ∃ a, a ∈ GetAtoms mol_reac ∧ GetIdx a = i
              ∧ (0 < GetAtomMapNum a)%Z
              ∧ table !! GetAtomMapNum a = Some p)
    ∧ only_reac_ids
      = GetIdx <$>
          filter
            (λ a, ¬ ((0 < GetAtomMapNum a)%Z
                     ∧ is_Some (table !! GetAtomMapNum a)))
            (GetAtoms mol_reac)
    ∧ only_prod_ids
      = GetIdx <$>
          filter
            (λ b, ¬ ((0 < GetAtomMapNum b)%Z
                     ∧ GetAtomMapNum b ∈ mapnos_reac))
            (GetAtoms mol_prod).
Proof.
  intros Hnd table mapnos_reac.
  eexists _, _, _. split.
  { unfold map_reac_to_prod. rewrite scan_prod_loop, bind_Ok.
    cbn beta iota. rewrite scan_reac_loop, bind_Ok. reflexivity. }
  cbn [app]. fold table. fold mapnos_reac.
  split; [apply prod_table_keys|].
  split; [|split; [|split; [|split; reflexivity]]].
  - intros a Ha. split; [|split].
    + intros Hle. apply list_elem_of_fmap_2, list_elem_of_filter.
      split; [lia | done].
    + intros Hpos Hnone. apply list_elem_of_fmap_2, list_elem_of_filter.
      split; [|done]. intros [_ [p Hp]]. congruence.
    + intros p Hpos Hp. split; [|split].
      * by apply reac_dict_lookup.
      * intros Hin. apply list_elem_of_fmap in Hin as (a' & Hidx & Ha').
        apply list_elem_of_filter in Ha' as [Hunmapped Ha'].
        assert (a = a') as <- by by eapply NoDup_fmap_inj.
        apply Hunmapped. eauto.
      * apply prod_table_lookup_Some in Hp as [Hp|Hp].
        { by rewrite lookup_empty in Hp. }
        destruct Hp as (_ & b & ? & ? & ?). eauto.
  - intros b Hb. split.
    + intros Hle. apply list_elem_of_fmap_2, list_elem_of_filter.
      split; [lia | done].
    + intros Hpos Hnotin. apply list_elem_of_fmap_2, list_elem_of_filter.
      split; [tauto | done].
  - intros i p Hi. apply reac_dict_lookup_Some in Hi as [Hi|Hi].
    + by rewrite lookup_empty in Hi.
    + exact Hi.
Qed.

End facts.

(** The theorem at the test reaction: atom 0 of the reactant is mapped to
    atom 1 of the product, atoms 1 and 2 of the reactant and atoms 0 and 2
    of the product have no partner. *)
Lemma map_reac_to_prod_lookup_misses_witness :
  NoDup (@GetIdx _ Examples.toy_rdkit
           <$> @GetAtoms _ Examples.toy_rdkit Examples.reactant)
  ∧ ∃ reac_id_to_prod_id only_prod_ids only_reac_ids,
      map_reac_to_prod (R := Examples.toy_rdkit)
        Examples.reactant Examples.product
        = Ok (reac_id_to_prod_id, only_prod_ids, only_reac_ids)
      ∧ reac_id_to_prod_id !! 0 = Some 1
      ∧ only_reac_ids = [1; 2]
      ∧ only_prod_ids = [0; 2].
Proof.
  assert (Hnd : NoDup (@GetIdx _ Examples.toy_rdkit
                         <$> @GetAtoms _ Examples.toy_rdkit
                               Examples.reactant)).
  { apply (bool_decide_unpack _). vm_compute. exact I. }
  split; [exact Hnd|].
  destruct (map_reac_to_prod_lookup_misses (R := Examples.toy_rdkit)
              Examples.reactant Examples.product Hnd)
    as (d & only_prod & only_reac & Heq & _ & Hreac & _ & _ & Hor & Hop).
  exists d, only_prod, only_reac. split; [exact Heq|].
  split; [|split].
  - apply (Hreac (Examples.carbon 0 1)).
    + apply list_elem_of_here.
    + reflexivity.
    + vm_compute. reflexivity.
  - rewrite Hor. vm_compute. reflexivity.
  - rewrite Hop. vm_compute. reflexivity.
Defined.

End ReactionFacts.

(** ** The directed-bond indexer *)
Module MapperFacts.
Import Mapper MapperSpec.
Section facts.
Context {F : PyFloat} {R : RDKit} {U : FeatureUtils}.
Implicit Types (self : MapperDMPNN) (mol : RDKitMol).
Implicit Types (ps : list (nat * nat)) (p : nat * nat).
Implicit Types (f_atoms : ndarray float).

(** *** The tables of the specification *)

Lemma incoming_snoc ps p a :
  incoming (ps ++ [p]) a
  = incoming ps a
    ++ (if decide (p.2 = a) then [2 * length ps + 1] else [])
    ++ (if decide (p.1 = a) then [2 * length ps + 2] else []).
Proof.
  unfold incoming. rewrite imap_app, join_app. f_equal.
  cbn -[Nat.mul Nat.add]. by rewrite Nat.add_0_r, app_nil_r.
Qed.

Lemma ini_atoms_snoc ps p :
  ini_atoms (ps ++ [p]) = (ini_atoms ps ++ [p.1]) ++ [p.2].
Proof.
  unfold ini_atoms. rewrite bind_app. cbn. by rewrite <- app_assoc.
Qed.

Lemma rev_id_odd j : rev_id (2 * j + 1) = 2 * j + 2.
Proof.
  unfold rev_id. replace (2 * j + 1) with (S (2 * j)) by lia.
  rewrite Nat.odd_succ, Nat.even_mul. cbn. lia.
Qed.

Lemma rev_id_even j : rev_id (2 * j + 2) = 2 * j + 1.
Proof.
  unfold rev_id. replace (2 * j + 2) with (2 * (j + 1)) by lia.
  rewrite Nat.odd_mul. cbn. lia.
Qed.

Lemma rev_ids_snoc j :
  rev_id <$> seq 1 (2 * (j + 1))
  = ((rev_id <$> seq 1 (2 * j)) ++ [2 * j + 2]) ++ [2 * j + 1].
Proof.
  replace (2 * (j + 1)) with (2 * j + 2) by lia.
  rewrite seq_app, fmap_app. cbn [seq fmap list_fmap].
  rewrite <- app_assoc. f_equal. cbn [app].
  replace (1 + 2 * j) with (2 * j + 1) by lia.
  replace (S (2 * j + 1)) with (2 * j + 2) by lia.
  by rewrite rev_id_odd, rev_id_even.
Qed.

(** Appending [b1] to the row of [a2] and [b2] to the row of [a1]
    gives the table of incoming bonds with the bond [(a1, a2)] added. *)
Lemma incoming_table_snoc ps a1 a2 stop :
  a1 ≠ a2 → a1 < stop → a2 < stop →
  <[a1 := incoming ps a1 ++ [2 * length ps + 2]]>
    (<[a2 := incoming ps a2 ++ [2 * length ps + 1]]>
       (incoming ps <$> seq 0 stop))
  = incoming (ps ++ [(a1, a2)]) <$> seq 0 stop.
Proof.
  intros Hne H1 H2. apply list_eq. intros i.
  rewrite list_lookup_fmap.
  destruct (decide (i < stop)) as [Hi|Hi].
  2:{ rewrite lookup_seq_ge by lia.
      apply lookup_ge_None.
      rewrite !length_insert, length_fmap, length_seq. lia. }
  rewrite lookup_seq_lt, Nat.add_0_l by done.
  cbn [fmap option_fmap option_map].
  rewrite incoming_snoc. cbn [fst snd].
  destruct (decide (a1 = i)) as [->|Hi1].
  - rewrite list_lookup_insert_eq
      by (rewrite !length_insert, length_fmap, length_seq; lia).
    rewrite (decide_False (P := a2 = i)) by done. done.
  - rewrite list_lookup_insert_ne by done.
    destruct (decide (a2 = i)) as [->|Hi2].
    + rewrite list_lookup_insert_eq
        by (rewrite length_fmap, length_seq; lia).
      by rewrite app_nil_r.
    + rewrite list_lookup_insert_ne by done.
      rewrite list_lookup_fmap, lookup_seq_lt by done.
      cbn. by rewrite app_nil_r.
Qed.

(** *** The methods, one call at a time *)

Lemma extend_concat_feature_Ok self a bond_feature self' :
  _extend_concat_feature self a bond_feature = Ok self'
  ↔ ∃ row,
      nd_row (f_atoms_zero_padded self) a = Ok row
      ∧ length (row ++ bond_feature) = concat_fdim self
      ∧ shape1 (f_ini_atoms_bonds_zero_padded self) = concat_fdim self
      ∧ self'
        = set_f_ini_atoms_bonds_zero_padded self
            (NdArray
               (shape0 (f_ini_atoms_bonds_zero_padded self) + 1)
               (shape1 (f_ini_atoms_bonds_zero_padded self))
               (data (f_ini_atoms_bonds_zero_padded self)
                ++ (row ++ bond_feature))).
Proof.
  unfold _extend_concat_feature. split.
  - intros Hrun.
    apply bind_Ok_inv in Hrun as (row & Hrow & Hrun).
    apply bind_Ok_inv in Hrun as (ci & [Hlen ->]%nd_reshape_row_Ok & Hrun).
    apply bind_Ok_inv in Hrun as (t & [Hsh ->]%nd_concatenate0_Ok & Hrun).
    injection Hrun as <-. exists row. done.
  - intros (row & Hrow & Hlen & Hsh & ->).
    rewrite Hrow, bind_Ok.
    assert (nd_reshape_row (row ++ bond_feature) (concat_fdim self)
            = Ok (NdArray 1 (concat_fdim self) (row ++ bond_feature)))
      as -> by by apply nd_reshape_row_Ok.
    rewrite bind_Ok.
    erewrite (proj2 (nd_concatenate0_Ok _ _ _)); [|split; [done|]];
      done.
Qed.

Lemma append_at_Ok (l : list (list nat)) a b l' :
  append_at l a b = Ok l'
  ↔ ∃ row, l !! a = Some row ∧ l' = <[a := row ++ [b]]> l.
Proof.
  unfold append_at. split.
  - intros (row & Hrow%getitem_Ok & [= <-])%bind_Ok_inv. eauto.
  - intros (row & Hrow%getitem_Ok & ->). by rewrite Hrow.
Qed.

Lemma update_secondary_mappings_Ok self a1 a2 self' :
  _update_secondary_mappings self a1 a2 = Ok self'
  ↔ ∃ row2 row1,
      atom_to_incoming_bonds self !! a2 = Some row2
      ∧ <[a2 := row2 ++ [num_bonds self + 1]]>
          (atom_to_incoming_bonds self) !! a1 = Some row1
      ∧ self'
        = set_b2revb
            (set_bond_to_ini_atom
               (set_atom_to_incoming_bonds self
                  (<[a1 := row1 ++ [num_bonds self + 2]]>
                     (<[a2 := row2 ++ [num_bonds self + 1]]>
                        (atom_to_incoming_bonds self))))
               ((bond_to_ini_atom self ++ [a1]) ++ [a2]))
            ((b2revb self ++ [num_bonds self + 2])
             ++ [num_bonds self + 1]).
Proof.
  unfold _update_secondary_mappings. split.
  - intros Hrun.
    apply bind_Ok_inv in Hrun as (t2 & (row2 & H2 & ->)%append_at_Ok & Hrun).
    apply bind_Ok_inv in Hrun as (t1 & (row1 & H1 & ->)%append_at_Ok & Hrun).
    injection Hrun as <-. exists row2, row1. done.
  - intros (row2 & row1 & H2 & H1 & ->).
    rewrite (proj2 (append_at_Ok _ _ _ _)) by eauto. rewrite bind_Ok.
    rewrite (proj2 (append_at_Ok _ _ _ _)) by eauto. by rewrite bind_Ok.
Qed.

(** A pair without a bond leaves the object as it is. *)
Lemma discover_absent self a1 a2 :
  GetBondBetweenAtoms (datapoint self) (a1 - 1) (a2 - 1) = None →
  discover self a1 a2 = Ok self.
Proof.
  intros Hnone. unfold discover, _update_concat_vector.
  rewrite Hnone, bind_Ok. done.
Qed.

(** A pair with a bond adds it to the discovered bonds. *)
Lemma discover_found mol concat_fdim f_atoms ps self a1 a2 bond self' :
  discovered mol concat_fdim f_atoms ps self →
  a1 ≠ a2 → a1 < shape0 f_atoms → a2 < shape0 f_atoms →
  GetBondBetweenAtoms mol (a1 - 1) (a2 - 1) = Some bond →
  discover self a1 a2 = Ok self' →
  discovered mol concat_fdim f_atoms (ps ++ [(a1, a2)]) self'.
Proof.
  intros [Hmol Hcf Hfa Hna Hnb Hs0 Hs1 Hlen Hpad Hinc Hini Hrev Hmap]
    Hne Ha1 Ha2 Hbond Hrun.
  unfold discover in Hrun.
  apply bind_Ok_inv in Hrun as ([found s1] & Hucv & Hrun).
  unfold _update_concat_vector in Hucv. rewrite Hmol, Hbond in Hucv.
  set (fb := to_float <$> Encoders.bond_features (Some bond)) in Hucv.
  apply bind_Ok_inv in Hucv
    as (sa & (rowa & Hrowa & Hlena & _ & ->)%extend_concat_feature_Ok
        & Hucv).
  apply bind_Ok_inv in Hucv
    as (sb & (rowb & Hrowb & Hlenb & _ & ->)%extend_concat_feature_Ok
        & Hucv).
  injection Hucv as <- <-.
  rewrite decide_False in Hrun by done.
  apply bind_Ok_inv in Hrun
    as (s2 & (row2 & row1 & H2 & H1 & ->)%update_secondary_mappings_Ok
        & Hrun).
  injection Hrun as <-.
  cbn -[fb] in Hlena, Hlenb, H2, H1.
  rewrite Hinc in H2. rewrite Hinc in H1.
  rewrite list_lookup_fmap, lookup_seq_lt in H2 by done.
  injection H2 as <-.
  rewrite list_lookup_insert_ne, list_lookup_fmap, lookup_seq_lt in H1
    by done.
  injection H1 as <-.
  split; cbn -[Nat.mul Nat.add fb]; try done.
  - rewrite length_app. cbn [length]. lia.
  - rewrite length_app. cbn [length]. lia.
  - rewrite !length_app in *. cbn [length]. lia.
  - rewrite <- app_assoc, take_app_le; [done|]. rewrite Hlen. nia.
  - rewrite Hinc, Hnb. by apply incoming_table_snoc.
  - by rewrite Hini, ini_atoms_snoc.
  - rewrite Hrev, Hnb, length_app, rev_ids_snoc. done.
Qed.

Lemma discover_total mol concat_fdim f_atoms ps self a1 a2 bond :
  discovered mol concat_fdim f_atoms ps self →
  a1 ≠ a2 → a1 < shape0 f_atoms → a2 < shape0 f_atoms →
  GetBondBetweenAtoms mol (a1 - 1) (a2 - 1) = Some bond →
  (∀ a row, nd_row f_atoms a = Ok row →
            length row + length (Encoders.bond_features (Some bond))
            = concat_fdim) →
  ∃ self', discover self a1 a2 = Ok self'.
Proof.
  intros [Hmol Hcf Hfa Hna Hnb Hs0 Hs1 Hlen Hpad Hinc Hini Hrev Hmap]
    Hne Ha1 Ha2 Hbond Hwidth.
  unfold discover, _update_concat_vector. rewrite Hmol, Hbond.
  set (fb := to_float <$> Encoders.bond_features (Some bond)).
  assert (∀ a, a < shape0 f_atoms →
            ∃ row, nd_row f_atoms a = Ok row
                   ∧ length (row ++ fb) = concat_fdim) as Hrow.
  { intros a Ha.
    assert (nd_row f_atoms a
            = Ok (take (shape1 f_atoms)
                    (drop (a * shape1 f_atoms) (data f_atoms))))
      as Hrow by by apply nd_row_Ok.
    eexists. split; [exact Hrow|].
    rewrite length_app. unfold fb. rewrite length_fmap.
    by apply (Hwidth a). }
  destruct (Hrow a1 Ha1) as (rowa & Hrowa & Hlena).
  destruct (Hrow a2 Ha2) as (rowb & Hrowb & Hlenb).
  erewrite (proj2 (extend_concat_feature_Ok self a1 fb _));
    [|exists rowa; rewrite Hfa, Hcf; done].
  rewrite bind_Ok.
  erewrite (proj2 (extend_concat_feature_Ok _ a2 fb _));
    [|exists rowb; cbn; rewrite Hfa, Hcf; done].
  rewrite !bind_Ok. rewrite decide_False by done.
  erewrite (proj2 (update_secondary_mappings_Ok _ a1 a2 _)).
  { rewrite bind_Ok. eauto. }
  cbn. rewrite Hinc. eexists _, _. split; [|split; [|done]].
  - by rewrite list_lookup_fmap, lookup_seq_lt.
  - rewrite list_lookup_insert_ne by done.
    by rewrite list_lookup_fmap, lookup_seq_lt.
Qed.

Lemma discover_num_atoms self a1 a2 self' :
  discover self a1 a2 = Ok self' → num_atoms self' = num_atoms self.
Proof.
  unfold discover, _update_concat_vector. intros Hrun.
  apply bind_Ok_inv in Hrun as ([found s1] & Hucv & Hrun).
  destruct (GetBondBetweenAtoms _ _ _) as [bond|].
  - apply bind_Ok_inv in Hucv
      as (sa & (rowa & _ & _ & _ & ->)%extend_concat_feature_Ok & Hucv).
    apply bind_Ok_inv in Hucv
      as (sb & (rowb & _ & _ & _ & ->)%extend_concat_feature_Ok & Hucv).
    injection Hucv as <- <-. rewrite decide_False in Hrun by done.
    apply bind_Ok_inv in Hrun
      as (s2 & (row2 & row1 & _ & _ & ->)%update_secondary_mappings_Ok
          & Hrun).
    by injection Hrun as <-.
  - injection Hucv as <- <-. rewrite decide_True in Hrun by done.
    by injection Hrun as <-.
Qed.

(** *** The discovery loops *)

Lemma elem_of_range lo hi a : a ∈ range lo hi ↔ lo ≤ a < hi.
Proof. unfold range. rewrite elem_of_seq. lia. Qed.

Lemma elem_of_atom_pairs stop p :
  p ∈ atom_pairs stop ↔ 1 ≤ p.1 ∧ p.1 < p.2 ∧ p.2 < stop.
Proof.
  unfold atom_pairs. rewrite list_elem_of_bind. split.
  - intros (a1 & (a2 & Hp & Ha2)%list_elem_of_bind & Ha1).
    apply list_elem_of_singleton in Hp as ->. cbn.
    apply elem_of_range in Ha1, Ha2. lia.
  - intros (H1 & H12 & H2). exists p.1. split.
    + apply list_elem_of_bind. exists p.2. split.
      * destruct p. apply list_elem_of_here.
      * apply elem_of_range. lia.
    + apply elem_of_range. lia.
Qed.

(** The two nested loops visit the pairs of [atom_pairs]. *)
Lemma discovery_loops_pairs self :
  discovery_loops self
  = for_each (λ s p, discover s p.1 p.2)
      (atom_pairs (atoms_end self)) self.
Proof.
  unfold discovery_loops, atom_pairs.
  apply (for_each_nested discover
           (λ s a1, range (a1 + 1) (atoms_end s))
           (λ a1, range (a1 + 1) (atoms_end self))
           (λ s, num_atoms s = num_atoms self)).
  - intros s a Hs. unfold atoms_end. by rewrite Hs.
  - intros s a b s' Hs Hrun. rewrite <- Hs.
    by eapply discover_num_atoms.
  - done.
Qed.

Lemma discovery_pairs_spec mol concat_fdim f_atoms
    (visit : list (nat * nat)) ps self self' :
  discovered mol concat_fdim f_atoms ps self →
  (∀ p, p ∈ visit →
        p.1 ≠ p.2 ∧ p.1 < shape0 f_atoms ∧ p.2 < shape0 f_atoms) →
  for_each (λ s p, discover s p.1 p.2) visit self = Ok self' →
  discovered mol concat_fdim f_atoms
    (ps ++ filter (bonded mol) visit) self'.
Proof.
  revert ps self. induction visit as [|p visit IH];
    intros ps self Hd Hvisit Hrun.
  { injection Hrun as <-. by rewrite filter_nil, app_nil_r. }
  rewrite for_each_cons in Hrun.
  apply bind_Ok_inv in Hrun as (s1 & Hstep & Hrun).
  destruct (Hvisit p) as (Hne & H1 & H2); [apply list_elem_of_here|].
  assert (∀ q, q ∈ visit →
            q.1 ≠ q.2 ∧ q.1 < shape0 f_atoms ∧ q.2 < shape0 f_atoms)
    as Hvisit'.
  { intros q Hq. by apply Hvisit, list_elem_of_further. }
  destruct (GetBondBetweenAtoms mol (p.1 - 1) (p.2 - 1)) as [bond|]
    eqn:Hbond.
  - rewrite filter_cons_True by (unfold bonded; rewrite Hbond; eauto).
    replace (ps ++ p :: filter (bonded mol) visit)
      with ((ps ++ [p]) ++ filter (bonded mol) visit)
      by by rewrite <- app_assoc.
    apply (IH _ s1); [|done|done].
    destruct p as [a1 a2]. by eapply discover_found.
  - rewrite filter_cons_False
      by (unfold bonded; rewrite Hbond; by intros [? ?]).
    rewrite discover_absent in Hstep
      by (by rewrite (disc_datapoint _ _ _ _ _ Hd)).
    injection Hstep as Heq. subst s1. by apply (IH ps self).
Qed.

Lemma discovery_pairs_total mol concat_fdim f_atoms
    (visit : list (nat * nat)) ps self :
  discovered mol concat_fdim f_atoms ps self →
  (∀ p, p ∈ visit →
        p.1 ≠ p.2 ∧ p.1 < shape0 f_atoms ∧ p.2 < shape0 f_atoms) →
  (∀ p bond a row,
     p ∈ visit →
     GetBondBetweenAtoms mol (p.1 - 1) (p.2 - 1) = Some bond →
     nd_row f_atoms a = Ok row →
     length row + length (Encoders.bond_features (Some bond))
     = concat_fdim) →
  ∃ self', for_each (λ s p, discover s p.1 p.2) visit self = Ok self'.
Proof.
  revert ps self. induction visit as [|p visit IH];
    intros ps self Hd Hvisit Hwidth; [by eexists|].
  rewrite for_each_cons.
  destruct (Hvisit p) as (Hne & H1 & H2); [apply list_elem_of_here|].
  assert (∃ ps' s1, discover self p.1 p.2 = Ok s1
                    ∧ discovered mol concat_fdim f_atoms ps' s1)
    as (ps' & s1 & Hstep & Hd1).
  { destruct (GetBondBetweenAtoms mol (p.1 - 1) (p.2 - 1)) as [bond|]
      eqn:Hbond.
    - destruct (discover_total _ _ _ _ _ _ _ _ Hd Hne H1 H2 Hbond)
        as [s1 Hs1].
      { intros a row.
        apply (Hwidth p bond a row); [apply list_elem_of_here | done]. }
      exists (ps ++ [(p.1, p.2)]), s1. split; [done|].
      by eapply discover_found.
    - exists ps, self. split; [|done]. apply discover_absent.
      by rewrite (disc_datapoint _ _ _ _ _ Hd). }
  rewrite Hstep, bind_Ok. apply (IH ps' s1 Hd1).
  - intros q Hq. by apply Hvisit, list_elem_of_further.
  - intros q bond a row Hq. apply Hwidth. by apply list_elem_of_further.
Qed.

(** *** The constructor up to the end of the discovery loops *)

Lemma init_attributes_spec mol concat_fdim f_atoms :
  ∃ self,
    init_attributes mol concat_fdim f_atoms = Ok self
    ∧ discovered mol concat_fdim f_atoms [] self
    ∧ atoms_end self = shape0 f_atoms.
Proof.
  unfold init_attributes, nd_asarray.
  rewrite decide_True by (by constructor).
  rewrite bind_Ok. eexists. split; [reflexivity|]. split.
  - split; cbn -[Nat.mul]; rewrite ?app_nil_r; unfold times; try done.
    + by rewrite length_fmap, length_replicate.
    + rewrite length_fmap, length_replicate. lia.
    + rewrite fmap_replicate.
      apply take_ge. by rewrite length_replicate.
    + unfold range. replace (Z.to_nat _ - 0) with (shape0 f_atoms)
        by lia.
      by apply list_fmap_ext.
  - unfold atoms_end. cbn. lia.
Qed.

Lemma atom_pairs_in_range stop p :
  p ∈ atom_pairs stop → p.1 ≠ p.2 ∧ p.1 < stop ∧ p.2 < stop.
Proof. rewrite elem_of_atom_pairs. lia. Qed.

(** The discovery loops find the bonds of [real_bonds], in order. *)
Lemma after_discovery_spec mol concat_fdim f_atoms self :
  after_discovery mol concat_fdim f_atoms = Ok self →
  discovered mol concat_fdim f_atoms
    (real_bonds mol (shape0 f_atoms)) self.
Proof.
  unfold after_discovery.
  destruct (init_attributes_spec mol concat_fdim f_atoms)
    as (self0 & -> & Hd & Hend).
  rewrite bind_Ok, discovery_loops_pairs, Hend. intros Hrun.
  apply (discovery_pairs_spec _ _ _ _ [] self0 self Hd); [|done].
  apply atom_pairs_in_range.
Qed.

(** They raise nothing when the feature widths agree. *)
Lemma after_discovery_total mol concat_fdim f_atoms :
  widths_agree mol concat_fdim f_atoms →
  ∃ self, after_discovery mol concat_fdim f_atoms = Ok self.
Proof.
  intros Hwidth. unfold after_discovery.
  destruct (init_attributes_spec mol concat_fdim f_atoms)
    as (self0 & -> & Hd & Hend).
  rewrite bind_Ok, discovery_loops_pairs, Hend.
  apply (discovery_pairs_total _ _ _ _ [] self0 Hd).
  - apply atom_pairs_in_range.
  - exact Hwidth.
Qed.

(** *** In-degrees *)

Lemma in_degree_snoc ps p a :
  in_degree (ps ++ [p]) a
  = in_degree ps a + (if decide (p.1 = a ∨ p.2 = a) then 1 else 0).
Proof.
  unfold in_degree. rewrite filter_app, length_app. f_equal.
  rewrite filter_cons, filter_nil. by case_decide.
Qed.

Lemma length_incoming ps a :
  (∀ p, p ∈ ps → p.1 ≠ p.2) → length (incoming ps a) = in_degree ps a.
Proof.
  induction ps as [|p ps IH] using rev_ind; intros Hps; [done|].
  rewrite incoming_snoc, in_degree_snoc, !length_app, IH.
  2:{ intros q Hq. apply Hps, elem_of_app. by left. }
  assert (p.1 ≠ p.2) as Hp.
  { apply Hps, elem_of_app. right. apply list_elem_of_here. }
  f_equal. repeat case_decide; cbn [length]; intuition lia.
Qed.

Lemma real_bonds_in_range mol stop p :
  p ∈ real_bonds mol stop → p.1 ≠ p.2 ∧ p.1 < stop ∧ p.2 < stop.
Proof.
  intros [_ Hp]%list_elem_of_filter. by apply atom_pairs_in_range.
Qed.

Lemma in_degree_le_max_width ps stop a :
  a < stop → in_degree ps a ≤ max_width ps stop.
Proof.
  intros Ha. unfold max_width.
  assert (in_degree ps a ≤ max_list (in_degree ps <$> seq 0 stop));
    [|lia].
  apply max_list_elem_of_le, list_elem_of_fmap_2, elem_of_seq. lia.
Qed.

Lemma length_pad width row :
  length row ≤ width → length (pad width row) = width.
Proof.
  intros Hle. unfold pad. rewrite length_app, length_replicate. lia.
Qed.

(** *** The padding phase *)

Lemma modify_based_on_max_bonds_spec mol concat_fdim f_atoms self :
  let ps := real_bonds mol (shape0 f_atoms) in
  discovered mol concat_fdim f_atoms ps self →
  1 ≤ shape0 f_atoms →
  _modify_based_on_max_bonds self
  = Ok (set_atom_to_incoming_bonds self
          ((λ a, pad (max_width ps (shape0 f_atoms)) (incoming ps a))
             <$> seq 0 (shape0 f_atoms))).
Proof.
  intros ps Hd Hn. unfold _modify_based_on_max_bonds.
  rewrite (disc_incoming _ _ _ _ _ Hd).
  assert (atoms_end self = shape0 f_atoms) as ->.
  { unfold atoms_end. rewrite (disc_num_atoms _ _ _ _ _ Hd). lia. }
  assert (length <$> (incoming ps <$> seq 0 (shape0 f_atoms))
          = in_degree ps <$> seq 0 (shape0 f_atoms)) as ->.
  { rewrite <- list_fmap_compose. apply list_fmap_ext.
    intros _ a _. cbn. apply length_incoming.
    intros p Hp. by apply (real_bonds_in_range mol (shape0 f_atoms)). }
  erewrite (proj2 (max_of_Ok _ _)).
  2:{ split; [|reflexivity]. destruct (shape0 f_atoms); [lia|done]. }
  rewrite bind_Ok. fold (max_width ps (shape0 f_atoms)).
  rewrite (list_comp_fmap _
             (λ a, pad (max_width ps (shape0 f_atoms)) (incoming ps a))).
  { rewrite bind_Ok. unfold range. by rewrite Nat.sub_0_r. }
  intros a Ha%elem_of_range. cbn beta.
  assert (getitem (incoming ps <$> seq 0 (shape0 f_atoms)) a
          = Ok (incoming ps a)) as ->.
  { apply getitem_Ok. rewrite list_lookup_fmap, lookup_seq_lt by lia.
    done. }
  by rewrite !bind_Ok.
Qed.

Lemma modify_based_on_max_bonds_empty mol concat_fdim f_atoms ps self :
  discovered mol concat_fdim f_atoms ps self →
  shape0 f_atoms = 0 →
  _modify_based_on_max_bonds self = Raise ValueError.
Proof.
  intros Hd Hn. unfold _modify_based_on_max_bonds.
  by rewrite (disc_incoming _ _ _ _ _ Hd), Hn.
Qed.

(** *** The reverse-bond scrub, one row at a time *)

Lemma scrub_lookup rev row k :
  scrub rev row !! k
  = (λ x, if decide (x = rev) then 0 else x) <$> row !! k.
Proof. unfold scrub. apply list_lookup_fmap. Qed.

Lemma length_scrub rev row : length (scrub rev row) = length row.
Proof. unfold scrub. apply length_fmap. Qed.

(** One pass of the loop of [_replace_rev_bonds] rewrites the cells of
    row [count] and no other cell. *)
Lemma replace_rev_bond_Ok self count i self' :
  replace_rev_bond self count i = Ok self' →
  ∃ m,
    self' = set_mapping self m
    ∧ count < shape0 (mapping self)
    ∧ shape0 m = shape0 (mapping self)
    ∧ shape1 m = shape1 (mapping self)
    ∧ length (data m) = length (data (mapping self))
    ∧ (∀ row, nd_row (mapping self) count = Ok row →
              nd_row m count = Ok (scrub i row))
    ∧ (∀ r, r ≠ count → nd_row m r = nd_row (mapping self) r).
Proof.
  unfold replace_rev_bond. intros Hrun.
  apply bind_Ok_inv in Hrun as (row & Hrow & Hrun).
  apply bind_Ok_inv in Hrun as (m & Hm & Hrun).
  injection Hrun as <-. exists m. split; [done|].
  pose proof Hrow as [Hcount Hrow_eq]%nd_row_Ok.
  unfold nd_row_assign in Hm. rewrite decide_True in Hm by done.
  apply bind_Ok_inv in Hm as (d' & Hd' & Hm). injection Hm as <-.
  cbn [shape0 shape1 data].
  pose proof (assign_cells_length _ _ _ _ _ _ Hd') as Hlen.
  assert (∀ j, j ∈ np_where_eq row i → j < shape1 (mapping self))
    as Hidx.
  { intros j Hj%elem_of_np_where_eq%lookup_lt_Some.
    rewrite Hrow_eq, length_take in Hj. lia. }
  split; [done|]. split; [done|]. split; [done|]. split; [done|].
  split.
  - intros row' Hrow'. rewrite Hrow in Hrow'. injection Hrow' as <-.
    apply nd_row_Ok. cbn [shape0 shape1 data]. split; [done|].
    apply list_eq. intros k. symmetry. rewrite scrub_lookup.
    destruct (decide (k < shape1 (mapping self))) as [Hk|Hk].
    2:{ rewrite lookup_take_ge by lia.
        rewrite (proj2 (lookup_ge_None row k)); [done|].
        rewrite Hrow_eq, length_take. lia. }
    rewrite (nd_row_lookup _ _ _ _ Hrow Hk).
    rewrite lookup_take_lt, lookup_drop by done.
    destruct (data (mapping self) !! (count * shape1 (mapping self) + k))
      as [x|] eqn:Hx; cbn [fmap option_fmap option_map].
    + destruct (decide (x = i)) as [->|Hxi].
      * apply (assign_cells_hit _ _ _ _ _ _ _ Hd').
        -- apply elem_of_np_where_eq.
           by rewrite (nd_row_lookup _ _ _ _ Hrow Hk).
        -- by eapply lookup_lt_Some.
      * rewrite (assign_cells_other _ _ _ _ _ _ _ Hd'); [done|].
        intros j Hj%elem_of_np_where_eq Heq.
        assert (j = k) as -> by lia.
        rewrite (nd_row_lookup _ _ _ _ Hrow Hk) in Hj. congruence.
    + apply lookup_ge_None. rewrite Hlen. by apply lookup_ge_None.
  - intros r Hr. apply nd_row_ext; [done|done|].
    cbn [shape0 shape1 data]. intros k Hk.
    apply (assign_cells_other _ _ _ _ _ _ _ Hd').
    intros j Hj%Hidx. nia.
Qed.

Lemma replace_rev_bond_total self count i :
  count < shape0 (mapping self) →
  ∃ self', replace_rev_bond self count i = Ok self'.
Proof.
  intros Hcount. unfold replace_rev_bond, nd_row_assign.
  assert (nd_row (mapping self) count
          = Ok (take (shape1 (mapping self))
                  (drop (count * shape1 (mapping self))
                     (data (mapping self))))) as Hrow
    by by apply nd_row_Ok.
  rewrite Hrow, bind_Ok, decide_True by done.
  edestruct (assign_cells_total (A := nat)) as [d' ->]; [|by eexists].
  intros j Hj%elem_of_np_where_eq%lookup_lt_Some.
  rewrite length_take in Hj. lia.
Qed.

(** *** The whole scrub loop *)

Lemma set_mapping_mapping self : set_mapping self (mapping self) = self.
Proof. by destruct self. Qed.

Lemma replace_loop_spec (todo : list nat) k self self' :
  for_each (λ s '(count, i), replace_rev_bond s count i)
    (imap (λ j x, (k + j, x)) todo) self = Ok self' →
  ∃ m,
    self' = set_mapping self m
    ∧ shape0 m = shape0 (mapping self)
    ∧ shape1 m = shape1 (mapping self)
    ∧ length (data m) = length (data (mapping self))
    ∧ (∀ j i row,
         todo !! j = Some i →
         nd_row (mapping self) (k + j) = Ok row →
         nd_row m (k + j) = Ok (scrub i row))
    ∧ (∀ r, r < k ∨ k + length todo ≤ r →
            nd_row m r = nd_row (mapping self) r).
Proof.
  revert k self. induction todo as [|x todo IH]; intros k self Hrun.
  { injection Hrun as <-. exists (mapping self).
    rewrite set_mapping_mapping. repeat split; done. }
  rewrite imap_cons, for_each_cons in Hrun.
  apply bind_Ok_inv in Hrun as (s1 & Hstep & Hrun).
  cbn beta iota in Hstep.
  apply replace_rev_bond_Ok in Hstep
    as (m1 & -> & Hk & H0 & H1 & Hlen1 & Hrow1 & Hframe1).
  rewrite (imap_ext _ (λ j x, (S k + j, x))) in Hrun.
  2:{ intros j y _. cbn. f_equal. lia. }
  apply IH in Hrun as (m & -> & H0' & H1' & Hlen' & Hrows & Hframe).
  cbn [mapping set_mapping] in *.
  exists m. split; [done|]. split; [congruence|]. split; [congruence|].
  split; [congruence|]. split.
  - intros [|j] i row Hi Hrow.
    + injection Hi as ->. rewrite Hframe by lia.
      rewrite Nat.add_0_r in *. by apply Hrow1.
    + cbn in Hi. replace (k + S j) with (S k + j) in * by lia.
      apply (Hrows j i row Hi). rewrite Hframe1 by lia. done.
  - intros r Hr. cbn [length] in Hr. rewrite Hframe by lia.
    apply Hframe1. lia.
Qed.

Lemma replace_loop_total (todo : list nat) k self :
  k + length todo ≤ shape0 (mapping self) →
  ∃ self',
    for_each (λ s '(count, i), replace_rev_bond s count i)
      (imap (λ j x, (k + j, x)) todo) self = Ok self'.
Proof.
  revert k self. induction todo as [|x todo IH]; intros k self Hk.
  { by eexists. }
  cbn [length] in Hk. rewrite imap_cons, for_each_cons. cbn beta iota.
  destruct (replace_rev_bond_total self (k + 0) x) as [s1 Hs1]; [lia|].
  rewrite Hs1, bind_Ok.
  rewrite (imap_ext _ (λ j x, (S k + j, x))).
  2:{ intros j y _. cbn. f_equal. lia. }
  apply IH.
  apply replace_rev_bond_Ok in Hs1 as (m1 & -> & _ & H0 & _).
  cbn [mapping set_mapping]. lia.
Qed.

(** *** The constructor as a whole *)

Lemma elem_of_ini_atoms ps a :
  a ∈ ini_atoms ps → ∃ p, p ∈ ps ∧ (a = p.1 ∨ a = p.2).
Proof.
  unfold ini_atoms. intros (p & Ha & Hp)%list_elem_of_bind.
  exists p. split; [done|].
  apply elem_of_cons in Ha as [->|Ha]; [by left|].
  apply list_elem_of_singleton in Ha as ->. by right.
Qed.

Lemma length_ini_atoms ps : length (ini_atoms ps) = 2 * length ps.
Proof.
  unfold ini_atoms. induction ps as [|p ps IH]; [done|].
  rewrite bind_cons, length_app, IH. cbn [length]. lia.
Qed.

(** From the end of the discovery loops to the scrub loop. *)
Lemma generate_mapping_tail mol concat_fdim f_atoms self1 :
  let ps := real_bonds mol (shape0 f_atoms) in
  let M := max_width ps (shape0 f_atoms) in
  discovered mol concat_fdim f_atoms ps self1 →
  1 ≤ shape0 f_atoms →
  (self ← _modify_based_on_max_bonds self1;
   table ← nd_asarray (atom_to_incoming_bonds self);
   m ← nd_take table (bond_to_ini_atom self);
   _replace_rev_bonds (set_mapping self m))
  = _replace_rev_bonds
      (set_mapping
         (set_atom_to_incoming_bonds self1
            ((λ a, pad M (incoming ps a)) <$> seq 0 (shape0 f_atoms)))
         (NdArray (2 * length ps + 1) M
            (mjoin ((λ a, pad M (incoming ps a))
                      <$> (0 :: ini_atoms ps))))).
Proof.
  intros ps M Hd Hn.
  rewrite (modify_based_on_max_bonds_spec _ _ _ _ Hd Hn), bind_Ok.
  fold ps. fold M. cbn [atom_to_incoming_bonds set_atom_to_incoming_bonds
                        bond_to_ini_atom].
  assert (Forall (λ l, length l = M)
            ((λ a, pad M (incoming ps a)) <$> seq 0 (shape0 f_atoms)))
    as Hrows.
  { apply Forall_fmap, Forall_forall. intros a Ha%elem_of_seq. cbn.
    apply length_pad. rewrite length_incoming.
    - apply in_degree_le_max_width. lia.
    - intros p Hp. by apply (real_bonds_in_range mol (shape0 f_atoms)). }
  rewrite (nd_asarray_uniform _ M); [|by destruct (shape0 f_atoms); [lia|] | done].
  rewrite bind_Ok, length_fmap, length_seq.
  rewrite (disc_ini _ _ _ _ _ Hd).
  rewrite (nd_take_join _ _ _ _ (λ a, pad M (incoming ps a))); first last.
  - intros a Ha. rewrite list_lookup_fmap.
    assert (a < shape0 f_atoms) as Hlt.
    { apply elem_of_cons in Ha as [->|Ha]; [lia|].
      apply elem_of_ini_atoms in Ha as (p & Hp & Ha).
      apply (real_bonds_in_range mol (shape0 f_atoms)) in Hp. lia. }
    by rewrite lookup_seq_lt.
  - by rewrite length_fmap, length_seq.
  - done.
  - rewrite bind_Ok. cbn [length]. rewrite length_ini_atoms.
    do 3 f_equal. lia.
Qed.

Lemma ini_atoms_in_range mol stop a :
  1 ≤ stop → a ∈ 0 :: ini_atoms (real_bonds mol stop) → a < stop.
Proof.
  intros Hstop [->|Ha]%elem_of_cons; [lia|].
  apply elem_of_ini_atoms in Ha as (p & Hp & Ha).
  apply real_bonds_in_range in Hp. lia.
Qed.

Lemma length_padded_row mol stop a :
  a < stop →
  length (pad (max_width (real_bonds mol stop) stop)
            (incoming (real_bonds mol stop) a))
  = max_width (real_bonds mol stop) stop.
Proof.
  intros Ha. apply length_pad. rewrite length_incoming.
  - by apply in_degree_le_max_width.
  - intros p Hp. by apply (real_bonds_in_range mol stop).
Qed.

Lemma after_discovery_init mol concat_fdim f_atoms :
  ∃ self0,
    init_attributes mol concat_fdim f_atoms = Ok self0
    ∧ after_discovery mol concat_fdim f_atoms = discovery_loops self0.
Proof.
  destruct (init_attributes_spec mol concat_fdim f_atoms)
    as (self0 & Hinit & _).
  exists self0. split; [done|]. unfold after_discovery.
  by rewrite Hinit, bind_Ok.
Qed.

(** What the constructor returns. *)
Lemma init_spec mol concat_fdim f_atoms self :
  __init__ mol concat_fdim f_atoms = Ok self →
  constructed mol concat_fdim f_atoms self.
Proof.
  unfold __init__, _generate_mapping. intros Hrun.
  destruct (after_discovery_init mol concat_fdim f_atoms)
    as (self0 & Hinit & Hafter).
  rewrite Hinit, bind_Ok in Hrun.
  apply bind_Ok_inv in Hrun as (self1 & Hloops & Hrun).
  rewrite <- Hafter in Hloops.
  apply after_discovery_spec in Hloops as Hd.
  destruct (decide (shape0 f_atoms = 0)) as [Hz|Hnz].
  { by rewrite (modify_based_on_max_bonds_empty _ _ _ _ _ Hd Hz) in Hrun. }
  rewrite (generate_mapping_tail _ _ _ _ Hd) in Hrun by lia.
  unfold _replace_rev_bonds, enumerate in Hrun.
  apply (replace_loop_spec _ 0) in Hrun
    as (m & -> & H0 & H1 & Hlen & Hrows & _).
  cbn [mapping set_mapping shape0 shape1 data] in *.
  set (ps := real_bonds mol (shape0 f_atoms)) in *.
  set (M := max_width ps (shape0 f_atoms)) in *.
  assert (Forall (λ l, length l = M)
            ((λ a, pad M (incoming ps a)) <$> (0 :: ini_atoms ps)))
    as Hrows0.
  { apply Forall_fmap, Forall_forall. intros a Ha. cbn.
    apply length_padded_row.
    by apply (ini_atoms_in_range mol); [lia|]. }
  split; cbn [mapping set_mapping atom_to_incoming_bonds
              set_atom_to_incoming_bonds bond_to_ini_atom b2revb];
    try done.
  - lia.
  - destruct Hd. split; done.
  - fold ps. fold M. rewrite Hlen, length_join.
    rewrite (sum_list_fmap_same M) by done.
    rewrite length_fmap. cbn [length]. rewrite length_ini_atoms. lia.
  - fold ps. fold M. intros b a rev Hb Hrev.
    apply (Hrows b rev); [done|].
    cbn [Nat.add]. rewrite (disc_ini _ _ _ _ _ Hd) in Hb.
    apply nd_row_join; [done| |].
    + rewrite length_fmap. cbn [length]. rewrite length_ini_atoms. lia.
    + by rewrite list_lookup_fmap, Hb.
Qed.

(** The constructor returns whenever the table of atom features has
    its padding row and the feature widths agree. *)
Lemma init_total mol concat_fdim f_atoms :
  1 ≤ shape0 f_atoms →
  widths_agree mol concat_fdim f_atoms →
  ∃ self, __init__ mol concat_fdim f_atoms = Ok self.
Proof.
  intros Hn Hwidth. unfold __init__, _generate_mapping.
  destruct (after_discovery_init mol concat_fdim f_atoms)
    as (self0 & Hinit & Hafter).
  destruct (after_discovery_total _ _ _ Hwidth) as [self1 Hloops].
  pose proof (after_discovery_spec _ _ _ _ Hloops) as Hd.
  rewrite Hafter in Hloops. rewrite Hinit, bind_Ok, Hloops, bind_Ok.
  rewrite (generate_mapping_tail _ _ _ _ Hd) by done.
  unfold _replace_rev_bonds, enumerate.
  apply (replace_loop_total _ 0).
  cbn [mapping set_mapping shape0 b2revb set_atom_to_incoming_bonds].
  rewrite (disc_rev _ _ _ _ _ Hd). cbn [length].
  rewrite length_fmap, length_seq. lia.
Qed.

(** Without its padding row the table of atom features is no input:
    the constructor raises. *)
Lemma init_empty_table mol concat_fdim f_atoms :
  shape0 f_atoms = 0 →
  __init__ mol concat_fdim f_atoms = Raise ValueError.
Proof.
  intros Hz. unfold __init__, _generate_mapping.
  destruct (init_attributes_spec mol concat_fdim f_atoms)
    as (self0 & Hinit & Hd & Hend).
  rewrite Hinit, bind_Ok, discovery_loops_pairs, Hend, Hz.
  change (atom_pairs 0) with (@nil (nat * nat)).
  rewrite for_each_nil, bind_Ok.
  by rewrite (modify_based_on_max_bonds_empty _ _ _ _ _ Hd Hz).
Qed.

(** *** The visiting order *)

Lemma lex_lt_fst p q : p.1 < q.1 → lex_lt p q.
Proof. by left. Qed.

Lemma StronglySorted_seq lo cnt : StronglySorted lt (seq lo cnt).
Proof.
  revert lo. induction cnt as [|cnt IH]; intros lo; cbn [seq].
  - constructor.
  - constructor; [apply IH|].
    apply Forall_forall. intros x Hx%elem_of_seq. lia.
Qed.

Lemma StronglySorted_filter {A : Type} (Rel : relation A)
    (P : A → Prop) `{!∀ x, Decision (P x)} (l : list A) :
  StronglySorted Rel l → StronglySorted Rel (filter P l).
Proof.
  induction 1 as [|x l Hl IH Hx]; [constructor|].
  rewrite filter_cons. case_decide; [|done].
  constructor; [done|].
  apply Forall_forall. intros y [_ Hy]%list_elem_of_filter.
  by eapply Forall_forall in Hx.
Qed.

Lemma pairs_row (a1 : nat) (l : list nat) :
  (a2 ← l; [(a1, a2)]) = (λ a2, (a1, a2)) <$> l.
Proof.
  induction l as [|a2 l IH]; [done|].
  by rewrite bind_cons, fmap_cons, IH.
Qed.

(** The loops visit the pairs in increasing lexicographic order. *)
Lemma atom_pairs_sorted stop : StronglySorted lex_lt (atom_pairs stop).
Proof.
  unfold atom_pairs, range. generalize (StronglySorted_seq 1 (stop - 1)).
  generalize (seq 1 (stop - 1)) as l.
  induction 1 as [|a1 l Hl IH Ha1]; [constructor|].
  rewrite bind_cons. apply StronglySorted_app_2; [| |exact IH].
  - intros x1 x2 Hx1 Hx2. apply lex_lt_fst.
    rewrite pairs_row in Hx1.
    apply list_elem_of_fmap in Hx1 as (a2 & -> & _).
    apply list_elem_of_bind in Hx2 as (a1' & Hx2 & Ha1').
    rewrite pairs_row in Hx2.
    apply list_elem_of_fmap in Hx2 as (a2' & -> & _). cbn.
    by eapply Forall_forall in Ha1.
  - rewrite pairs_row.
    apply (StronglySorted_fmap _ lt); [|apply StronglySorted_seq].
    intros x y Hxy. right. done.
Qed.

Lemma real_bonds_sorted mol stop :
  StronglySorted lex_lt (real_bonds mol stop).
Proof. apply StronglySorted_filter, atom_pairs_sorted. Qed.

Lemma lex_lt_irrefl p : ¬ lex_lt p p.
Proof. unfold lex_lt. lia. Qed.

Lemma StronglySorted_NoDup {A : Type} (Rel : relation A) (l : list A) :
  (∀ x, ¬ Rel x x) → StronglySorted Rel l → NoDup l.
Proof.
  intros Hirr. induction 1 as [|x l Hl IH Hx]; constructor; [|done].
  intros Hin. eapply Forall_forall in Hx; [|exact Hin].
  by apply Hirr in Hx.
Qed.

Lemma NoDup_real_bonds mol stop : NoDup (real_bonds mol stop).
Proof.
  eapply StronglySorted_NoDup;
    [apply lex_lt_irrefl | apply real_bonds_sorted].
Qed.

Lemma elem_of_real_bonds mol stop p :
  p ∈ real_bonds mol stop
  ↔ (1 ≤ p.1 ∧ p.1 < p.2 ∧ p.2 < stop)
    ∧ is_Some (GetBondBetweenAtoms mol (p.1 - 1) (p.2 - 1)).
Proof.
  unfold real_bonds. rewrite list_elem_of_filter, elem_of_atom_pairs.
  unfold bonded. tauto.
Qed.

(** *** Reading the secondary tables *)

Lemma lookup_ini_atoms ps j p :
  ps !! j = Some p →
  (0 :: ini_atoms ps) !! (2 * j + 1) = Some p.1
  ∧ (0 :: ini_atoms ps) !! (2 * j + 2) = Some p.2.
Proof.
  replace (2 * j + 1) with (S (2 * j)) by lia.
  replace (2 * j + 2) with (S (2 * j + 1)) by lia.
  change (ps !! j = Some p →
          ini_atoms ps !! (2 * j) = Some p.1
          ∧ ini_atoms ps !! (2 * j + 1) = Some p.2).
  unfold ini_atoms. revert j. induction ps as [|q ps IH]; intros j Hj; [done|].
  rewrite bind_cons. destruct j as [|j].
  - injection Hj as ->. done.
  - cbn in Hj. apply IH in Hj as [H1 H2].
    replace (2 * S j) with (S (S (2 * j))) by lia.
    replace (2 * S j + 1) with (S (S (2 * j + 1))) by lia.
    done.
Qed.

Lemma lookup_rev_ids n b :
  1 ≤ b ≤ n → (0 :: (rev_id <$> seq 1 n)) !! b = Some (rev_id b).
Proof.
  intros Hb. destruct b as [|b]; [lia|].
  change ((rev_id <$> seq 1 n) !! b = Some (rev_id (S b))).
  rewrite list_lookup_fmap, lookup_seq_lt by lia. done.
Qed.

Lemma rev_id_pos b : 1 ≤ b → 1 ≤ rev_id b.
Proof.
  intros Hb. unfold rev_id. destruct (Nat.odd b) eqn:Hodd; [lia|].
  destruct b as [|[|b]]; [lia|done|lia].
Qed.

Lemma rev_id_involutive b : 1 ≤ b → rev_id (rev_id b) = b.
Proof.
  intros Hb. destruct (Nat.Even_or_Odd b) as [[j ->]|[j ->]].
  - destruct j as [|j]; [lia|].
    replace (2 * S j) with (2 * j + 2) by lia.
    by rewrite rev_id_even, rev_id_odd.
  - by rewrite rev_id_odd, rev_id_even.
Qed.

Lemma elem_of_incoming ps a b :
  b ∈ incoming ps a
  ↔ ∃ j p, ps !! j = Some p
           ∧ ((b = 2 * j + 1 ∧ p.2 = a) ∨ (b = 2 * j + 2 ∧ p.1 = a)).
Proof.
  unfold incoming. rewrite list_elem_of_join. split.
  - intros (l & Hb & (j & p & -> & Hp)%elem_of_lookup_imap).
    exists j, p. split; [done|].
    apply elem_of_app in Hb as [Hb|Hb]; case_decide;
      try (by apply elem_of_nil in Hb);
      apply list_elem_of_singleton in Hb; auto.
  - intros (j & p & Hp & Hb). eexists. split.
    2:{ apply elem_of_lookup_imap. eauto. }
    cbn beta. apply elem_of_app.
    destruct Hb as [[-> <-]|[-> <-]].
    + left. rewrite decide_True by done. apply list_elem_of_here.
    + right. rewrite decide_True by done. apply list_elem_of_here.
Qed.

Lemma incoming_bounds ps a b :
  b ∈ incoming ps a → 1 ≤ b ≤ 2 * length ps.
Proof.
  intros (j & p & Hp%lookup_lt_Some & Hb)%elem_of_incoming. lia.
Qed.

Lemma NoDup_incoming ps a : NoDup (incoming ps a).
Proof.
  induction ps as [|p ps IH] using rev_ind; [constructor|].
  rewrite incoming_snoc. apply NoDup_app. split; [done|]. split.
  - intros b Hb%incoming_bounds Hnew.
    apply elem_of_app in Hnew as [Hnew|Hnew]; case_decide;
      try (by apply elem_of_nil in Hnew);
      apply list_elem_of_singleton in Hnew; lia.
  - repeat case_decide; cbn [app]; repeat constructor;
      try (by intros ?%elem_of_nil).
    intros ?%list_elem_of_singleton. lia.
Qed.

(** A directed bond points into one atom only. *)
Lemma incoming_atom_unique ps a a' b :
  b ∈ incoming ps a → b ∈ incoming ps a' → a = a'.
Proof.
  intros (j & p & Hp & Hb)%elem_of_incoming
         (j' & p' & Hp' & Hb')%elem_of_incoming.
  assert (j = j') as <- by lia.
  rewrite Hp in Hp'. injection Hp' as <-.
  destruct Hb as [[-> <-]|[-> <-]], Hb' as [[? <-]|[? <-]];
    first [done | lia].
Qed.

(** After the discovery, the rows of the table hold every directed
    bond id once. *)
Lemma incoming_table_Permutation ps stop :
  (∀ p, p ∈ ps → p.1 < stop ∧ p.2 < stop) →
  mjoin (incoming ps <$> seq 0 stop) ≡ₚ seq 1 (2 * length ps).
Proof.
  intros Hps. apply NoDup_Permutation.
  - rewrite list_join_bind, list_fmap_bind. apply NoDup_bind.
    + intros a a' b _ _. cbn. apply incoming_atom_unique.
    + intros a _. apply NoDup_incoming.
    + apply NoDup_seq.
  - apply NoDup_seq.
  - intros b. rewrite list_elem_of_join, elem_of_seq. split.
    + intros (l & Hb & (a & -> & _)%list_elem_of_fmap).
      apply incoming_bounds in Hb. lia.
    + intros Hb.
      assert (∃ j, j < length ps ∧ (b = 2 * j + 1 ∨ b = 2 * j + 2))
        as (j & Hj & Hbj).
      { destruct (Nat.Even_or_Odd b) as [[j ->]|[j ->]].
        - exists (j - 1). lia.
        - exists j. lia. }
      destruct (lookup_lt_is_Some_2 ps j Hj) as [p Hp].
      destruct (Hps p) as [H1 H2]; [by eapply list_elem_of_lookup_2|].
      destruct Hbj as [->| ->].
      * exists (incoming ps p.2). split.
        -- apply elem_of_incoming. exists j, p. auto.
        -- apply list_elem_of_fmap_2, elem_of_seq. lia.
      * exists (incoming ps p.1). split.
        -- apply elem_of_incoming. exists j, p. auto.
        -- apply list_elem_of_fmap_2, elem_of_seq. lia.
Qed.

Lemma incoming_padding_atom mol stop :
  incoming (real_bonds mol stop) 0 = [].
Proof.
  destruct (incoming (real_bonds mol stop) 0) as [|b l] eqn:Hrow;
    [done|].
  assert (b ∈ incoming (real_bonds mol stop) 0) as Hb
    by (rewrite Hrow; apply list_elem_of_here).
  apply elem_of_incoming in Hb as (j & p & Hp & Hb).
  apply list_elem_of_lookup_2, elem_of_real_bonds in Hp. lia.
Qed.

Lemma max_width_no_bonds stop : max_width [] stop = 1.
Proof.
  unfold max_width.
  assert (∀ lo, max_list (in_degree [] <$> seq lo stop) = 0) as ->;
    [|done].
  induction stop as [|stop IH]; intros lo; [done|].
  cbn [seq]. rewrite fmap_cons. cbn [max_list max_list_with].
  rewrite IH. done.
Qed.

(** The constructor goes through the discovery state. *)
Lemma init_after_discovery mol concat_fdim f_atoms self :
  __init__ mol concat_fdim f_atoms = Ok self →
  ∃ self1, after_discovery mol concat_fdim f_atoms = Ok self1.
Proof.
  unfold __init__, _generate_mapping. intros Hrun.
  destruct (after_discovery_init mol concat_fdim f_atoms)
    as (self0 & Hinit & ->).
  rewrite Hinit, bind_Ok in Hrun.
  apply bind_Ok_inv in Hrun as (self1 & Hloops & _). eauto.
Qed.

(** *** The attributes of a constructed object *)

Section constructed.
Context (mol : RDKitMol) (concat_fdim : nat) (f_atoms : ndarray float).
Context (self : MapperDMPNN).
Hypothesis Hself : constructed mol concat_fdim f_atoms self.
Local Abbreviation ps := (real_bonds mol (shape0 f_atoms)).

Lemma constructed_num_atoms :
  num_atoms self = (Z.of_nat (shape0 f_atoms) - 1)%Z.
Proof using Hself.
  by destruct (cons_discovered _ _ _ _ Hself).
Qed.

Lemma constructed_num_bonds : num_bonds self = 2 * length ps.
Proof using Hself.
  by destruct (cons_discovered _ _ _ _ Hself).
Qed.

Lemma constructed_ini : bond_to_ini_atom self = 0 :: ini_atoms ps.
Proof using Hself.
  by destruct (cons_discovered _ _ _ _ Hself).
Qed.

Lemma constructed_rev :
  b2revb self = 0 :: (rev_id <$> seq 1 (2 * length ps)).
Proof using Hself.
  by destruct (cons_discovered _ _ _ _ Hself).
Qed.

Lemma constructed_table_lookup a :
  a < shape0 f_atoms →
  atom_to_incoming_bonds self !! a
  = Some (pad (max_width ps (shape0 f_atoms)) (incoming ps a)).
Proof using Hself.
  intros Ha. rewrite (cons_table _ _ _ _ Hself).
  by rewrite list_lookup_fmap, lookup_seq_lt.
Qed.

Lemma constructed_ini_lookup b :
  b ≤ num_bonds self →
  ∃ a, bond_to_ini_atom self !! b = Some a ∧ a < shape0 f_atoms.
Proof using Hself.
  intros Hb. rewrite constructed_num_bonds in Hb.
  destruct (lookup_lt_is_Some_2 (bond_to_ini_atom self) b) as [a Ha].
  { rewrite constructed_ini. cbn [length]. rewrite length_ini_atoms.
    lia. }
  exists a. split; [done|].
  apply (ini_atoms_in_range mol); [apply (cons_atoms _ _ _ _ Hself)|].
  rewrite <- constructed_ini. by eapply list_elem_of_lookup_2.
Qed.

Lemma constructed_rev_lookup b :
  1 ≤ b ≤ num_bonds self → b2revb self !! b = Some (rev_id b).
Proof using Hself.
  intros Hb. rewrite constructed_num_bonds in Hb.
  rewrite constructed_rev. by apply lookup_rev_ids.
Qed.

Lemma constructed_pair_lookup j p :
  ps !! j = Some p →
  bond_to_ini_atom self !! (2 * j + 1) = Some p.1
  ∧ bond_to_ini_atom self !! (2 * j + 2) = Some p.2
  ∧ b2revb self !! (2 * j + 1) = Some (2 * j + 2)
  ∧ b2revb self !! (2 * j + 2) = Some (2 * j + 1).
Proof using Hself.
  intros Hp. pose proof (lookup_lt_Some _ _ _ Hp) as Hj.
  rewrite constructed_ini.
  destruct (lookup_ini_atoms _ _ _ Hp) as [H1 H2].
  split; [done|]. split; [done|].
  rewrite !constructed_rev_lookup
    by (rewrite constructed_num_bonds; lia).
  by rewrite rev_id_odd, rev_id_even.
Qed.
End constructed.

(** *** The properties of the constructor *)

Lemma cons_data_length' mol concat_fdim f_atoms self :
  constructed mol concat_fdim f_atoms self →
  length (data (mapping self))
  = shape0 (mapping self) * shape1 (mapping self).
Proof.
  intros Hc. rewrite (cons_data_length _ _ _ _ Hc).
  by rewrite (cons_shape0 _ _ _ _ Hc), (cons_shape1 _ _ _ _ Hc).
Qed.

Lemma not_elem_of_scrub rev row : rev ≠ 0 → rev ∉ scrub rev row.
Proof.
  intros Hrev (x & Hx & _)%list_elem_of_fmap.
  case_decide; congruence.
Qed.

(** C1.  For every molecule and every directed bond id [i] from 1 to
    [num_bonds], row [i] of the mapping of the constructed object holds
    no entry equal to [b2revb[i]]: the row is the row of incoming bonds
    of the atom the bond starts at, with every entry equal to the
    reverse id replaced by 0. *)
Theorem mapping_row_excludes_reverse mol concat_fdim f_atoms self i :
  __init__ mol concat_fdim f_atoms = Ok self →
  1 ≤ i ≤ num_bonds self →
  ∃ a rev incoming_row row,
    bond_to_ini_atom self !! i = Some a
    ∧ b2revb self !! i = Some rev
    ∧ atom_to_incoming_bonds self !! a = Some incoming_row
    ∧ nd_row (mapping self) i = Ok row
    ∧ row = scrub rev incoming_row
    ∧ rev ∉ row.
Proof.
  intros Hc%init_spec Hi.
  destruct (constructed_ini_lookup _ _ _ _ Hc i) as (a & Ha & Hlt);
    [lia|].
  pose proof (constructed_rev_lookup _ _ _ _ Hc i Hi) as Hrev.
  eexists a, (rev_id i), _, _. split; [done|]. split; [done|].
  split; [by apply (constructed_table_lookup _ _ _ _ Hc)|].
  split; [by apply (cons_rows _ _ _ _ Hc)|].
  split; [done|].
  apply not_elem_of_scrub. pose proof (rev_id_pos i). lia.
Qed.

(** C2.  For every molecule with [B] real bonds, the constructed object
    has [num_bonds = 2 * B] and a concatenated feature table of
    [2 * B + 1] rows of width [concat_fdim], the first of which is the
    all-zero padding row; the [B] bonds are the bonded pairs
    [1 ≤ a1 < a2 ≤ num_atoms], each counted once.  The constructor does
    return when the feature widths agree. *)
Theorem concat_table_row_count mol concat_fdim f_atoms :
  let bonds := real_bonds mol (shape0 f_atoms) in
  let B := length bonds in
  (NoDup bonds
   ∧ ∀ p, p ∈ bonds
          ↔ (1 ≤ p.1 ∧ p.1 < p.2 ∧ p.2 < shape0 f_atoms)
            ∧ is_Some (GetBondBetweenAtoms mol (p.1 - 1) (p.2 - 1)))
  ∧ (1 ≤ shape0 f_atoms → widths_agree mol concat_fdim f_atoms →
     ∃ self, __init__ mol concat_fdim f_atoms = Ok self)
  ∧ ∀ self,
      __init__ mol concat_fdim f_atoms = Ok self →
      num_bonds self = 2 * B
      ∧ shape0 (f_ini_atoms_bonds_zero_padded self) = 2 * B + 1
      ∧ shape1 (f_ini_atoms_bonds_zero_padded self) = concat_fdim
      ∧ length (data (f_ini_atoms_bonds_zero_padded self))
        = (2 * B + 1) * concat_fdim
      ∧ nd_row (f_ini_atoms_bonds_zero_padded self) 0
        = Ok (replicate concat_fdim (float_of_int 0)).
Proof.
  intros bonds B. split; [|split].
  - split; [apply NoDup_real_bonds | apply elem_of_real_bonds].
  - apply init_total.
  - intros self Hc%init_spec.
    destruct (cons_discovered _ _ _ _ Hc)
      as [_ _ _ _ Hnb Hs0 Hs1 Hlen Hpad _ _ _ _].
    cbn in Hnb, Hs0, Hs1, Hlen, Hpad.
    split; [done|]. split; [done|]. split; [done|]. split; [done|].
    apply nd_row_Ok. rewrite Hs0, Hs1. split; [lia|].
    by rewrite drop_0.
Qed.

(** C3.  Directed-bond ids follow the discovery order.  The bonds are
    discovered in increasing lexicographic order of the pairs
    [(a1, a2)], [1 ≤ a1 < a2 ≤ num_atoms]; the bond discovered in
    position [j] (from 0) gets the two consecutive ids [k = 2j + 1] and
    [k + 1], with [bond_to_ini_atom[k] = a1],
    [bond_to_ini_atom[k + 1] = a2], [b2revb[k] = k + 1] and
    [b2revb[k + 1] = k]: odd ids run from [a1] to [a2], even ids back. *)
Theorem bond_ids_follow_discovery_order mol concat_fdim f_atoms self :
  __init__ mol concat_fdim f_atoms = Ok self →
  let bonds := real_bonds mol (shape0 f_atoms) in
  StronglySorted lex_lt bonds
  ∧ (∀ p, p ∈ bonds
          ↔ (1 ≤ p.1 ∧ p.1 < p.2 ∧ p.2 < shape0 f_atoms)
            ∧ is_Some (GetBondBetweenAtoms mol (p.1 - 1) (p.2 - 1)))
  ∧ Z.of_nat (shape0 f_atoms) = (num_atoms self + 1)%Z
  ∧ num_bonds self = 2 * length bonds
  ∧ ∀ j a1 a2,
      bonds !! j = Some (a1, a2) →
      let k := 2 * j + 1 in
      Nat.odd k = true
      ∧ k + 1 ≤ num_bonds self
      ∧ bond_to_ini_atom self !! k = Some a1
      ∧ bond_to_ini_atom self !! (k + 1) = Some a2
      ∧ b2revb self !! k = Some (k + 1)
      ∧ b2revb self !! (k + 1) = Some k.
Proof.
  intros Hc%init_spec bonds.
  split; [apply real_bonds_sorted|].
  split; [apply elem_of_real_bonds|].
  split; [rewrite (constructed_num_atoms _ _ _ _ Hc); lia|].
  split; [by apply (constructed_num_bonds _ _ _ _ Hc)|].
  intros j a1 a2 Hj k.
  destruct (constructed_pair_lookup _ _ _ _ Hc j _ Hj)
    as (H1 & H2 & H3 & H4).
  pose proof (lookup_lt_Some _ _ _ Hj) as Hlt.
  replace (k + 1) with (2 * j + 2) by (unfold k; lia).
  split.
  { unfold k. replace (2 * j + 1) with (S (2 * j)) by lia.
    rewrite Nat.odd_succ, Nat.even_mul. done. }
  split; [rewrite (constructed_num_bonds _ _ _ _ Hc); fold bonds; lia|].
  done.
Qed.

(** C4.  After the padding phase every row of
    [atom_to_incoming_bonds], for the indices 0 to [num_atoms], has the
    same length [M = max(1, maximum in-degree)]: it is the row the
    discovery left, whose length is the in-degree of the atom,
    right-padded with zeros.  Every row of the final mapping has this
    width too. *)
Theorem padded_rows_have_max_width mol concat_fdim f_atoms self :
  __init__ mol concat_fdim f_atoms = Ok self →
  let bonds := real_bonds mol (shape0 f_atoms) in
  let M := Nat.max 1 (max_list (in_degree bonds <$> seq 0 (shape0 f_atoms))) in
  ∃ discovery,
    after_discovery mol concat_fdim f_atoms = Ok discovery
    ∧ Z.of_nat (shape0 f_atoms) = (num_atoms self + 1)%Z
    ∧ length (atom_to_incoming_bonds self) = shape0 f_atoms
    ∧ (∀ a, a < shape0 f_atoms →
         ∃ row,
           atom_to_incoming_bonds discovery !! a = Some row
           ∧ length row = in_degree bonds a
           ∧ atom_to_incoming_bonds self !! a
             = Some (row ++ replicate (M - length row) 0)
           ∧ length (row ++ replicate (M - length row) 0) = M)
    ∧ shape0 (mapping self) = num_bonds self + 1
    ∧ shape1 (mapping self) = M
    ∧ ∀ i, i ≤ num_bonds self →
           ∃ row, nd_row (mapping self) i = Ok row ∧ length row = M.
Proof.
  intros Hrun bonds M. subst M.
  fold (max_width bonds (shape0 f_atoms)). subst bonds.
  set (bonds := real_bonds mol (shape0 f_atoms)).
  set (M := max_width bonds (shape0 f_atoms)).
  destruct (init_after_discovery _ _ _ _ Hrun) as [discovery Hdisc].
  pose proof (after_discovery_spec _ _ _ _ Hdisc) as Hd.
  apply init_spec in Hrun as Hc.
  exists discovery. split; [done|].
  split; [rewrite (constructed_num_atoms _ _ _ _ Hc); lia|].
  split.
  { by rewrite (cons_table _ _ _ _ Hc), length_fmap, length_seq. }
  split.
  { intros a Ha. exists (incoming bonds a).
    assert (length (incoming bonds a) = in_degree bonds a) as Hlen.
    { apply length_incoming. intros p Hp.
      by apply (real_bonds_in_range mol (shape0 f_atoms)). }
    split.
    { rewrite (disc_incoming _ _ _ _ _ Hd).
      by rewrite list_lookup_fmap, lookup_seq_lt. }
    split; [done|].
    split; [by apply (constructed_table_lookup _ _ _ _ Hc)|].
    by apply (length_padded_row mol). }
  split.
  { rewrite (cons_shape0 _ _ _ _ Hc).
    by rewrite (constructed_num_bonds _ _ _ _ Hc). }
  split; [apply (cons_shape1 _ _ _ _ Hc)|].
  intros i Hi.
  assert (i < shape0 (mapping self)) as Hlt.
  { rewrite (cons_shape0 _ _ _ _ Hc).
    rewrite (constructed_num_bonds _ _ _ _ Hc) in Hi. lia. }
  assert (nd_row (mapping self) i
          = Ok (take (shape1 (mapping self))
                  (drop (i * shape1 (mapping self))
                     (data (mapping self))))) as Hrow
    by by apply nd_row_Ok.
  eexists. split; [exact Hrow|].
  unfold M, bonds. rewrite <- (cons_shape1 _ _ _ _ Hc).
  apply (nd_row_length _ _ _ (cons_data_length' _ _ _ _ Hc) Hrow).
Qed.

Lemma real_bonds_no_bonds mol stop :
  (∀ i j, GetBondBetweenAtoms mol i j = None) → real_bonds mol stop = [].
Proof.
  intros Hnone. destruct (real_bonds mol stop) as [|p l] eqn:Hbonds;
    [done|].
  assert (p ∈ real_bonds mol stop) as Hp
    by (rewrite Hbonds; apply list_elem_of_here).
  apply elem_of_real_bonds in Hp as [_ [bond Hbond]].
  by rewrite Hnone in Hbond.
Qed.

Lemma fmap_seq_const {A : Type} (x : A) lo cnt :
  (λ _, x) <$> seq lo cnt = replicate cnt x.
Proof.
  revert lo. induction cnt as [|cnt IH]; intros lo; [done|].
  cbn [seq replicate]. by rewrite fmap_cons, IH.
Qed.

(** C5.  For every molecule without bonds, whatever its number of atoms
    (zero included), the constructor raises nothing and returns an
    object with [num_bonds = 0], a concatenated feature table made of
    the one all-zero padding row of width [concat_fdim], and a mapping
    whose only row is [[0]], of width 1. *)
Theorem no_bonds_minimal_tables mol concat_fdim f_atoms n_atoms :
  shape0 f_atoms = n_atoms + 1 →
  (∀ i j, GetBondBetweenAtoms mol i j = None) →
  ∃ self,
    __init__ mol concat_fdim f_atoms = Ok self
    ∧ num_atoms self = Z.of_nat n_atoms
    ∧ num_bonds self = 0
    ∧ f_ini_atoms_bonds_zero_padded self
      = NdArray 1 concat_fdim (replicate concat_fdim (float_of_int 0))
    ∧ atom_to_incoming_bonds self = replicate (n_atoms + 1) [0]
    ∧ bond_to_ini_atom self = [0]
    ∧ b2revb self = [0]
    ∧ mapping self = NdArray 1 1 [0]
    ∧ nd_row (mapping self) 0 = Ok [0].
Proof.
  intros Hn Hnone.
  pose proof (real_bonds_no_bonds mol (shape0 f_atoms) Hnone) as Hbonds.
  destruct (init_total mol concat_fdim f_atoms) as [self Hrun]; [lia| |].
  { intros p bond a row _ Hbond. by rewrite Hnone in Hbond. }
  exists self. split; [done|]. apply init_spec in Hrun as Hc.
  pose proof (constructed_num_bonds _ _ _ _ Hc) as Hnb.
  pose proof (constructed_ini _ _ _ _ Hc) as Hini.
  pose proof (constructed_rev _ _ _ _ Hc) as Hrev.
  pose proof (cons_table _ _ _ _ Hc) as Htable.
  pose proof (cons_shape0 _ _ _ _ Hc) as Hs0.
  pose proof (cons_shape1 _ _ _ _ Hc) as Hs1.
  pose proof (cons_data_length _ _ _ _ Hc) as Hlen.
  pose proof (cons_rows _ _ _ _ Hc 0 0 0) as Hrow.
  destruct (cons_discovered _ _ _ _ Hc)
    as [_ _ _ _ _ Hf0 Hf1 Hflen Hfpad _ _ _ _].
  cbn in Hf0, Hf1, Hflen, Hfpad.
  rewrite Hbonds in *. rewrite max_width_no_bonds in *.
  cbn in Hnb, Hini, Hrev, Hs0, Hlen, Hf0, Hflen.
  rewrite Hini, Hrev in Hrow. specialize (Hrow eq_refl eq_refl).
  change (scrub 0 (pad 1 (incoming [] 0))) with [0] in Hrow.
  split; [rewrite (constructed_num_atoms _ _ _ _ Hc); lia|].
  split; [done|]. split.
  { destruct (f_ini_atoms_bonds_zero_padded self) as [s0 s1 d].
    cbn in *. subst s0 s1. f_equal.
    rewrite take_ge in Hfpad by lia. done. }
  split.
  { rewrite Htable, Hn. apply (fmap_seq_const [0]). }
  split; [done|]. split; [done|].
  assert (mapping self = NdArray 1 1 [0]) as Hmap.
  { apply nd_row_Ok in Hrow as [_ Hrow].
    destruct (mapping self) as [s0 s1 d]. cbn in *. subst s0 s1.
    f_equal. rewrite drop_0, take_ge in Hrow by lia. done. }
  split; [done|]. by rewrite Hmap.
Qed.

(** C9.  After the discovery loops, before the padding, every directed
    bond id from 1 to [num_bonds] appears once across the rows of
    [atom_to_incoming_bonds], and the rows hold nothing else: the first
    id of a pair is in the row of [a2], the second in the row of [a1],
    the row of the padding atom 0 is empty, and every entry of the row
    of an atom is a distinct directed bond whose reverse starts at that
    atom. *)
Theorem discovery_lists_each_bond_once mol concat_fdim f_atoms self :
  after_discovery mol concat_fdim f_atoms = Ok self →
  let bonds := real_bonds mol (shape0 f_atoms) in
  let table := atom_to_incoming_bonds self in
  length table = shape0 f_atoms
  ∧ num_bonds self = 2 * length bonds
  ∧ mjoin table ≡ₚ seq 1 (num_bonds self)
  ∧ (∀ j a1 a2,
       bonds !! j = Some (a1, a2) →
       (∃ row, table !! a2 = Some row ∧ 2 * j + 1 ∈ row)
       ∧ (∃ row, table !! a1 = Some row ∧ 2 * j + 2 ∈ row))
  ∧ (∀ row, table !! 0 = Some row → row = [])
  ∧ (∀ a row,
       table !! a = Some row →
       NoDup row
       ∧ ∀ b, b ∈ row →
              1 ≤ b ≤ num_bonds self
              ∧ ∃ r, b2revb self !! b = Some r
                     ∧ bond_to_ini_atom self !! r = Some a).
Proof.
  intros Hd%after_discovery_spec bonds table. subst table.
  destruct Hd as [_ _ _ _ Hnb _ _ _ _ Htable Hini Hrev _].
  fold bonds in Hnb, Htable, Hini, Hrev.
  rewrite Htable, Hnb, Hini, Hrev.
  assert (∀ a row,
            (incoming bonds <$> seq 0 (shape0 f_atoms)) !! a = Some row →
            a < shape0 f_atoms ∧ row = incoming bonds a) as Hlookup.
  { intros a row Hrow. rewrite list_lookup_fmap in Hrow.
    destruct (seq 0 (shape0 f_atoms) !! a) as [a'|] eqn:Ha; [|done].
    apply lookup_seq in Ha as [-> Ha]. by injection Hrow as <-. }
  split; [by rewrite length_fmap, length_seq|]. split; [done|].
  split.
  { apply incoming_table_Permutation. intros p Hp.
    apply (real_bonds_in_range mol (shape0 f_atoms)) in Hp. lia. }
  split.
  { intros j a1 a2 Hj.
    pose proof (list_elem_of_lookup_2 _ _ _ Hj) as Hp.
    apply (real_bonds_in_range mol (shape0 f_atoms)) in Hp.
    cbn in Hp. split.
    - exists (incoming bonds a2). split.
      + rewrite list_lookup_fmap, lookup_seq_lt by lia. done.
      + apply elem_of_incoming. exists j, (a1, a2). auto.
    - exists (incoming bonds a1). split.
      + rewrite list_lookup_fmap, lookup_seq_lt by lia. done.
      + apply elem_of_incoming. exists j, (a1, a2). auto. }
  split.
  { intros row [_ ->]%Hlookup. apply incoming_padding_atom. }
  intros a row [Ha ->]%Hlookup. split; [apply NoDup_incoming|].
  intros b Hb. split; [by eapply incoming_bounds|].
  apply elem_of_incoming in Hb as (j & p & Hp & Hb).
  pose proof (lookup_lt_Some _ _ _ Hp) as Hj.
  destruct (lookup_ini_atoms _ _ _ Hp) as [H1 H2].
  destruct Hb as [[-> <-]|[-> <-]].
  - exists (2 * j + 2). split; [|done].
    rewrite lookup_rev_ids by lia. by rewrite rev_id_odd.
  - exists (2 * j + 1). split; [|done].
    rewrite lookup_rev_ids by lia. by rewrite rev_id_even.
Qed.

Lemma elem_of_scrub_ne rev row x :
  x ∈ row → x ≠ rev → x ∈ scrub rev row.
Proof.
  intros Hx Hne. apply list_elem_of_fmap. exists x.
  by rewrite decide_False.
Qed.

Lemma elem_of_pad width row x : x ∈ row → x ∈ pad width row.
Proof. intros Hx. apply elem_of_app. by left. Qed.

(** The reverse of a directed bond points into the atom the bond
    starts at. *)
Lemma reverse_points_into_source mol concat_fdim f_atoms self i a :
  constructed mol concat_fdim f_atoms self →
  1 ≤ i ≤ num_bonds self →
  bond_to_ini_atom self !! i = Some a →
  rev_id i ∈ incoming (real_bonds mol (shape0 f_atoms)) a.
Proof.
  intros Hc Hi Ha.
  rewrite (constructed_num_bonds _ _ _ _ Hc) in Hi.
  assert (∃ j, j < length (real_bonds mol (shape0 f_atoms))
               ∧ (i = 2 * j + 1 ∨ i = 2 * j + 2)) as (j & Hj & Hij).
  { destruct (Nat.Even_or_Odd i) as [[j ->]|[j ->]].
    - exists (j - 1). lia.
    - exists j. lia. }
  destruct (lookup_lt_is_Some_2 _ j Hj) as [p Hp].
  destruct (constructed_pair_lookup _ _ _ _ Hc j p Hp)
    as (H1 & H2 & _ & _).
  apply elem_of_incoming. exists j, p. split; [done|].
  destruct Hij as [-> | ->].
  - rewrite rev_id_odd. right. split; [done|]. congruence.
  - rewrite rev_id_even. left. split; [done|]. congruence.
Qed.

(** C10.  The reverse-bond scrub is local to a row.  One pass of its
    loop changes the cells of row [count] of the mapping and nothing
    else of the object: every other row reads as before.  So in the
    constructed object two directed bonds [i] and [i'] that start at the
    same atom have rows derived from the same list of incoming bonds,
    each with its own reverse id zeroed and the reverse id of the other
    still in place. *)
Theorem scrub_is_row_local :
  (∀ self count i self',
     replace_rev_bond self count i = Ok self' →
     self' = set_mapping self (mapping self')
     ∧ shape0 (mapping self') = shape0 (mapping self)
     ∧ shape1 (mapping self') = shape1 (mapping self)
     ∧ (∀ row, nd_row (mapping self) count = Ok row →
               nd_row (mapping self') count = Ok (scrub i row))
     ∧ ∀ r, r ≠ count →
            nd_row (mapping self') r = nd_row (mapping self) r)
  ∧ (∀ mol concat_fdim f_atoms self i i' a,
       __init__ mol concat_fdim f_atoms = Ok self →
       1 ≤ i ≤ num_bonds self → 1 ≤ i' ≤ num_bonds self → i ≠ i' →
       bond_to_ini_atom self !! i = Some a →
       bond_to_ini_atom self !! i' = Some a →
       ∃ rev rev' incoming_row row row',
         b2revb self !! i = Some rev
         ∧ b2revb self !! i' = Some rev'
         ∧ atom_to_incoming_bonds self !! a = Some incoming_row
         ∧ nd_row (mapping self) i = Ok row
         ∧ nd_row (mapping self) i' = Ok row'
         ∧ row = scrub rev incoming_row
         ∧ row' = scrub rev' incoming_row
         ∧ rev' ∈ incoming_row ∧ rev' ∈ row ∧ (rev' ∉ row')
         ∧ rev ∈ incoming_row ∧ rev ∈ row' ∧ rev ∉ row).
Proof.
  split.
  - intros self count i self' Hrun.
    apply replace_rev_bond_Ok in Hrun
      as (m & -> & _ & H0 & H1 & _ & Hrow & Hframe).
    done.
  - intros mol concat_fdim f_atoms self i i' a Hc%init_spec
      Hi Hi' Hne Ha Ha'.
    pose proof (constructed_rev_lookup _ _ _ _ Hc i Hi) as Hrev.
    pose proof (constructed_rev_lookup _ _ _ _ Hc i' Hi') as Hrev'.
    assert (a < shape0 f_atoms) as Hlt.
    { destruct (constructed_ini_lookup _ _ _ _ Hc i) as (a0 & Ha0 & ?);
        [lia|]. congruence. }
    pose proof (rev_id_pos i) as Hpos. pose proof (rev_id_pos i') as Hpos'.
    assert (rev_id i ≠ rev_id i') as Hrevne.
    { intros Heq. apply Hne.
      rewrite <- (rev_id_involutive i), <- (rev_id_involutive i') by lia.
      by rewrite Heq. }
    eexists (rev_id i), (rev_id i'), _, _, _.
    split; [done|]. split; [done|].
    split; [by apply (constructed_table_lookup _ _ _ _ Hc)|].
    split; [by apply (cons_rows _ _ _ _ Hc)|].
    split; [by apply (cons_rows _ _ _ _ Hc)|].
    split; [done|]. split; [done|].
    assert (∀ b, 1 ≤ b ≤ num_bonds self →
              bond_to_ini_atom self !! b = Some a →
              rev_id b
              ∈ pad (max_width (real_bonds mol (shape0 f_atoms))
                       (shape0 f_atoms))
                  (incoming (real_bonds mol (shape0 f_atoms)) a))
      as Hin.
    { intros b Hb Hba.
      by eapply elem_of_pad, reverse_points_into_source. }
    split; [by apply Hin|].
    split; [apply elem_of_scrub_ne; [by apply Hin | done]|].
    split; [apply not_elem_of_scrub; lia|].
    split; [by apply Hin|].
    split; [apply elem_of_scrub_ne; [by apply Hin | done]|].
    apply not_elem_of_scrub. lia.
Qed.

End facts.

(** *** The properties on the test molecules *)

Section test_molecules.
Import Examples.
Local Existing Instances toy_float toy_rdkit toy_utils.

(** The indexer on a molecule of [n] atoms; the rows of the
    concatenated table are 2 + 14 wide. *)
Local Abbreviation toy_mapper m n :=
  (__init__ (U := toy_utils) m 16 (toy_f_atoms n)).
Local Abbreviation toy_discovery m n :=
  (after_discovery (U := toy_utils) m 16 (toy_f_atoms n)).

Lemma toy_widths_agree (m : toy_mol) (n : nat) :
  widths_agree m 16 (toy_f_atoms n).
Proof.
  intros p bond a row _ _ Hrow.
  assert (length (data (toy_f_atoms n))
          = shape0 (toy_f_atoms n) * shape1 (toy_f_atoms n)) as Hwf.
  { cbn [toy_f_atoms data shape0 shape1]. unfold times.
    rewrite length_app, !length_replicate. lia. }
  pose proof (nd_row_length _ _ _ Hwf Hrow) as Hlen.
  exact (f_equal (λ w, w + 14) Hlen).
Qed.

(** Ethane: three rows in the concatenated table, the directed bonds 1
    and 2 are each other's reverse, and both rows of the mapping are
    scrubbed to [[0]]. *)
Example ethane_mapper :
  ∃ self,
    toy_mapper ethane 2 = Ok self
    ∧ num_bonds self = 2
    ∧ shape0 (f_ini_atoms_bonds_zero_padded self) = 3
    ∧ b2revb self = [0; 2; 1]
    ∧ atom_to_incoming_bonds self = [[0]; [2]; [1]]
    ∧ mapping self = NdArray 3 1 [0; 0; 0].
Proof. eexists. split; [vm_compute; reflexivity|]. repeat split. Qed.

(** Propane: four directed bonds; atom 2 has in-degree 2, the rows of
    atoms 1 and 3 get one trailing zero. *)
Example propane_mapper :
  ∃ self,
    toy_mapper propane 3 = Ok self
    ∧ num_bonds self = 4
    ∧ bond_to_ini_atom self = [0; 1; 2; 2; 3]
    ∧ b2revb self = [0; 2; 1; 4; 3]
    ∧ atom_to_incoming_bonds self = [[0; 0]; [2; 0]; [1; 4]; [3; 0]]
    ∧ mapping self = NdArray 5 2 [0; 0; 0; 0; 0; 4; 1; 0; 0; 0].
Proof. eexists. split; [vm_compute; reflexivity|]. repeat split. Qed.

(** No atom at all: the padding rows alone. *)
Example empty_molecule_mapper :
  ∃ self,
    toy_mapper (ToyMol [] []) 0 = Ok self
    ∧ num_atoms self = 0%Z
    ∧ num_bonds self = 0
    ∧ atom_to_incoming_bonds self = [[0]]
    ∧ mapping self = NdArray 1 1 [0].
Proof. eexists. split; [vm_compute; reflexivity|]. repeat split. Qed.

(** A concatenated width that does not fit the features is an error. *)
Example propane_wrong_width :
  __init__ (U := toy_utils) propane 15 (toy_f_atoms 3) = Raise ValueError.
Proof. vm_compute. reflexivity. Qed.

(** Propane, bond 2 (from atom 2 back to atom 1): its row is the row
    [[1; 4]] of atom 2 with the reverse id 1 zeroed. *)
Lemma mapping_row_excludes_reverse_witness :
  ∃ self,
    toy_mapper propane 3 = Ok self
    ∧ 1 ≤ 2 ≤ num_bonds self
    ∧ ∃ a rev incoming_row row,
        bond_to_ini_atom self !! 2 = Some a
        ∧ b2revb self !! 2 = Some rev
        ∧ atom_to_incoming_bonds self !! a = Some incoming_row
        ∧ nd_row (mapping self) 2 = Ok row
        ∧ row = scrub rev incoming_row
        ∧ rev ∉ row.
Proof.
  eexists. split; [vm_compute; reflexivity|].
  split; [cbn; lia|].
  apply (mapping_row_excludes_reverse (U := toy_utils)
           propane 16 (toy_f_atoms 3)).
  - vm_compute. reflexivity.
  - cbn. lia.
Defined.

(** Propane has two bonds: four directed bonds and five rows. *)
Lemma concat_table_row_count_witness :
  1 ≤ shape0 (toy_f_atoms 3)
  ∧ widths_agree propane 16 (toy_f_atoms 3)
  ∧ ∃ self,
      toy_mapper propane 3 = Ok self
      ∧ num_bonds self = 4
      ∧ shape0 (f_ini_atoms_bonds_zero_padded self) = 5.
Proof.
  assert (1 ≤ shape0 (toy_f_atoms 3)) as Hn by (cbn; lia).
  pose proof (toy_widths_agree propane 3) as Hw.
  split; [exact Hn|]. split; [exact Hw|].
  destruct (concat_table_row_count (U := toy_utils)
              propane 16 (toy_f_atoms 3))
    as (_ & Htotal & Hspec).
  destruct (Htotal Hn Hw) as [self Hself]. exists self.
  split; [exact Hself|].
  destruct (Hspec self Hself) as (Hnb & Hs0 & _).
  split; [exact Hnb | exact Hs0].
Defined.

(** Propane: the bond (1, 2) gets the ids 1 and 2, the bond (2, 3) the
    ids 3 and 4. *)
Lemma bond_ids_follow_discovery_order_witness :
  ∃ self,
    toy_mapper propane 3 = Ok self
    ∧ real_bonds propane (shape0 (toy_f_atoms 3)) !! 1 = Some (2, 3)
    ∧ bond_to_ini_atom self !! 3 = Some 2
    ∧ bond_to_ini_atom self !! 4 = Some 3
    ∧ b2revb self !! 3 = Some 4
    ∧ b2revb self !! 4 = Some 3.
Proof.
  assert (∃ self, toy_mapper propane 3 = Ok self) as [self Hrun]
    by (eexists; vm_compute; reflexivity).
  exists self. split; [exact Hrun|].
  assert (real_bonds propane (shape0 (toy_f_atoms 3)) !! 1
          = Some (2, 3)) as Hbond
    by (vm_compute; reflexivity).
  split; [exact Hbond|].
  destruct (bond_ids_follow_discovery_order (U := toy_utils)
              propane 16 (toy_f_atoms 3) self Hrun)
    as (_ & _ & _ & _ & Hids).
  destruct (Hids 1 2 3 Hbond) as (_ & _ & H1 & H2 & H3 & H4).
  split; [exact H1|]. split; [exact H2|]. split; [exact H3|exact H4].
Defined.

(** Propane: atom 2 has in-degree 2, so every row is 2 wide. *)
Lemma padded_rows_have_max_width_witness :
  ∃ self,
    toy_mapper propane 3 = Ok self
    ∧ shape1 (mapping self) = 2
    ∧ ∃ row, atom_to_incoming_bonds self !! 1 = Some row
             ∧ length row = 2.
Proof.
  assert (∃ self, toy_mapper propane 3 = Ok self) as [self Hrun]
    by (eexists; vm_compute; reflexivity).
  exists self. split; [exact Hrun|].
  destruct (padded_rows_have_max_width (U := toy_utils)
              propane 16 (toy_f_atoms 3) self Hrun)
    as (discovery & _ & _ & _ & Hrows & _ & Hwidth & _).
  split; [exact Hwidth|].
  destruct (Hrows 1) as (row & _ & _ & Hrow & Hlen); [cbn; lia|].
  eexists. split; [exact Hrow | exact Hlen].
Defined.

(** Three isolated atoms. *)
Lemma no_bonds_minimal_tables_witness :
  shape0 (toy_f_atoms 3) = 3 + 1
  ∧ (∀ i j, toy_bond_between three_atoms i j = None)
  ∧ ∃ self,
      toy_mapper three_atoms 3 = Ok self
      ∧ num_bonds self = 0
      ∧ f_ini_atoms_bonds_zero_padded self
        = NdArray 1 16 (replicate 16 0%Z)
      ∧ mapping self = NdArray 1 1 [0].
Proof.
  assert (∀ i j, toy_bond_between three_atoms i j = None) as Hnone
    by (intros i j; reflexivity).
  split; [reflexivity|]. split; [exact Hnone|].
  destruct (no_bonds_minimal_tables (U := toy_utils)
              three_atoms 16 (toy_f_atoms 3) 3 eq_refl Hnone)
    as (self & Hrun & _ & Hnb & Hf & _ & _ & _ & Hmap & _).
  exists self. split; [exact Hrun|].
  split; [exact Hnb|]. split; [exact Hf | exact Hmap].
Defined.

(** Propane after the discovery: the rows are [], [2], [1; 4], [3]. *)
Lemma discovery_lists_each_bond_once_witness :
  ∃ self,
    toy_discovery propane 3 = Ok self
    ∧ mjoin (atom_to_incoming_bonds self) ≡ₚ seq 1 (num_bonds self)
    ∧ ∀ row, atom_to_incoming_bonds self !! 0 = Some row → row = [].
Proof.
  assert (∃ self, toy_discovery propane 3 = Ok self) as [self Hrun]
    by (eexists; vm_compute; reflexivity).
  exists self. split; [exact Hrun|].
  destruct (discovery_lists_each_bond_once (U := toy_utils)
              propane 16 (toy_f_atoms 3) self Hrun)
    as (_ & _ & Hperm & _ & Hzero & _).
  split; [exact Hperm | exact Hzero].
Defined.

(** Propane: the bonds 2 and 3 both start at atom 2, whose incoming
    bonds are [[1; 4]]; row 2 keeps the 4 and row 3 keeps the 1. *)
Lemma scrub_is_row_local_witness :
  ∃ self,
    toy_mapper propane 3 = Ok self
    ∧ ∃ rev rev' incoming_row row row',
        b2revb self !! 2 = Some rev
        ∧ b2revb self !! 3 = Some rev'
        ∧ atom_to_incoming_bonds self !! 2 = Some incoming_row
        ∧ nd_row (mapping self) 2 = Ok row
        ∧ nd_row (mapping self) 3 = Ok row'
        ∧ row = scrub rev incoming_row
        ∧ row' = scrub rev' incoming_row
        ∧ rev' ∈ incoming_row ∧ rev' ∈ row ∧ (rev' ∉ row')
        ∧ rev ∈ incoming_row ∧ rev ∈ row' ∧ rev ∉ row.
Proof.
  eexists. split; [vm_compute; reflexivity|].
  apply (proj2 (scrub_is_row_local (U := toy_utils))
           propane 16 (toy_f_atoms 3)).
  - vm_compute. reflexivity.
  - cbn. lia.
  - cbn. lia.
  - lia.
  - reflexivity.
  - reflexivity.
Defined.

End test_molecules.
End MapperFacts.


(** * Further properties *)

(** ** The encoders, beyond the null input *)
Module EncodersMore.
Import Encoders EncodersFacts.
Section facts.
Context {F : PyFloat} {R : RDKit} {U : FeatureUtils}.

Lemma atom_feature_choices :
  dict_getitem ATOM_FEATURES "atomic_num" = Ok (Z.of_nat <$> range 0 100)
  ∧ dict_getitem ATOM_FEATURES "degree" = Ok [0; 1; 2; 3; 4; 5]%Z
  ∧ dict_getitem ATOM_FEATURES "formal_charge" = Ok [-1; -2; 1; 2; 0]%Z
  ∧ dict_getitem ATOM_FEATURES "chiral_tag" = Ok [0; 1; 2; 3]%Z
  ∧ dict_getitem ATOM_FEATURES "num_Hs" = Ok [0; 1; 2; 3; 4]%Z.
Proof. repeat split; vm_compute; reflexivity. Qed.

Lemma index_None `{EqDecision A} (v : A) (l : list A) :
  v ∉ l → index v l = None.
Proof.
  induction l as [|x l IH]; intros Hv; [done|].
  apply not_elem_of_cons in Hv as [Hne Hv]. cbn [index].
  rewrite decide_False by done. by rewrite IH.
Qed.


Lemma length_one_hot_encode `{EqDecision A} (val : A)
    (allowable_set : list A) (include_unknown_set : bool) :
  length (one_hot_encode val allowable_set include_unknown_set)
  = if include_unknown_set then length allowable_set + 1
    else length allowable_set.
Proof.
  unfold one_hot_encode, times.
  destruct (index val allowable_set), include_unknown_set;
    by rewrite ?length_insert, length_replicate.
Qed.


(** X2.  With [only_atom_num] the feature vector is the one-hot of the
    atomic number over [range(100)] with its unknown bucket, followed by
    zeros for all the other features: [ATOM_FDIM] entries in all, whatever
    the functional groups given. *)
Theorem atom_features_only_atom_num (atom : RDKitAtom)
    (functional_groups : option (list pynum)) :
  ∃ features,
    atom_features (Some atom) functional_groups true = Ok features
    ∧ features
      = get_atomic_num_one_hot atom (Z.of_nat <$> range 0 100) true
        ++ replicate 32 (PInt 0)
    ∧ length features = ATOM_FDIM.
Proof.
  destruct atom_feature_choices as (Hnum & _).
  unfold atom_features. rewrite Hnum, bind_Ok.
  eexists. split; [reflexivity|]. split; [reflexivity|].
  cbn [app]. rewrite length_app. unfold get_atomic_num_one_hot.
  rewrite length_one_hot_encode. reflexivity.
Qed.

(** X3.  [get_atomic_num_one_hot] over [range(100)] with the unknown bucket
    sets one entry of its 101: entry [z - 1] for an atomic number [z] from
    1 to 100, and the trailing unknown entry for any other atomic
    number. *)
Theorem atomic_num_one_hot_position (atom : RDKitAtom) :
  let z := GetAtomicNum atom in
  get_atomic_num_one_hot atom (Z.of_nat <$> range 0 100) true
  = <[(if decide (1 ≤ z ≤ 100)%Z then Z.to_nat (z - 1) else 100)
      := PInt 1]> (replicate 101 (PInt 0)).
Proof.
  intros z. unfold get_atomic_num_one_hot, one_hot_encode. fold z.
  case_decide as Hz.
  - replace (z - 1)%Z with (Z.of_nat (Z.to_nat (z - 1))) at 1 by lia.
    rewrite index_range by lia. reflexivity.
  - rewrite index_None; [reflexivity|].
    intros (k & Hk & Hin)%list_elem_of_fmap.
    apply elem_of_seq in Hin. lia.
Qed.


(** X5.  [get_atom_chiral_tag_one_hot] takes the tag as it is, with no
    offset: over the tags [[0, 1, 2, 3]] with the unknown bucket it sets
    entry [t] of its 5 for a tag [t] from 0 to 3, and the trailing
    unknown entry for any other tag. *)
Theorem chiral_tag_one_hot_position (atom : RDKitAtom) :
  let t := GetChiralTag atom in
  get_atom_chiral_tag_one_hot atom [0; 1; 2; 3]%Z true
  = <[(if decide (0 ≤ t ≤ 3)%Z then Z.to_nat t else 4) := PInt 1]>
      (replicate 5 (PInt 0)).
Proof.
  intros t. unfold get_atom_chiral_tag_one_hot, one_hot_encode. fold t.
  case_decide as Ht.
  - assert (t = 0 ∨ t = 1 ∨ t = 2 ∨ t = 3)%Z as [-> | [-> | [-> | ->]]]
      by lia; reflexivity.
  - rewrite index_None; [reflexivity|].
    rewrite !elem_of_cons, elem_of_nil. lia.
Qed.

Lemma index_lt `{EqDecision A} (v : A) (l : list A) (k : nat) :
  index v l = Some k → k < length l.
Proof.
  revert k. induction l as [|x l IH]; intros k; [done|].
  cbn [index length]. case_decide.
  - intros [= <-]. lia.
  - destruct (index v l) as [k'|]; [|done].
    intros [= <-]. specialize (IH k' eq_refl). lia.
Qed.

(** A one-hot with its unknown bucket always holds a 1. *)
Lemma elem_of_one_hot_unknown `{EqDecision A} (val : A)
    (allowable_set : list A) :
  PInt 1 ∈ one_hot_encode val allowable_set true.
Proof.
  unfold one_hot_encode, times.
  destruct (index val allowable_set) as [k|] eqn:Hk.
  - apply list_elem_of_insert. rewrite length_replicate.
    apply index_lt in Hk. lia.
  - apply list_elem_of_insert. rewrite length_replicate. lia.
Qed.

(** X6.  The null sentinels cannot be mistaken for features: whatever
    the mode and the functional groups, the features of an atom differ
    from those of no atom, and the features of a bond differ from those
    of no bond. *)
Theorem null_sentinels_are_distinct :
  (∀ (atom : RDKitAtom) functional_groups functional_groups'
     only_atom_num only_atom_num',
     atom_features (Some atom) functional_groups only_atom_num
     ≠ atom_features None functional_groups' only_atom_num')
  ∧ (∀ bond : RDKitBond, bond_features (Some bond) ≠ bond_features None).
Proof.
  split; [|intros bond; unfold bond_features; cbn [app]; congruence].
  intros atom fg fg' only only'.
  destruct atom_feature_choices as (Hnum & Hdeg & Hcharge & Htag & HHs).
  assert (∀ features,
            PInt 1 ∈ features →
            Ok features ≠ atom_features None fg' only') as Hne.
  { intros features Hin.
    change (atom_features None fg' only')
      with (Ok (times (PInt 0) ATOM_FDIM)).
    generalize ATOM_FDIM as n. intros n [= ->]. unfold times in Hin.
    by apply elem_of_replicate in Hin as [[=] _]. }
  pose proof (elem_of_one_hot_unknown (GetAtomicNum atom - 1)%Z
                (Z.of_nat <$> range 0 100)) as Hone.
  unfold atom_features. destruct only.
  - rewrite Hnum, bind_Ok. apply Hne. cbn [app].
    apply elem_of_app. by left.
  - rewrite Hnum, bind_Ok, Hdeg, bind_Ok, Hcharge, bind_Ok, Htag, bind_Ok,
      HHs, bind_Ok.
    cbn zeta.
    assert (∀ rest tail,
              PInt 1 ∈ (py_int
                          <$> ([] ++ get_atomic_num_one_hot atom
                                       (Z.of_nat <$> range 0 100) true)
                              ++ rest) ++ tail) as Hin.
    { intros rest tail. apply elem_of_app. left.
      rewrite fmap_app. apply elem_of_app. left.
      apply (list_elem_of_fmap_2 py_int _ (PInt 1)). exact Hone. }
    destruct fg as [fg|]; apply Hne.
    + rewrite <- !app_assoc. rewrite !app_assoc. 
      rewrite <- (app_assoc _ (get_atom_mass atom) fg).
      repeat rewrite <- (app_assoc ([] ++ _)). apply Hin.
    + repeat rewrite <- (app_assoc ([] ++ _)). apply Hin.
Qed.

End facts.
End EncodersMore.

(** ** Reactant/product alignment: counting, duplicates, edge cases *)
Module ReactionMore.
Import Reaction ReactionSpec ReactionFacts.
Section facts.
Context {F : PyFloat} {R : RDKit}.
Implicit Types (a b : RDKitAtom) (atoms : list RDKitAtom).
Implicit Types (table : gmap Z nat) (d : gmap nat nat) (l : list nat).

(** The value [map_reac_to_prod] returns, in closed form. *)
Lemma map_reac_to_prod_eq (mol_reac mol_prod : RDKitMol) :
  map_reac_to_prod mol_reac mol_prod
  = Ok (reac_dict (prod_table ∅ (GetAtoms mol_prod)) ∅ (GetAtoms mol_reac),
        GetIdx <$>
          filter
            (λ b, ¬ ((0 < GetAtomMapNum b)%Z
                     ∧ GetAtomMapNum b
                       ∈ (list_to_set (GetAtomMapNum <$> GetAtoms mol_reac)
                            : gset Z)))
            (GetAtoms mol_prod),
        GetIdx <$>
          filter
            (λ a, ¬ ((0 < GetAtomMapNum a)%Z
                     ∧ is_Some (prod_table ∅ (GetAtoms mol_prod)
                                  !! GetAtomMapNum a)))
            (GetAtoms mol_reac)).
Proof.
  unfold map_reac_to_prod. rewrite scan_prod_loop, bind_Ok.
  cbn beta iota. rewrite scan_reac_loop, bind_Ok. reflexivity.
Qed.

Lemma size_reac_dict table atoms d :
  NoDup (GetIdx <$> atoms) →
  (∀ a, a ∈ atoms → d !! GetIdx a = None) →
  size (reac_dict table d atoms)
  = size d
    + length (filter
                (λ a, (0 < GetAtomMapNum a)%Z
                      ∧ is_Some (table !! GetAtomMapNum a))
                atoms).
Proof.
  revert d. induction atoms as [|a atoms IH]; intros d Hnd Hfresh.
  { cbn. lia. }
  rewrite fmap_cons in Hnd. apply NoDup_cons in Hnd as [Ha Hnd].
  rewrite reac_dict_cons, filter_cons.
  assert (∀ a', a' ∈ atoms → GetIdx a' ≠ GetIdx a) as Hne.
  { intros a' Ha' Heq. apply Ha. rewrite <- Heq.
    by apply list_elem_of_fmap_2. }
  destruct (decide (0 < GetAtomMapNum a)%Z) as [Hpos|Hpos].
  - destruct (table !! GetAtomMapNum a) as [p|] eqn:Hp.
    + rewrite decide_True by eauto. rewrite IH; [|done|].
      * rewrite map_size_insert_None by apply Hfresh, list_elem_of_here.
        cbn [length]. lia.
      * intros a' Ha'. rewrite lookup_insert_ne by (symmetry; by apply Hne).
        by apply Hfresh, list_elem_of_further.
    + rewrite decide_False by (intros [_ [? ?]]; congruence).
      apply IH; [done|]. intros a' Ha'.
      by apply Hfresh, list_elem_of_further.
  - rewrite decide_False by tauto.
    apply IH; [done|]. intros a' Ha'.
    by apply Hfresh, list_elem_of_further.
Qed.

Lemma length_filter_complement {A : Type} (P : A → Prop)
    `{!∀ x, Decision (P x)} (xs : list A) :
  length (filter P xs) + length (filter (λ x, ¬ P x) xs) = length xs.
Proof.
  rewrite <- length_app. apply Permutation_length, filter_app_complement.
Qed.

(** X7.  Every reactant atom is filed once: with distinct atom indices, the
    entries of the dictionary and the only-reactant list add up to the
    atoms of the reactant, an index of the only-reactant list is no key of
    the dictionary, and every atom is in one of the two. *)
Theorem reactant_atoms_filed_once (mol_reac mol_prod : RDKitMol) :
  NoDup (GetIdx <$> GetAtoms mol_reac) →
  ∃ reac_id_to_prod_id only_prod_ids only_reac_ids,
    map_reac_to_prod mol_reac mol_prod
    = Ok (reac_id_to_prod_id, only_prod_ids, only_reac_ids)
    ∧ size reac_id_to_prod_id + length only_reac_ids
      = length (GetAtoms mol_reac)
    ∧ (∀ i, i ∈ only_reac_ids → reac_id_to_prod_id !! i = None)
    ∧ (∀ a, a ∈ GetAtoms mol_reac →
            is_Some (reac_id_to_prod_id !! GetIdx a)
            ∨ GetIdx a ∈ only_reac_ids).
Proof.
  intros Hnd. rewrite map_reac_to_prod_eq. eexists _, _, _.
  split; [reflexivity|].
  set (table := prod_table ∅ (GetAtoms mol_prod)).
  split; [|split].
  - rewrite size_reac_dict, map_size_empty, length_fmap; [|done|done].
    cbn [Nat.add]. apply length_filter_complement.
  - intros i (a & -> & [Hun Ha]%list_elem_of_filter)%list_elem_of_fmap.
    destruct (reac_dict table ∅ (GetAtoms mol_reac) !! GetIdx a) as [p|]
      eqn:Hp; [|done].
    apply reac_dict_lookup_Some in Hp as [Hp|(a' & Ha' & Hidx & Hpos & Hp)].
    { by rewrite lookup_empty in Hp. }
    assert (a' = a) as -> by by eapply NoDup_fmap_inj.
    exfalso. apply Hun. eauto.
  - intros a Ha.
    destruct (decide ((0 < GetAtomMapNum a)%Z
                      ∧ is_Some (table !! GetAtomMapNum a)))
      as [[Hpos [p Hp]]|Hun].
    + left. exists p. by apply reac_dict_lookup.
    + right. by apply list_elem_of_fmap_2, list_elem_of_filter.
Qed.

Lemma prod_table_app table atoms1 atoms2 :
  prod_table table (atoms1 ++ atoms2)
  = prod_table (prod_table table atoms1) atoms2.
Proof. unfold prod_table. apply foldl_app. Qed.

Lemma prod_table_other table atoms m :
  (∀ b, b ∈ atoms → GetAtomMapNum b ≠ m) →
  prod_table table atoms !! m = table !! m.
Proof.
  revert table. induction atoms as [|b atoms IH]; intros table Hm; [done|].
  change (prod_table table (b :: atoms))
    with (prod_table
            (if decide (0 < GetAtomMapNum b)%Z
             then <[GetAtomMapNum b := GetIdx b]> table else table) atoms).
  rewrite IH by (intros b' Hb'; by apply Hm, list_elem_of_further).
  case_decide; [|done].
  apply lookup_insert_ne, Hm, list_elem_of_here.
Qed.

(** X8.  When several product atoms carry the same map number, the last of
    them wins: a reactant atom with that number is mapped to the index of
    the last such product atom. *)
Theorem last_product_atom_wins (mol_reac mol_prod : RDKitMol)
    (before after : list RDKitAtom) (b : RDKitAtom) :
  NoDup (GetIdx <$> GetAtoms mol_reac) →
  GetAtoms mol_prod = before ++ b :: after →
  (0 < GetAtomMapNum b)%Z →
  (∀ b', b' ∈ after → GetAtomMapNum b' ≠ GetAtomMapNum b) →
  ∃ reac_id_to_prod_id only_prod_ids only_reac_ids,
    map_reac_to_prod mol_reac mol_prod
    = Ok (reac_id_to_prod_id, only_prod_ids, only_reac_ids)
    ∧ ∀ a, a ∈ GetAtoms mol_reac →
           GetAtomMapNum a = GetAtomMapNum b →
           reac_id_to_prod_id !! GetIdx a = Some (GetIdx b).
Proof.
  intros Hnd Hprod Hpos Hafter. rewrite map_reac_to_prod_eq.
  eexists _, _, _. split; [reflexivity|].
  intros a Ha Hmap. apply reac_dict_lookup; [done|done|lia|].
  rewrite Hmap, Hprod, prod_table_app.
  change (prod_table ?t (b :: after))
    with (prod_table
            (if decide (0 < GetAtomMapNum b)%Z
             then <[GetAtomMapNum b := GetIdx b]> t else t) after).
  rewrite prod_table_other by done.
  rewrite decide_True by done. apply lookup_insert_eq.
Qed.


Lemma filter_all {A : Type} (P : A → Prop) `{!∀ x, Decision (P x)}
    (xs : list A) :
  (∀ x, x ∈ xs → P x) → filter P xs = xs.
Proof.
  induction xs as [|x xs IH]; intros HP; [done|].
  rewrite filter_cons, decide_True by apply HP, list_elem_of_here.
  rewrite IH; [done|]. intros y Hy. by apply HP, list_elem_of_further.
Qed.

Lemma reac_dict_unmapped table atoms d :
  (∀ a, a ∈ atoms → (0 < GetAtomMapNum a)%Z →
        table !! GetAtomMapNum a = None) →
  reac_dict table d atoms = d.
Proof.
  revert d. induction atoms as [|a atoms IH]; intros d Hun; [done|].
  rewrite reac_dict_cons.
  rewrite IH by (intros a' Ha'; by apply Hun, list_elem_of_further).
  case_decide as Hpos; [|done].
  by rewrite (Hun a (list_elem_of_here _ _) Hpos).
Qed.

(** X10.  When the two molecules share no positive map number (one of them
    is empty, one of them is unmapped, or their numbers differ), nothing is
    aligned: the dictionary is empty and the two lists hold all the
    indices of the product and of the reactant, in order. *)
Theorem nothing_shared_nothing_aligned (mol_reac mol_prod : RDKitMol) :
  (∀ a b, a ∈ GetAtoms mol_reac → b ∈ GetAtoms mol_prod →
          (0 < GetAtomMapNum a)%Z →
          GetAtomMapNum a ≠ GetAtomMapNum b) →
  map_reac_to_prod mol_reac mol_prod
  = Ok (∅, GetIdx <$> GetAtoms mol_prod, GetIdx <$> GetAtoms mol_reac).
Proof.
  intros Hshare. rewrite map_reac_to_prod_eq.
  assert (∀ a, a ∈ GetAtoms mol_reac → (0 < GetAtomMapNum a)%Z →
               prod_table ∅ (GetAtoms mol_prod) !! GetAtomMapNum a = None)
    as Hnone.
  { intros a Ha Hpos.
    destruct (prod_table ∅ (GetAtoms mol_prod) !! GetAtomMapNum a) as [p|]
      eqn:Hp; [|done].
    apply prod_table_lookup_Some in Hp as [Hp|(_ & b & Hb & Hm & _)].
    - by rewrite lookup_empty in Hp.
    - by destruct (Hshare a b Ha Hb Hpos). }
  rewrite reac_dict_unmapped by done.
  rewrite !filter_all; [done| |].
  - intros a Ha [Hpos [p Hp]]. by rewrite Hnone in Hp.
  - intros b Hb [Hpos Hin]. apply elem_of_list_to_set in Hin.
    apply list_elem_of_fmap in Hin as (a & Hm & Ha).
    apply (Hshare a b Ha Hb); [lia | done].
Qed.

(** X11.  The only-product list holds the product atoms without a partner
    and no other: with distinct atom indices in the product, the index of a
    product atom is in the list exactly when its map number is not
    positive or no reactant atom carries it. *)
Theorem only_product_exact (mol_reac mol_prod : RDKitMol) :
  NoDup (GetIdx <$> GetAtoms mol_prod) →
  ∃ reac_id_to_prod_id only_prod_ids only_reac_ids,
    map_reac_to_prod mol_reac mol_prod
    = Ok (reac_id_to_prod_id, only_prod_ids, only_reac_ids)
    ∧ ∀ b, b ∈ GetAtoms mol_prod →
           GetIdx b ∈ only_prod_ids
           ↔ ¬ ((0 < GetAtomMapNum b)%Z
                ∧ ∃ a, a ∈ GetAtoms mol_reac
                       ∧ GetAtomMapNum a = GetAtomMapNum b).
Proof.
  intros Hnd. rewrite map_reac_to_prod_eq. eexists _, _, _.
  split; [reflexivity|]. intros b Hb.
  assert (GetAtomMapNum b
          ∈ (list_to_set (GetAtomMapNum <$> GetAtoms mol_reac) : gset Z)
          ↔ ∃ a, a ∈ GetAtoms mol_reac ∧ GetAtomMapNum a = GetAtomMapNum b)
    as Hset.
  { rewrite elem_of_list_to_set, list_elem_of_fmap.
    split; intros (a & Ha1 & Ha2); exists a; by split. }
  split.
  - intros (b' & Hidx & [Hun Hb']%list_elem_of_filter)%list_elem_of_fmap.
    assert (b = b') as <- by by eapply NoDup_fmap_inj.
    rewrite <- Hset. exact Hun.
  - intros Hun. apply list_elem_of_fmap_2, list_elem_of_filter.
    split; [|done]. by rewrite Hset.
Qed.

End facts.

Section test_molecules.
Import Examples MoreExamples.

Local Abbreviation toy_map := (map_reac_to_prod (R := toy_rdkit)).

Lemma toy_reactant_NoDup :
  NoDup (@GetIdx _ toy_rdkit <$> @GetAtoms _ toy_rdkit reactant).
Proof. apply (bool_decide_unpack _). vm_compute. exact I. Qed.

(** The test reaction: one entry and two only-reactant atoms for the three
    atoms of the reactant. *)
Lemma reactant_atoms_filed_once_witness :
  NoDup (@GetIdx _ toy_rdkit <$> @GetAtoms _ toy_rdkit reactant)
  ∧ ∃ reac_id_to_prod_id only_prod_ids only_reac_ids,
      toy_map reactant product
      = Ok (reac_id_to_prod_id, only_prod_ids, only_reac_ids)
      ∧ size reac_id_to_prod_id + length only_reac_ids = 3.
Proof.
  split; [exact toy_reactant_NoDup|].
  destruct (reactant_atoms_filed_once (R := toy_rdkit) reactant product
              toy_reactant_NoDup)
    as (d & only_prod & only_reac & Heq & Hcount & _).
  exists d, only_prod, only_reac. split; [exact Heq | exact Hcount].
Defined.

(** Atom 0 of the reactant carries the number 1, as the atoms 0 and 1 of
    [product_twice] do: it is mapped to atom 1. *)
Lemma last_product_atom_wins_witness :
  ∃ reac_id_to_prod_id only_prod_ids only_reac_ids,
    toy_map reactant product_twice
    = Ok (reac_id_to_prod_id, only_prod_ids, only_reac_ids)
    ∧ reac_id_to_prod_id !! 0 = Some 1.
Proof.
  destruct (last_product_atom_wins (R := toy_rdkit) reactant product_twice
              [carbon 0 1] [carbon 2 0] (carbon 1 1) toy_reactant_NoDup)
    as (d & only_prod & only_reac & Heq & Hlast).
  - reflexivity.
  - reflexivity.
  - intros b' ->%list_elem_of_singleton. discriminate.
  - exists d, only_prod, only_reac. split; [exact Heq|].
    apply (Hlast (carbon 0 1)); [apply list_elem_of_here | reflexivity].
Defined.

Lemma toy_product_NoDup :
  NoDup (@GetIdx _ toy_rdkit <$> @GetAtoms _ toy_rdkit product).
Proof. apply (bool_decide_unpack _). vm_compute. exact I. Qed.



(** Propane and ethane carry no map number. *)
Lemma nothing_shared_nothing_aligned_witness :
  toy_map propane ethane = Ok (∅, [0; 1], [0; 1; 2]).
Proof.
  apply (nothing_shared_nothing_aligned (R := toy_rdkit) propane ethane).
  intros a b Ha _ Hpos. exfalso. cbn in Ha.
  repeat match goal with
  | H : _ ∈ _ :: _ |- _ => apply elem_of_cons in H as [->|H]
  | H : _ ∈ [] |- _ => by apply elem_of_nil in H
  end; cbn in Hpos; lia.
Defined.

(** The test reaction: the atoms 0 and 2 of the product have no partner,
    atom 1 has one. *)
Lemma only_product_exact_witness :
  ∃ reac_id_to_prod_id only_prod_ids only_reac_ids,
    toy_map reactant product
    = Ok (reac_id_to_prod_id, only_prod_ids, only_reac_ids)
    ∧ ∀ b, b ∈ toy_atoms product →
           toy_idx b ∈ only_prod_ids
           ↔ ¬ ((0 < toy_map_num b)%Z
                ∧ ∃ a, a ∈ toy_atoms reactant
                       ∧ toy_map_num a = toy_map_num b).
Proof.
  exact (only_product_exact (R := toy_rdkit) reactant product
           toy_product_NoDup).
Defined.

End test_molecules.
End ReactionMore.

(** ** The directed-bond indexer: contents of the tables, errors,
       idempotence *)
Module MapperMore.
Import Mapper MapperSpec MapperFacts MapperTables.
Section facts.
Context {F : PyFloat} {R : RDKit} {U : FeatureUtils}.
Implicit Types (self : MapperDMPNN) (mol : RDKitMol).
Implicit Types (ps : list (nat * nat)) (p : nat * nat).
Implicit Types (f_atoms : ndarray float).

(** *** The constructor in two halves *)

(** After the discovery the constructor only replaces the table of
    incoming bonds and the mapping. *)
Lemma init_decompose mol concat_fdim f_atoms self :
  __init__ mol concat_fdim f_atoms = Ok self →
  ∃ discovery table m,
    after_discovery mol concat_fdim f_atoms = Ok discovery
    ∧ self = set_mapping (set_atom_to_incoming_bonds discovery table) m.
Proof.
  unfold __init__, _generate_mapping. intros Hrun.
  destruct (after_discovery_init mol concat_fdim f_atoms)
    as (self0 & Hinit & Hafter).
  rewrite Hinit, bind_Ok in Hrun.
  apply bind_Ok_inv in Hrun as (self1 & Hloops & Hrun).
  rewrite <- Hafter in Hloops.
  pose proof (after_discovery_spec _ _ _ _ Hloops) as Hd.
  destruct (decide (shape0 f_atoms = 0)) as [Hz|Hnz].
  { by rewrite (modify_based_on_max_bonds_empty _ _ _ _ _ Hd Hz) in Hrun. }
  rewrite (generate_mapping_tail _ _ _ _ Hd) in Hrun by lia.
  unfold _replace_rev_bonds, enumerate in Hrun.
  apply (replace_loop_spec _ 0) in Hrun as (m & -> & _).
  eexists self1, _, m. split; [done|]. reflexivity.
Qed.

(** *** The rows of the concatenated table *)

Lemma concat_rows_snoc mol concat_fdim f_atoms ps p :
  concat_rows mol concat_fdim f_atoms (ps ++ [p])
  = concat_rows mol concat_fdim f_atoms ps ++ rows_of_bond mol f_atoms p.
Proof.
  unfold concat_rows. rewrite bind_app. cbn [mbind list_bind].
  by rewrite app_nil_r.
Qed.

Lemma discover_found_rows mol concat_fdim f_atoms ps self a1 a2 bond self' :
  discovered mol concat_fdim f_atoms ps self →
  GetBondBetweenAtoms mol (a1 - 1) (a2 - 1) = Some bond →
  discover self a1 a2 = Ok self' →
  data (f_ini_atoms_bonds_zero_padded self')
  = data (f_ini_atoms_bonds_zero_padded self)
    ++ mjoin (rows_of_bond mol f_atoms (a1, a2))
  ∧ Forall (λ row, length row = concat_fdim)
      (rows_of_bond mol f_atoms (a1, a2)).
Proof.
  intros [Hmol Hcf Hfa _ _ _ _ _ _ _ _ _ _] Hbond Hrun.
  unfold discover in Hrun.
  apply bind_Ok_inv in Hrun as ([found s1] & Hucv & Hrun).
  unfold _update_concat_vector in Hucv. rewrite Hmol, Hbond in Hucv.
  set (fb := to_float <$> Encoders.bond_features (Some bond)) in Hucv.
  apply bind_Ok_inv in Hucv
    as (sa & (rowa & Hrowa & Hlena & _ & ->)%extend_concat_feature_Ok
        & Hucv).
  apply bind_Ok_inv in Hucv
    as (sb & (rowb & Hrowb & Hlenb & _ & ->)%extend_concat_feature_Ok
        & Hucv).
  injection Hucv as <- <-.
  rewrite decide_False in Hrun by done.
  apply bind_Ok_inv in Hrun
    as (s2 & (row2 & row1 & _ & _ & ->)%update_secondary_mappings_Ok
        & Hrun).
  injection Hrun as <-.
  cbn -[fb] in Hrowa, Hrowb, Hlena, Hlenb. rewrite Hfa in Hrowa, Hrowb.
  apply nd_row_Ok in Hrowa as [_ ->]. apply nd_row_Ok in Hrowb as [_ ->].
  unfold rows_of_bond. cbn [fst snd]. rewrite Hbond. fold fb.
  fold (atom_row f_atoms a1) in *. fold (atom_row f_atoms a2) in *.
  split.
  - cbn -[fb]. by rewrite app_nil_r, <- !app_assoc.
  - rewrite <- Hcf. repeat constructor; done.
Qed.

Lemma discovery_pairs_rows mol concat_fdim f_atoms
    (visit : list (nat * nat)) ps self self' :
  discovered mol concat_fdim f_atoms ps self →
  (∀ p, p ∈ visit →
        p.1 ≠ p.2 ∧ p.1 < shape0 f_atoms ∧ p.2 < shape0 f_atoms) →
  data (f_ini_atoms_bonds_zero_padded self)
  = mjoin (concat_rows mol concat_fdim f_atoms ps) →
  Forall (λ row, length row = concat_fdim)
    (concat_rows mol concat_fdim f_atoms ps) →
  for_each (λ s p, discover s p.1 p.2) visit self = Ok self' →
  data (f_ini_atoms_bonds_zero_padded self')
  = mjoin (concat_rows mol concat_fdim f_atoms
             (ps ++ filter (bonded mol) visit))
  ∧ Forall (λ row, length row = concat_fdim)
      (concat_rows mol concat_fdim f_atoms
         (ps ++ filter (bonded mol) visit)).
Proof.
  revert ps self. induction visit as [|p visit IH];
    intros ps self Hd Hvisit Hdata Hlen Hrun.
  { injection Hrun as <-. by rewrite filter_nil, app_nil_r. }
  rewrite for_each_cons in Hrun.
  apply bind_Ok_inv in Hrun as (s1 & Hstep & Hrun).
  destruct (Hvisit p) as (Hne & H1 & H2); [apply list_elem_of_here|].
  assert (∀ q, q ∈ visit →
            q.1 ≠ q.2 ∧ q.1 < shape0 f_atoms ∧ q.2 < shape0 f_atoms)
    as Hvisit'.
  { intros q Hq. by apply Hvisit, list_elem_of_further. }
  destruct (GetBondBetweenAtoms mol (p.1 - 1) (p.2 - 1)) as [bond|]
    eqn:Hbond.
  - rewrite filter_cons_True by (unfold bonded; rewrite Hbond; eauto).
    replace (ps ++ p :: filter (bonded mol) visit)
      with ((ps ++ [p]) ++ filter (bonded mol) visit)
      by by rewrite <- app_assoc.
    destruct p as [a1 a2]. cbn [fst snd] in *.
    destruct (discover_found_rows _ _ _ _ _ _ _ _ _ Hd Hbond Hstep)
      as [Hdata1 Hlen1].
    apply (IH _ s1); [by eapply discover_found|done| |  |done].
    + by rewrite concat_rows_snoc, join_app, <- Hdata.
    + rewrite concat_rows_snoc. by apply Forall_app.
  - rewrite filter_cons_False
      by (unfold bonded; rewrite Hbond; by intros [? ?]).
    rewrite discover_absent in Hstep
      by (by rewrite (disc_datapoint _ _ _ _ _ Hd)).
    injection Hstep as Heq. subst s1. by apply (IH ps self).
Qed.

(** The buffer of the concatenated table after the discovery. *)
Lemma after_discovery_rows mol concat_fdim f_atoms self :
  after_discovery mol concat_fdim f_atoms = Ok self →
  data (f_ini_atoms_bonds_zero_padded self)
  = mjoin (concat_rows mol concat_fdim f_atoms
             (real_bonds mol (shape0 f_atoms)))
  ∧ Forall (λ row, length row = concat_fdim)
      (concat_rows mol concat_fdim f_atoms
         (real_bonds mol (shape0 f_atoms))).
Proof.
  unfold after_discovery.
  destruct (init_attributes_spec mol concat_fdim f_atoms)
    as (self0 & Hinit & Hd & Hend).
  rewrite Hinit, bind_Ok, discovery_loops_pairs, Hend. intros Hrun.
  apply (discovery_pairs_rows _ _ _ _ [] self0 self Hd); [| | |done].
  - apply atom_pairs_in_range.
  - pose proof (disc_padding_row _ _ _ _ _ Hd) as Hpad.
    pose proof (disc_data_length _ _ _ _ _ Hd) as Hlen.
    rewrite take_ge in Hpad by (rewrite Hlen; cbn; lia).
    rewrite Hpad. cbn. by rewrite app_nil_r.
  - constructor; [|constructor]. by rewrite length_replicate.
Qed.

Lemma lookup_concat_rows mol concat_fdim f_atoms ps j p bond :
  (∀ q, q ∈ ps → bonded mol q) →
  ps !! j = Some p →
  GetBondBetweenAtoms mol (p.1 - 1) (p.2 - 1) = Some bond →
  let f_bond := to_float <$> Encoders.bond_features (Some bond) in
  concat_rows mol concat_fdim f_atoms ps !! (2 * j + 1)
  = Some (atom_row f_atoms p.1 ++ f_bond)
  ∧ concat_rows mol concat_fdim f_atoms ps !! (2 * j + 2)
    = Some (atom_row f_atoms p.2 ++ f_bond).
Proof.
  intros Hps Hj Hbond f_bond. unfold concat_rows.
  replace (2 * j + 1) with (S (2 * j)) by lia.
  replace (2 * j + 2) with (S (2 * j + 1)) by lia.
  change ((ps ≫= rows_of_bond mol f_atoms) !! (2 * j)
          = Some (atom_row f_atoms p.1 ++ f_bond)
          ∧ (ps ≫= rows_of_bond mol f_atoms) !! (2 * j + 1)
            = Some (atom_row f_atoms p.2 ++ f_bond)).
  revert j Hj. induction ps as [|q ps IH]; intros j Hj; [done|].
  rewrite bind_cons. destruct j as [|j].
  - injection Hj as ->. unfold rows_of_bond at 1 3. rewrite Hbond. done.
  - cbn in Hj.
    destruct (Hps q) as [bq Hbq]; [apply list_elem_of_here|].
    unfold rows_of_bond at 1 3. rewrite Hbq.
    replace (2 * S j) with (S (S (2 * j))) by lia.
    replace (2 * S j + 1) with (S (S (2 * j + 1))) by lia.
    apply IH; [|done]. intros q' Hq'. by apply Hps, list_elem_of_further.
Qed.

Lemma length_concat_rows mol concat_fdim f_atoms ps :
  (∀ q, q ∈ ps → bonded mol q) →
  length (concat_rows mol concat_fdim f_atoms ps) = 2 * length ps + 1.
Proof.
  intros Hps. unfold concat_rows. cbn [length].
  assert (length (ps ≫= rows_of_bond mol f_atoms) = 2 * length ps) as ->;
    [|lia].
  induction ps as [|q ps IH]; [done|].
  rewrite bind_cons, length_app, IH
    by (intros q' Hq'; by apply Hps, list_elem_of_further).
  destruct (Hps q) as [bq Hbq]; [apply list_elem_of_here|].
  unfold rows_of_bond. rewrite Hbq. cbn [length]. lia.
Qed.

(** X12.  The rows of the concatenated table: for the bond discovered in
    position [j], between [a1] and [a2], row [2j + 1] is the feature row of
    [a1] followed by the features of the bond, and row [2j + 2] is the
    feature row of [a2] followed by the same bond features. *)
Theorem concat_rows_content mol concat_fdim f_atoms self j a1 a2 bond :
  __init__ mol concat_fdim f_atoms = Ok self →
  real_bonds mol (shape0 f_atoms) !! j = Some (a1, a2) →
  GetBondBetweenAtoms mol (a1 - 1) (a2 - 1) = Some bond →
  let f_bond := to_float <$> Encoders.bond_features (Some bond) in
  ∃ f_atom1 f_atom2,
    nd_row f_atoms a1 = Ok f_atom1
    ∧ nd_row f_atoms a2 = Ok f_atom2
    ∧ nd_row (f_ini_atoms_bonds_zero_padded self) (2 * j + 1)
      = Ok (f_atom1 ++ f_bond)
    ∧ nd_row (f_ini_atoms_bonds_zero_padded self) (2 * j + 2)
      = Ok (f_atom2 ++ f_bond).
Proof.
  intros Hrun Hj Hbond f_bond.
  destruct (init_decompose _ _ _ _ Hrun)
    as (discovery & table & m & Hdisc & ->).
  cbn [f_ini_atoms_bonds_zero_padded set_mapping
       set_atom_to_incoming_bonds].
  pose proof (after_discovery_spec _ _ _ _ Hdisc) as Hd.
  destruct (after_discovery_rows _ _ _ _ Hdisc) as [Hdata Hlen].
  pose proof (list_elem_of_lookup_2 _ _ _ Hj) as Hp.
  apply (real_bonds_in_range mol (shape0 f_atoms)) in Hp.
  cbn [fst snd] in Hp.
  assert (∀ q, q ∈ real_bonds mol (shape0 f_atoms) → bonded mol q)
    as Hbonded.
  { intros q Hq. by apply elem_of_real_bonds in Hq as [_ Hq]. }
  destruct (lookup_concat_rows mol concat_fdim f_atoms _ j (a1, a2) bond
              Hbonded Hj Hbond) as [H1 H2].
  pose proof (length_concat_rows mol concat_fdim f_atoms _ Hbonded) as Hrows.
  exists (atom_row f_atoms a1), (atom_row f_atoms a2).
  split; [apply nd_row_Ok; split; [lia | done]|].
  split; [apply nd_row_Ok; split; [lia | done]|].
  assert (f_ini_atoms_bonds_zero_padded discovery
          = NdArray (2 * length (real_bonds mol (shape0 f_atoms)) + 1)
              concat_fdim
              (mjoin (concat_rows mol concat_fdim f_atoms
                        (real_bonds mol (shape0 f_atoms))))) as ->.
  { pose proof (disc_shape0 _ _ _ _ _ Hd) as Hs0.
    pose proof (disc_shape1 _ _ _ _ _ Hd) as Hs1.
    destruct (f_ini_atoms_bonds_zero_padded discovery) as [s0 s1 d].
    cbn in *. by subst. }
  split; by apply nd_row_join.
Qed.

(** *** Entries of the tables *)

Lemma elem_of_scrub rev row x : x ∈ scrub rev row → x = 0 ∨ x ∈ row.
Proof.
  unfold scrub. intros (y & -> & Hy)%list_elem_of_fmap.
  case_decide; [by left | by right].
Qed.

Lemma elem_of_pad_inv width row x : x ∈ pad width row → x = 0 ∨ x ∈ row.
Proof.
  unfold pad. intros [?| [-> _]%elem_of_replicate]%elem_of_app; auto.
Qed.

Lemma elem_of_scrub_pad rev width row x :
  x ≠ 0 → x ∈ scrub rev (pad width row) ↔ x ∈ row ∧ x ≠ rev.
Proof.
  intros Hx. split.
  - unfold scrub. intros (y & Hy & Hin)%list_elem_of_fmap.
    case_decide; [done|]. subst y.
    by apply elem_of_pad_inv in Hin as [?|?].
  - intros [Hin Hne]. apply elem_of_scrub_ne; [|done]. by apply elem_of_pad.
Qed.

Lemma rev_id_le n b : 1 ≤ b ≤ 2 * n → rev_id b ≤ 2 * n.
Proof.
  intros Hb. unfold rev_id. destruct (Nat.odd b) eqn:Hodd; [|lia].
  apply Nat.odd_spec in Hodd as [m ->]. lia.
Qed.

Lemma rev_id_ne b : 1 ≤ b → rev_id b ≠ b.
Proof. unfold rev_id. destruct (Nat.odd b); lia. Qed.

Lemma pad_nil width : pad width [] = replicate width 0.
Proof. unfold pad. cbn. by rewrite Nat.sub_0_r. Qed.

Lemma scrub_zeros rev n : scrub rev (replicate n 0) = replicate n 0.
Proof.
  unfold scrub. rewrite fmap_replicate. by case_decide.
Qed.

Lemma scrub_idemp rev row : scrub rev (scrub rev row) = scrub rev row.
Proof.
  unfold scrub. rewrite <- list_fmap_compose. apply list_fmap_ext.
  intros _ x _. cbn. repeat case_decide; congruence.
Qed.

(** The row of the mapping of any id up to [num_bonds]. *)
Lemma constructed_mapping_row mol concat_fdim f_atoms self i :
  constructed mol concat_fdim f_atoms self →
  i ≤ num_bonds self →
  ∃ a,
    bond_to_ini_atom self !! i = Some a
    ∧ a < shape0 f_atoms
    ∧ b2revb self !! i = Some (if decide (i = 0) then 0 else rev_id i)
    ∧ nd_row (mapping self) i
      = Ok (scrub (if decide (i = 0) then 0 else rev_id i)
              (pad (max_width (real_bonds mol (shape0 f_atoms))
                      (shape0 f_atoms))
                 (incoming (real_bonds mol (shape0 f_atoms)) a))).
Proof.
  intros Hc Hi.
  destruct (constructed_ini_lookup _ _ _ _ Hc i Hi) as (a & Ha & Hlt).
  assert (b2revb self !! i
          = Some (if decide (i = 0) then 0 else rev_id i)) as Hrev.
  { case_decide as Hz.
    - subst i. by rewrite (constructed_rev _ _ _ _ Hc).
    - apply (constructed_rev_lookup _ _ _ _ Hc). lia. }
  exists a. repeat split; [done..|].
  by apply (cons_rows _ _ _ _ Hc).
Qed.

(** A directed bond points into [a] exactly when its reverse starts at
    [a]. *)
Lemma incoming_iff_reverse_source mol concat_fdim f_atoms self x a :
  constructed mol concat_fdim f_atoms self →
  1 ≤ x ≤ num_bonds self →
  x ∈ incoming (real_bonds mol (shape0 f_atoms)) a
  ↔ bond_to_ini_atom self !! rev_id x = Some a.
Proof.
  intros Hc Hx.
  pose proof (constructed_num_bonds _ _ _ _ Hc) as Hnb.
  assert (1 ≤ rev_id x ≤ num_bonds self) as Hr.
  { split; [apply rev_id_pos; lia|]. rewrite Hnb. apply rev_id_le. lia. }
  split.
  - intros Hin.
    destruct (constructed_ini_lookup _ _ _ _ Hc (rev_id x)) as (a' & Ha' & _);
      [lia|].
    pose proof (reverse_points_into_source _ _ _ _ _ _ Hc Hr Ha') as Hin'.
    rewrite rev_id_involutive in Hin' by lia.
    by rewrite (incoming_atom_unique _ _ _ _ Hin Hin').
  - intros Ha.
    pose proof (reverse_points_into_source _ _ _ _ _ _ Hc Hr Ha) as Hin.
    by rewrite rev_id_involutive in Hin by lia.
Qed.

(** X13.  Index 0 is padding in every table: [bond_to_ini_atom] and
    [b2revb] have [num_bonds + 1] entries and start with 0, and row 0 of
    the table of incoming bonds and of [mapping] holds zeros only. *)
Theorem index_zero_is_padding mol concat_fdim f_atoms self :
  __init__ mol concat_fdim f_atoms = Ok self →
  length (bond_to_ini_atom self) = num_bonds self + 1
  ∧ length (b2revb self) = num_bonds self + 1
  ∧ bond_to_ini_atom self !! 0 = Some 0
  ∧ b2revb self !! 0 = Some 0
  ∧ atom_to_incoming_bonds self !! 0
    = Some (replicate (shape1 (mapping self)) 0)
  ∧ nd_row (mapping self) 0 = Ok (replicate (shape1 (mapping self)) 0).
Proof.
  intros Hc%init_spec.
  pose proof (constructed_num_bonds _ _ _ _ Hc) as Hnb.
  pose proof (constructed_ini _ _ _ _ Hc) as Hini.
  pose proof (constructed_rev _ _ _ _ Hc) as Hrev.
  pose proof (cons_atoms _ _ _ _ Hc) as Hatoms.
  rewrite (cons_shape1 _ _ _ _ Hc).
  assert (atom_to_incoming_bonds self !! 0
          = Some (replicate (max_width (real_bonds mol (shape0 f_atoms))
                               (shape0 f_atoms)) 0)) as Htable.
  { rewrite (constructed_table_lookup _ _ _ _ Hc 0) by lia.
    by rewrite incoming_padding_atom, pad_nil. }
  repeat split.
  - rewrite Hini, Hnb. cbn [length]. rewrite length_ini_atoms. lia.
  - rewrite Hrev, Hnb. cbn [length]. rewrite length_fmap, length_seq. lia.
  - by rewrite Hini.
  - by rewrite Hrev.
  - done.
  - destruct (constructed_mapping_row _ _ _ _ 0 Hc) as (a & Ha & _ & _ & Hrow);
      [lia|].
    rewrite Hini in Ha. injection Ha as <-.
    by rewrite Hrow, incoming_padding_atom, pad_nil, scrub_zeros.
Qed.

(** X14.  Every index the object stores is in range of the table it
    points into: source atoms index the table of atom features, reverse
    ids and incoming bonds are at most [num_bonds], and every entry of
    [mapping] is a row of the concatenated table and of [mapping]. *)
Theorem stored_indices_in_range mol concat_fdim f_atoms self :
  __init__ mol concat_fdim f_atoms = Ok self →
  (∀ a, a ∈ bond_to_ini_atom self → a < shape0 f_atoms)
  ∧ (∀ r, r ∈ b2revb self → r ≤ num_bonds self)
  ∧ (∀ row x,
       row ∈ atom_to_incoming_bonds self → x ∈ row → x ≤ num_bonds self)
  ∧ (∀ i row x,
       nd_row (mapping self) i = Ok row → x ∈ row →
       x < shape0 (f_ini_atoms_bonds_zero_padded self)
       ∧ x < shape0 (mapping self)).
Proof.
  intros Hc%init_spec.
  pose proof (constructed_num_bonds _ _ _ _ Hc) as Hnb.
  pose proof (cons_atoms _ _ _ _ Hc) as Hatoms.
  split; [|split; [|split]].
  - intros a Ha. rewrite (constructed_ini _ _ _ _ Hc) in Ha.
    by apply (ini_atoms_in_range mol).
  - intros r Hr. rewrite (constructed_rev _ _ _ _ Hc) in Hr.
    apply elem_of_cons in Hr as [->|Hr]; [lia|].
    apply list_elem_of_fmap in Hr as (b & -> & Hb).
    apply elem_of_seq in Hb. rewrite Hnb. apply rev_id_le. lia.
  - intros row x Hrow Hx. rewrite (cons_table _ _ _ _ Hc) in Hrow.
    apply list_elem_of_fmap in Hrow as (a & -> & _).
    apply elem_of_pad_inv in Hx as [->|Hx]; [lia|].
    apply incoming_bounds in Hx. lia.
  - intros i row x Hrow Hx.
    pose proof (disc_shape0 _ _ _ _ _ (cons_discovered _ _ _ _ Hc)) as Hs0.
    cbn in Hs0. rewrite Hs0, (cons_shape0 _ _ _ _ Hc).
    apply nd_row_Ok in Hrow as Hi. destruct Hi as [Hi _].
    rewrite (cons_shape0 _ _ _ _ Hc) in Hi.
    destruct (constructed_mapping_row _ _ _ _ i Hc)
      as (a & _ & _ & _ & Hrow'); [lia|].
    rewrite Hrow' in Hrow. injection Hrow as <-.
    apply elem_of_scrub in Hx as [->|Hx]; [lia|].
    apply elem_of_pad_inv in Hx as [->|Hx]; [lia|].
    apply incoming_bounds in Hx. lia.
Qed.

(** X15.  What a row of the mapping lists: a non-zero id [x] is in row
    [i] exactly when [x] is a directed bond other than the reverse of [i]
    whose own reverse starts at the atom where [i] starts, that is, when
    [x] ends where [i] starts. *)
Theorem mapping_lists_bonds_into_source mol concat_fdim f_atoms self
    i row x :
  __init__ mol concat_fdim f_atoms = Ok self →
  1 ≤ i ≤ num_bonds self →
  nd_row (mapping self) i = Ok row →
  x ≠ 0 →
  x ∈ row
  ↔ 1 ≤ x ≤ num_bonds self
    ∧ b2revb self !! i ≠ Some x
    ∧ ∃ r a, b2revb self !! x = Some r
             ∧ bond_to_ini_atom self !! r = Some a
             ∧ bond_to_ini_atom self !! i = Some a.
Proof.
  intros Hc%init_spec Hi Hrow Hx.
  pose proof (constructed_num_bonds _ _ _ _ Hc) as Hnb.
  destruct (constructed_mapping_row _ _ _ _ i Hc)
    as (a & Ha & _ & Hrev & Hrow'); [lia|].
  rewrite decide_False in Hrev, Hrow' by lia.
  rewrite Hrow' in Hrow. injection Hrow as <-.
  rewrite elem_of_scrub_pad by done. rewrite Hrev. split.
  - intros [Hin Hne].
    pose proof (incoming_bounds _ _ _ Hin) as Hb. rewrite <- Hnb in Hb.
    split; [done|]. split; [congruence|].
    exists (rev_id x), a.
    split; [by apply (constructed_rev_lookup _ _ _ _ Hc)|].
    split; [|done].
    by apply (incoming_iff_reverse_source _ _ _ _ _ _ Hc).
  - intros (Hb & Hne & r & a' & Hr & Hra & Hia).
    rewrite (constructed_rev_lookup _ _ _ _ Hc x Hb) in Hr.
    injection Hr as <-. rewrite Ha in Hia. injection Hia as <-.
    split; [|congruence].
    by apply (incoming_iff_reverse_source _ _ _ _ _ _ Hc).
Qed.

Lemma length_filter_ne (l : list nat) (x : nat) :
  NoDup l → x ∈ l → length (filter (λ y, y ≠ x) l) + 1 = length l.
Proof.
  induction 1 as [|y l Hy Hnd IH]; [by intros ?%elem_of_nil|].
  intros [<-|Hx]%elem_of_cons.
  - rewrite filter_cons_False by (intros ?; congruence).
    cbn [length].
    assert (filter (λ y, y ≠ x) l = l) as ->; [|lia].
    clear IH Hnd. induction l as [|z l IH]; [done|].
    rewrite filter_cons_True by (intros ->; apply Hy, list_elem_of_here).
    f_equal. apply IH. intros ?. by apply Hy, list_elem_of_further.
  - rewrite filter_cons_True by (intros ->; done).
    cbn [length]. rewrite <- (IH Hx). lia.
Qed.

Lemma filter_nonzero_scrub_pad rev width (row : list nat) :
  (∀ x, x ∈ row → x ≠ 0) →
  filter (λ y, y ≠ 0) (scrub rev (pad width row))
  = filter (λ y, y ≠ rev) row.
Proof.
  intros Hrow. unfold scrub, pad. rewrite fmap_app, filter_app.
  assert (filter (λ y, y ≠ 0)
            ((λ x, if decide (x = rev) then 0 else x)
               <$> replicate (width - length row) 0) = []) as ->.
  { generalize (width - length row) as n. induction n as [|n IH]; [done|].
    cbn [replicate fmap list_fmap].
    rewrite filter_cons_False; [done|]. by case_decide; intros ?. }
  rewrite app_nil_r.
  induction row as [|y row IH]; [done|].
  assert (∀ x, x ∈ row → x ≠ 0) as Hrow'
    by (intros x ?; by apply Hrow, list_elem_of_further).
  cbn [fmap list_fmap]. case_decide as Hy.
  - subst y. rewrite filter_cons_False by (intros ?; congruence).
    rewrite filter_cons_False by (intros ?; congruence). by apply IH.
  - rewrite filter_cons_True by (apply Hrow, list_elem_of_here).
    rewrite filter_cons_True by done. f_equal. by apply IH.
Qed.

(** X16.  The number of non-zero entries in row [i] of the mapping is one
    less than the number of bonds the source atom of [i] takes part
    in. *)
Theorem mapping_row_degree mol concat_fdim f_atoms self i :
  __init__ mol concat_fdim f_atoms = Ok self →
  1 ≤ i ≤ num_bonds self →
  ∃ a row,
    bond_to_ini_atom self !! i = Some a
    ∧ nd_row (mapping self) i = Ok row
    ∧ length (filter (λ x, x ≠ 0) row) + 1
      = in_degree (real_bonds mol (shape0 f_atoms)) a.
Proof.
  intros Hc%init_spec Hi.
  destruct (constructed_mapping_row _ _ _ _ i Hc)
    as (a & Ha & _ & _ & Hrow); [lia|].
  rewrite decide_False in Hrow by lia.
  eexists a, _. split; [done|]. split; [done|].
  rewrite filter_nonzero_scrub_pad
    by (intros x Hx%incoming_bounds; lia).
  rewrite length_filter_ne.
  - apply length_incoming. intros p Hp.
    by apply real_bonds_in_range in Hp as [? _].
  - apply NoDup_incoming.
  - by apply (reverse_points_into_source _ _ _ _ _ _ Hc).
Qed.

(** X17.  [b2revb] pairs the directed bonds off: the reverse of a bond
    is another bond, the reverse of the reverse is the bond itself, and
    the two start at the two different ends of one bond of the
    molecule. *)
Theorem reverse_is_involution mol concat_fdim f_atoms self i :
  __init__ mol concat_fdim f_atoms = Ok self →
  1 ≤ i ≤ num_bonds self →
  ∃ r a b,
    b2revb self !! i = Some r
    ∧ 1 ≤ r ≤ num_bonds self
    ∧ r ≠ i
    ∧ b2revb self !! r = Some i
    ∧ bond_to_ini_atom self !! i = Some a
    ∧ bond_to_ini_atom self !! r = Some b
    ∧ a ≠ b
    ∧ (a `min` b, a `max` b) ∈ real_bonds mol (shape0 f_atoms).
Proof.
  intros Hc%init_spec Hi.
  pose proof (constructed_num_bonds _ _ _ _ Hc) as Hnb.
  assert (∃ j, j < length (real_bonds mol (shape0 f_atoms))
               ∧ (i = 2 * j + 1 ∨ i = 2 * j + 2)) as (j & Hj & Hij).
  { exists ((i - 1) / 2).
    pose proof (Nat.div_mod_eq (i - 1) 2) as Hdm.
    pose proof (Nat.mod_upper_bound (i - 1) 2) as Hm.
    split; [apply Nat.Div0.div_lt_upper_bound; lia | lia]. }
  destruct (lookup_lt_is_Some_2 _ _ Hj) as [[a1 a2] Hp].
  destruct (constructed_pair_lookup _ _ _ _ Hc j _ Hp)
    as (H1 & H2 & H3 & H4).
  pose proof (list_elem_of_lookup_2 _ _ _ Hp) as Hin.
  apply elem_of_real_bonds in Hin as Hrange. cbn [fst snd] in *.
  destruct Hrange as [(? & ? & ?) _].
  destruct Hij as [->| ->].
  - exists (2 * j + 2), a1, a2. repeat split; try done; try lia.
    by rewrite Nat.min_l, Nat.max_r by lia.
  - exists (2 * j + 1), a2, a1. repeat split; try done; try lia.
    by rewrite Nat.min_r, Nat.max_l by lia.
Qed.

(** *** When the constructor returns, and what it raises *)








(** *** Running the last two passes again *)

Lemma max_list_replicate n m : 1 ≤ n → max_list (replicate n m) = m.
Proof.
  induction n as [|n IH]; [lia|]. intros _. cbn.
  destruct n as [|n]; [cbn; lia|]. rewrite IH by lia. lia.
Qed.

Lemma nd_rows_ext {A : Type} (a b : ndarray A) :
  shape0 b = shape0 a → shape1 b = shape1 a →
  length (data a) = shape0 a * shape1 a →
  length (data b) = length (data a) →
  (∀ r, r < shape0 a → nd_row b r = nd_row a r) →
  b = a.
Proof.
  destruct a as [s0 s1 d], b as [s0' s1' d']. cbn.
  intros -> -> Hd Hd' Hrows. f_equal. apply list_eq. intros p.
  destruct (decide (p < s0 * s1)) as [Hp|Hp].
  - assert (0 < s1) as Hs1 by (destruct s1; lia).
    assert (p / s1 < s0) as Hr
      by (apply Nat.Div0.div_lt_upper_bound; lia).
    pose proof (Nat.mod_upper_bound p s1) as Hk.
    pose proof (Nat.div_mod_eq p s1) as Hdm.
    specialize (Hrows _ Hr). unfold nd_row in Hrows. cbn in Hrows.
    rewrite !decide_True in Hrows by done. injection Hrows as Hrows.
    apply (f_equal (.!! (p `mod` s1))) in Hrows.
    rewrite !lookup_take_lt, !lookup_drop in Hrows by lia.
    by replace (p / s1 * s1 + p `mod` s1) with p in Hrows by lia.
  - by rewrite !lookup_ge_None_2 by lia.
Qed.

(** X20.  The padding pass changes nothing when it runs a second time:
    on the object the constructor returns, [_modify_based_on_max_bonds]
    returns the same object. *)
Theorem padding_pass_idempotent mol concat_fdim f_atoms self :
  __init__ mol concat_fdim f_atoms = Ok self →
  _modify_based_on_max_bonds self = Ok self.
Proof.
  intros Hc%init_spec.
  pose proof (cons_atoms _ _ _ _ Hc) as Hn.
  pose proof (constructed_num_atoms _ _ _ _ Hc) as Hna.
  pose proof (cons_table _ _ _ _ Hc) as Htab.
  set (ps := real_bonds mol (shape0 f_atoms)) in *.
  set (M := max_width ps (shape0 f_atoms)) in *.
  assert (1 ≤ M) as HM by (unfold M, max_width; lia).
  unfold _modify_based_on_max_bonds.
  assert (atoms_end self = shape0 f_atoms) as ->
    by (unfold atoms_end; rewrite Hna; lia).
  assert (length <$> atom_to_incoming_bonds self
          = replicate (shape0 f_atoms) M) as ->.
  { rewrite Htab, <- list_fmap_compose, <- fmap_seq_const with (lo := 0).
    apply list_fmap_ext. intros i a [-> Hi]%lookup_seq. cbn.
    by apply length_padded_row. }
  erewrite (proj2 (max_of_Ok _ _)).
  2:{ split; [|reflexivity]. destruct (shape0 f_atoms); [lia|done]. }
  rewrite bind_Ok, max_list_replicate, Nat.max_r by done.
  rewrite (list_comp_fmap _ (λ a, pad M (incoming ps a))).
  { rewrite bind_Ok. unfold range. rewrite Nat.sub_0_r, <- Htab.
    by destruct self. }
  intros a Ha%elem_of_range. cbn beta.
  assert (getitem (atom_to_incoming_bonds self) a
          = Ok (pad M (incoming ps a))) as ->.
  { apply getitem_Ok. rewrite Htab, list_lookup_fmap, lookup_seq_lt by lia.
    done. }
  rewrite !bind_Ok. cbn beta.
  unfold M, ps. rewrite length_padded_row, Nat.sub_diag by lia.
  cbn. by rewrite app_nil_r.
Qed.

(** X21.  The scrub pass changes nothing when it runs a second time: on
    the object the constructor returns, [_replace_rev_bonds] returns the
    same object. *)
Theorem scrub_pass_idempotent mol concat_fdim f_atoms self :
  __init__ mol concat_fdim f_atoms = Ok self →
  _replace_rev_bonds self = Ok self.
Proof.
  intros Hc%init_spec.
  pose proof (constructed_num_bonds _ _ _ _ Hc) as Hnb.
  pose proof (constructed_rev _ _ _ _ Hc) as Hrev.
  unfold _replace_rev_bonds, enumerate.
  destruct (replace_loop_total (b2revb self) 0 self) as [self' Hrun].
  { rewrite Hrev, (cons_shape0 _ _ _ _ Hc). cbn [length].
    rewrite length_fmap, length_seq. lia. }
  cbn [Nat.add] in Hrun. rewrite Hrun.
  apply (replace_loop_spec _ 0) in Hrun
    as (m & -> & H0 & H1 & Hlen & Hrows & _).
  assert (m = mapping self) as ->; [|by rewrite set_mapping_mapping].
  apply nd_rows_ext; [done|done| |done|].
  { by apply (cons_data_length' mol concat_fdim f_atoms). }
  intros r Hr. rewrite (cons_shape0 _ _ _ _ Hc) in Hr.
  destruct (constructed_mapping_row _ _ _ _ r Hc)
    as (a & _ & _ & Hr' & Hrow); [lia|].
  pose proof (Hrows r _ _ Hr' Hrow) as Hm. cbn [Nat.add] in Hm.
  by rewrite Hm, Hrow, scrub_idemp.
Qed.

(** *** The discovery only appends *)

Lemma extends_refl self : extends self self.
Proof. by split. Qed.

Lemma extends_trans self1 self2 self3 :
  extends self1 self2 → extends self2 self3 → extends self1 self3.
Proof.
  intros [] []. split; try congruence; try (by etrans).
Qed.

Lemma Forall2_prefix_insert (l : list (list nat)) a row b :
  l !! a = Some row → Forall2 prefix l (<[a := row ++ [b]]> l).
Proof.
  intros Ha. rewrite <- (list_insert_id l a row) at 1 by done.
  apply Forall2_insert; [done|]. by apply prefix_app_r.
Qed.

Lemma discover_extends self a1 a2 self' :
  discover self a1 a2 = Ok self' → extends self self'.
Proof.
  unfold discover, _update_concat_vector. intros Hrun.
  apply bind_Ok_inv in Hrun as ([found s1] & Hucv & Hrun).
  destruct (GetBondBetweenAtoms _ _ _) as [bond|].
  - apply bind_Ok_inv in Hucv
      as (sa & (rowa & _ & _ & _ & ->)%extend_concat_feature_Ok & Hucv).
    apply bind_Ok_inv in Hucv
      as (sb & (rowb & _ & _ & _ & ->)%extend_concat_feature_Ok & Hucv).
    injection Hucv as <- <-. rewrite decide_False in Hrun by done.
    apply bind_Ok_inv in Hrun
      as (s2 & (row2 & row1 & H2 & H1 & ->)%update_secondary_mappings_Ok
          & Hrun).
    injection Hrun as <-. cbn in H1, H2. split; cbn; try done.
    + lia.
    + rewrite <- app_assoc. by apply prefix_app_r.
    + by do 2 apply prefix_app_r.
    + by do 2 apply prefix_app_r.
    + etrans; [by apply Forall2_prefix_insert|].
      by apply Forall2_prefix_insert.
  - injection Hucv as <- <-. rewrite decide_True in Hrun by done.
    injection Hrun as <-. apply extends_refl.
Qed.

(** X22.  The discovery loops only append: whatever the object holds
    when they start, afterwards the features, source atoms, reverse ids
    and each row of incoming bonds begin with what they held before,
    [num_bonds] has not decreased, no row of incoming bonds was added or
    dropped, and the inputs and [mapping] are untouched. *)
Theorem discovery_only_appends self self' :
  discovery_loops self = Ok self' → extends self self'.
Proof.
  rewrite discovery_loops_pairs.
  apply (for_each_preserves _ (extends self)).
  - intros s p s' Hs Hstep. eapply extends_trans; [done|].
    by eapply discover_extends.
  - apply extends_refl.
Qed.

(** *** What the index tables depend on *)

(** X23.  The index tables do not depend on feature values: two
    molecules with the same number of atom rows and bonds between the
    same pairs of atoms get the same [num_bonds],
    [atom_to_incoming_bonds], [bond_to_ini_atom], [b2revb] and
    [mapping], whatever the features and their widths. *)
Theorem index_tables_depend_on_bonds_only mol mol' concat_fdim
    concat_fdim' f_atoms f_atoms' self self' :
  shape0 f_atoms = shape0 f_atoms' →
  (∀ i j, is_Some (GetBondBetweenAtoms mol i j)
          ↔ is_Some (GetBondBetweenAtoms mol' i j)) →
  __init__ mol concat_fdim f_atoms = Ok self →
  __init__ mol' concat_fdim' f_atoms' = Ok self' →
  num_atoms self = num_atoms self'
  ∧ num_bonds self = num_bonds self'
  ∧ atom_to_incoming_bonds self = atom_to_incoming_bonds self'
  ∧ bond_to_ini_atom self = bond_to_ini_atom self'
  ∧ b2revb self = b2revb self'
  ∧ mapping self = mapping self'.
Proof.
  intros Hshape Hbonds Hc%init_spec Hc'%init_spec.
  assert (real_bonds mol (shape0 f_atoms)
          = real_bonds mol' (shape0 f_atoms')) as Hps.
  { rewrite <- Hshape. unfold real_bonds. apply list_filter_iff.
    intros p. apply Hbonds. }
  pose proof (constructed_num_bonds _ _ _ _ Hc) as Hnb.
  pose proof (constructed_num_bonds _ _ _ _ Hc') as Hnb'.
  assert (num_bonds self = num_bonds self') as Hnum by congruence.
  split.
  { rewrite (constructed_num_atoms _ _ _ _ Hc),
      (constructed_num_atoms _ _ _ _ Hc'). by rewrite Hshape. }
  split; [done|]. split.
  { rewrite (cons_table _ _ _ _ Hc), (cons_table _ _ _ _ Hc').
    by rewrite Hps, Hshape. }
  split.
  { rewrite (constructed_ini _ _ _ _ Hc), (constructed_ini _ _ _ _ Hc').
    by rewrite Hps. }
  split.
  { rewrite (constructed_rev _ _ _ _ Hc), (constructed_rev _ _ _ _ Hc').
    by rewrite Hps. }
  pose proof (cons_shape0 _ _ _ _ Hc) as Hs0.
  pose proof (cons_shape0 _ _ _ _ Hc') as Hs0'.
  pose proof (cons_shape1 _ _ _ _ Hc) as Hs1.
  pose proof (cons_shape1 _ _ _ _ Hc') as Hs1'.
  apply nd_rows_ext.
  - rewrite Hs0, Hs0'. by rewrite Hps.
  - rewrite Hs1, Hs1'. by rewrite Hps, Hshape.
  - by apply (cons_data_length' mol' concat_fdim' f_atoms').
  - rewrite (cons_data_length _ _ _ _ Hc), (cons_data_length _ _ _ _ Hc').
    by rewrite Hps, Hshape.
  - intros r Hr. rewrite Hs0' in Hr.
    destruct (constructed_mapping_row _ _ _ _ r Hc')
      as (a' & Ha' & _ & _ & Hrow'); [lia|].
    destruct (constructed_mapping_row _ _ _ _ r Hc)
      as (a & Ha & _ & _ & Hrow); [rewrite Hnb, Hps; lia|].
    rewrite (constructed_ini _ _ _ _ Hc), Hps,
      <- (constructed_ini _ _ _ _ Hc'), Ha' in Ha.
    injection Ha as <-.
    by rewrite Hrow, Hrow', Hps, Hshape.
Qed.

End facts.

(** *** The further properties on the test molecules *)

Section test_molecules.
Import Examples.
Local Existing Instances toy_float toy_rdkit toy_utils.

Local Abbreviation toy_mapper m n :=
  (__init__ (U := toy_utils) m 16 (toy_f_atoms n)).

(** Propane: two lists of five entries that start with 0, and two rows
    of zeros. *)
Lemma index_zero_is_padding_witness :
  ∃ self,
    toy_mapper propane 3 = Ok self
    ∧ length (bond_to_ini_atom self) = num_bonds self + 1
    ∧ atom_to_incoming_bonds self !! 0
      = Some (replicate (shape1 (mapping self)) 0)
    ∧ nd_row (mapping self) 0 = Ok (replicate (shape1 (mapping self)) 0).
Proof.
  assert (∃ self, toy_mapper propane 3 = Ok self) as [self Hrun]
    by (eexists; vm_compute; reflexivity).
  exists self. split; [exact Hrun|].
  destruct (index_zero_is_padding (U := toy_utils)
              propane 16 (toy_f_atoms 3) self Hrun)
    as (H1 & _ & _ & _ & H2 & H3).
  split; [exact H1|]. split; [exact H2 | exact H3].
Defined.

(** Propane, the bond between atoms 2 and 3, discovered second: rows 3
    and 4 of the concatenated table. *)
Lemma concat_rows_content_witness :
  ∃ self f_atom1 f_atom2,
    toy_mapper propane 3 = Ok self
    ∧ real_bonds propane (shape0 (toy_f_atoms 3)) !! 1 = Some (2, 3)
    ∧ nd_row (toy_f_atoms 3) 2 = Ok f_atom1
    ∧ nd_row (toy_f_atoms 3) 3 = Ok f_atom2
    ∧ nd_row (f_ini_atoms_bonds_zero_padded self) 3
      = Ok (f_atom1
            ++ (to_float <$> Encoders.bond_features (Some (1, 2))))
    ∧ nd_row (f_ini_atoms_bonds_zero_padded self) 4
      = Ok (f_atom2
            ++ (to_float <$> Encoders.bond_features (Some (1, 2)))).
Proof.
  assert (∃ self, toy_mapper propane 3 = Ok self) as [self Hrun]
    by (eexists; vm_compute; reflexivity).
  assert (real_bonds propane (shape0 (toy_f_atoms 3)) !! 1 = Some (2, 3))
    as Hj by (vm_compute; reflexivity).
  destruct (concat_rows_content (U := toy_utils)
              propane 16 (toy_f_atoms 3) self 1 2 3 (1, 2) Hrun Hj eq_refl)
    as (f_atom1 & f_atom2 & H1 & H2 & H3 & H4).
  exists self, f_atom1, f_atom2.
  split; [exact Hrun|]. split; [exact Hj|]. split; [exact H1|].
  split; [exact H2|]. split; [exact H3 | exact H4].
Defined.

(** Propane: every entry of every table is in range. *)
Lemma stored_indices_in_range_witness :
  ∃ self,
    toy_mapper propane 3 = Ok self
    ∧ (∀ a, a ∈ bond_to_ini_atom self → a < shape0 (toy_f_atoms 3))
    ∧ (∀ r, r ∈ b2revb self → r ≤ num_bonds self).
Proof.
  assert (∃ self, toy_mapper propane 3 = Ok self) as [self Hrun]
    by (eexists; vm_compute; reflexivity).
  exists self. split; [exact Hrun|].
  destruct (stored_indices_in_range (U := toy_utils)
              propane 16 (toy_f_atoms 3) self Hrun) as (H1 & H2 & _).
  split; [exact H1 | exact H2].
Defined.

(** Propane has four directed bonds. *)
Lemma toy_propane_num_bonds self :
  toy_mapper propane 3 = Ok self → num_bonds self = 4.
Proof.
  intros Hc%init_spec. rewrite (constructed_num_bonds _ _ _ _ Hc).
  vm_compute. reflexivity.
Qed.

(** Propane, row 2 (the bond from atom 2 to atom 1): whether it lists
    bond 4, which comes from atom 3 into atom 2. *)
Lemma mapping_lists_bonds_into_source_witness :
  ∃ self row,
    toy_mapper propane 3 = Ok self
    ∧ 1 ≤ 2 ≤ num_bonds self
    ∧ nd_row (mapping self) 2 = Ok row
    ∧ (4 ∈ row
       ↔ 1 ≤ 4 ≤ num_bonds self
         ∧ b2revb self !! 2 ≠ Some 4
         ∧ ∃ r a, b2revb self !! 4 = Some r
                  ∧ bond_to_ini_atom self !! r = Some a
                  ∧ bond_to_ini_atom self !! 2 = Some a).
Proof.
  assert (∃ self, toy_mapper propane 3 = Ok self) as [self Hrun]
    by (eexists; vm_compute; reflexivity).
  pose proof (toy_propane_num_bonds self Hrun) as Hnb.
  assert (1 ≤ 2 ≤ num_bonds self) as Hi by (rewrite Hnb; lia).
  destruct (constructed_mapping_row (R := toy_rdkit)
              propane 16 (toy_f_atoms 3) self 2 (init_spec _ _ _ _ Hrun))
    as (a & _ & _ & _ & Hrow); [lia|].
  eexists self, _. split; [exact Hrun|]. split; [exact Hi|].
  split; [exact Hrow|].
  apply (mapping_lists_bonds_into_source (U := toy_utils)
           propane 16 (toy_f_atoms 3) self 2 _ 4 Hrun Hi Hrow).
  lia.
Defined.

(** Propane, bond 2: its row and the degree of its source atom. *)
Lemma mapping_row_degree_witness :
  ∃ self,
    toy_mapper propane 3 = Ok self
    ∧ 1 ≤ 2 ≤ num_bonds self
    ∧ ∃ a row,
        bond_to_ini_atom self !! 2 = Some a
        ∧ nd_row (mapping self) 2 = Ok row
        ∧ length (filter (λ x, x ≠ 0) row) + 1
          = in_degree (real_bonds propane (shape0 (toy_f_atoms 3))) a.
Proof.
  assert (∃ self, toy_mapper propane 3 = Ok self) as [self Hrun]
    by (eexists; vm_compute; reflexivity).
  pose proof (toy_propane_num_bonds self Hrun) as Hnb.
  assert (1 ≤ 2 ≤ num_bonds self) as Hi by (rewrite Hnb; lia).
  exists self. split; [exact Hrun|]. split; [exact Hi|].
  exact (mapping_row_degree (U := toy_utils)
           propane 16 (toy_f_atoms 3) self 2 Hrun Hi).
Defined.

(** Propane, bond 3: its reverse and the two ends. *)
Lemma reverse_is_involution_witness :
  ∃ self,
    toy_mapper propane 3 = Ok self
    ∧ 1 ≤ 3 ≤ num_bonds self
    ∧ ∃ r a b,
        b2revb self !! 3 = Some r
        ∧ 1 ≤ r ≤ num_bonds self
        ∧ r ≠ 3
        ∧ b2revb self !! r = Some 3
        ∧ bond_to_ini_atom self !! 3 = Some a
        ∧ bond_to_ini_atom self !! r = Some b
        ∧ a ≠ b
        ∧ (a `min` b, a `max` b)
          ∈ real_bonds propane (shape0 (toy_f_atoms 3)).
Proof.
  assert (∃ self, toy_mapper propane 3 = Ok self) as [self Hrun]
    by (eexists; vm_compute; reflexivity).
  pose proof (toy_propane_num_bonds self Hrun) as Hnb.
  assert (1 ≤ 3 ≤ num_bonds self) as Hi by (rewrite Hnb; lia).
  exists self. split; [exact Hrun|]. split; [exact Hi|].
  exact (reverse_is_involution (U := toy_utils)
           propane 16 (toy_f_atoms 3) self 3 Hrun Hi).
Defined.


(** Propane: padding the built object again returns it. *)
Lemma padding_pass_idempotent_witness :
  ∃ self,
    toy_mapper propane 3 = Ok self
    ∧ _modify_based_on_max_bonds self = Ok self.
Proof.
  assert (∃ self, toy_mapper propane 3 = Ok self) as [self Hrun]
    by (eexists; vm_compute; reflexivity).
  exists self. split; [exact Hrun|].
  exact (padding_pass_idempotent (U := toy_utils)
           propane 16 (toy_f_atoms 3) self Hrun).
Defined.

(** Propane: scrubbing the built object again returns it. *)
Lemma scrub_pass_idempotent_witness :
  ∃ self,
    toy_mapper propane 3 = Ok self ∧ _replace_rev_bonds self = Ok self.
Proof.
  assert (∃ self, toy_mapper propane 3 = Ok self) as [self Hrun]
    by (eexists; vm_compute; reflexivity).
  exists self. split; [exact Hrun|].
  exact (scrub_pass_idempotent (U := toy_utils)
           propane 16 (toy_f_atoms 3) self Hrun).
Defined.

(** Propane: the discovery extends the freshly initialised object. *)
Lemma discovery_only_appends_witness :
  ∃ self self',
    init_attributes propane 16 (toy_f_atoms 3) = Ok self
    ∧ discovery_loops (U := toy_utils) self = Ok self'
    ∧ extends self self'.
Proof.
  assert (∃ self, init_attributes propane 16 (toy_f_atoms 3) = Ok self)
    as [self Hinit] by (eexists; vm_compute; reflexivity).
  assert (∃ self', discovery_loops (U := toy_utils) self = Ok self')
    as [self' Hrun].
  { injection Hinit as <-. eexists. vm_compute. reflexivity. }
  exists self, self'. split; [exact Hinit|]. split; [exact Hrun|].
  exact (discovery_only_appends (U := toy_utils) self self' Hrun).
Defined.

(** Ethane with two different feature tables, of widths 2 and 1: the
    same index tables. *)
Lemma index_tables_depend_on_bonds_only_witness :
  ∃ self self',
    toy_mapper ethane 2 = Ok self
    ∧ __init__ (U := toy_utils) ethane 15 (NdArray 3 1 [0; 5; 7]%Z)
      = Ok self'
    ∧ b2revb self = b2revb self'
    ∧ mapping self = mapping self'.
Proof.
  assert (∃ self, toy_mapper ethane 2 = Ok self) as [self Hrun]
    by (eexists; vm_compute; reflexivity).
  assert (∃ self', __init__ (U := toy_utils) ethane 15
                     (NdArray 3 1 [0; 5; 7]%Z) = Ok self')
    as [self' Hrun'] by (eexists; vm_compute; reflexivity).
  exists self, self'. split; [exact Hrun|]. split; [exact Hrun'|].
  destruct (index_tables_depend_on_bonds_only (U := toy_utils)
              ethane ethane 16 15 (toy_f_atoms 2) (NdArray 3 1 [0; 5; 7]%Z)
              self self' eq_refl (λ i j, reflexivity _) Hrun Hrun')
    as (_ & _ & _ & _ & H1 & H2).
  split; [exact H1 | exact H2].
Defined.

End test_molecules.
End MapperMore.
